(** * src/common/list.c: the array-backed list and its iterators

    A shallow embedding of [list.c] (the contiguous-array variant of the
    LSD-Tools list), the properties of it that the specification states,
    and further properties that the code itself shows.

    - A [Node] is a [void *]: an integer address, [NULL] being 0.
    - [unsigned int] fields are integers kept in [0, 2^32) by [u32]; the
      conversions to [int] that the source performs are written [to_int].
    - [struct xlist] and [struct listIterator] records live in a heap
      ([World]) addressed by [positive]s; a [List] or [ListIterator] is a
      nullable pointer into it.  The intrusive iterator chain
      ([l->iNext], [i->iNext]) is the list of iterator addresses, head first.
    - The allocator, the destructor callback and the assertion facility are
      external: [list_realloc] reads its outcome from a tape in the world,
      a destructor call is recorded in a log, and a failed [xassert]
      stops the program unless the build defines [NDEBUG]. *)

From Stdlib Require Import ZArith Lia.
From stdpp Require Import gmap list.

Local Open Scope Z_scope.

(** ** Machine integers *)

Definition u32 (x : Z) : Z := x mod 2 ^ 32.

Definition to_int (x : Z) : Z :=
  let y := x mod 2 ^ 32 in if y <? 2 ^ 31 then y else y - 2 ^ 32.

Definition MAX (a b : Z) : Z := if a >? b then a else b.

(** ** Constants *)

Definition LIST_MAGIC : Z := 0xDEADBEEF.
Definition LIST_ITR_MAGIC : Z := 0xDEADBEFF.

(** ** Data types *)

Definition Node := Z.
Definition NULL : Node := 0.
Definition ListDelF := Z.
Definition ListFindF := Node -> Node -> Z.
Definition ListCmpF := Node -> Node -> Z.
Definition ListForF := Node -> Node -> Z.

Definition addr := positive.
Definition List := option addr.
Definition ListIterator := option addr.

Record listIterator := mk_listIterator {
  i_magic : Z;
  i_list : List;
  pos : Z;
  prev : Z
}.

Record xlist := mk_xlist {
  magic : Z;
  arr : option (list Node);
  iNext : list addr;
  fDel : ListDelF;
  size : Z;
  capacity : Z;
  mutex : bool
}.

Record World := mk_World {
  lists : gmap addr xlist;
  iters : gmap addr listIterator;
  realloc_tape : list bool;
  fDel_log : list (ListDelF * Node)
}.

Definition empty_world : World := mk_World ∅ ∅ [] [].

(** Field updates. *)

Definition set_magic (v : Z) (L : xlist) : xlist :=
  mk_xlist v (arr L) (iNext L) (fDel L) (size L) (capacity L) (mutex L).
Definition set_arr (v : option (list Node)) (L : xlist) : xlist :=
  mk_xlist (magic L) v (iNext L) (fDel L) (size L) (capacity L) (mutex L).
Definition set_iNext (v : list addr) (L : xlist) : xlist :=
  mk_xlist (magic L) (arr L) v (fDel L) (size L) (capacity L) (mutex L).
Definition set_size (v : Z) (L : xlist) : xlist :=
  mk_xlist (magic L) (arr L) (iNext L) (fDel L) v (capacity L) (mutex L).
Definition set_capacity (v : Z) (L : xlist) : xlist :=
  mk_xlist (magic L) (arr L) (iNext L) (fDel L) (size L) v (mutex L).
Definition set_mutex (v : bool) (L : xlist) : xlist :=
  mk_xlist (magic L) (arr L) (iNext L) (fDel L) (size L) (capacity L) v.

Definition set_pos (v : Z) (it : listIterator) : listIterator :=
  mk_listIterator (i_magic it) (i_list it) v (prev it).
Definition set_prev (v : Z) (it : listIterator) : listIterator :=
  mk_listIterator (i_magic it) (i_list it) (pos it) v.

Definition set_lists (m : gmap addr xlist) (w : World) : World :=
  mk_World m (iters w) (realloc_tape w) (fDel_log w).
Definition set_iters (m : gmap addr listIterator) (w : World) : World :=
  mk_World (lists w) m (realloc_tape w) (fDel_log w).
Definition set_tape (t : list bool) (w : World) : World :=
  mk_World (lists w) (iters w) t (fDel_log w).
Definition set_log (g : list (ListDelF * Node)) (w : World) : World :=
  mk_World (lists w) (iters w) (realloc_tape w) g.

(** ** The monad of list.c: state, and the ways a run can stop *)

(** [OutOfFuel] is not a behaviour of the program: it marks a loop of the
    model that was given too few iterations to finish. *)
Inductive fault := AssertFailed | MemFault | Deadlock | OutOfFuel.

Inductive outcome (A : Type) :=
| Ok (a : A) (w : World)
| Crash (e : fault).
Arguments Ok {A} a w.
Arguments Crash {A} e.

Definition M (A : Type) := World -> outcome A.

Definition ret {A} (a : A) : M A := fun w => Ok a w.
Definition bind {A B} (m : M A) (k : A -> M B) : M B :=
  fun w => match m w with Ok a w' => k a w' | Crash e => Crash e end.
Definition crash {A} (e : fault) : M A := fun _ => Crash e.

Declare Scope M_scope.
Delimit Scope M_scope with M.
Notation "x ← y ; z" := (bind y (fun x : _ => z))
  (at level 20, y at level 100, z at level 200, only parsing) : M_scope.
Notation "' x ← y ; z" := (bind y (fun x : _ => z))
  (at level 20, x pattern, y at level 100, z at level 200, only parsing) : M_scope.
Notation "x ;; z" := (bind x (fun _ => z))
  (at level 100, z at level 200, only parsing, right associativity) : M_scope.
Local Open Scope M_scope.

Section ListC.

(** [NDEBUG] is the build flag that turns [xassert] into nothing. *)
Variable NDEBUG : bool.

(** [qsort] is libc's; nothing is assumed about the order it leaves. *)
Variable qsort : ListCmpF -> list Node -> list Node.

(** [xassert(c)]: with [NDEBUG] the condition is not even evaluated. *)
Definition xassert_in (c : M bool) : M unit :=
  if NDEBUG then ret tt
  else b ← c; if b : bool then ret tt else crash AssertFailed.

Definition xassert (c : bool) : M unit := xassert_in (ret c).

(** Dereferencing: a null or dangling pointer is a memory fault. *)

Definition deref {A} (p : option addr) (h : World -> gmap addr A) : M (addr * A) :=
  fun w => match p with
           | None => Crash MemFault
           | Some a => match h w !! a with
                       | Some r => Ok (a, r) w
                       | None => Crash MemFault
                       end
           end.

Definition get_list (a : addr) : M xlist :=
  fun w => match lists w !! a with Some L => Ok L w | None => Crash MemFault end.
Definition put_list (a : addr) (L : xlist) : M unit :=
  fun w => Ok tt (set_lists (<[a := L]> (lists w)) w).
Definition mod_list (a : addr) (f : xlist -> xlist) : M unit :=
  L ← get_list a; put_list a (f L).

Definition get_iter (i : addr) : M listIterator :=
  fun w => match iters w !! i with Some it => Ok it w | None => Crash MemFault end.
Definition put_iter (i : addr) (it : listIterator) : M unit :=
  fun w => Ok tt (set_iters (<[i := it]> (iters w)) w).

Definition slurm_mutex_lock (a : addr) : M unit :=
  L ← get_list a;
  if mutex L then crash Deadlock else put_list a (set_mutex true L).
Definition slurm_mutex_unlock (a : addr) : M unit :=
  mod_list a (set_mutex false).

Definition is_ptr (p : option addr) : bool :=
  match p with Some _ => true | None => false end.

(** [xassert(l->magic == LIST_MAGIC)] *)
Definition assert_list_magic (l : List) : M unit :=
  xassert_in ('(_, L) ← deref l lists; ret (magic L =? LIST_MAGIC)).

(** [xassert(i->magic == LIST_ITR_MAGIC)] *)
Definition assert_itr_magic (i : ListIterator) : M unit :=
  xassert_in ('(_, it) ← deref i iters; ret (i_magic it =? LIST_ITR_MAGIC)).

Definition is_ptr_buf (p : option (list Node)) : bool :=
  match p with Some _ => true | None => false end.

(** ** list_create *)

Definition list_alloc : M addr :=
  fun w => let a := fresh (dom (lists w)) in
           Ok a (set_lists (<[a := mk_xlist 0 None [] NULL 0 0 false]> (lists w)) w).

Definition list_create (f : ListDelF) : M List :=
  a ← list_alloc;
  put_list a (mk_xlist LIST_MAGIC None [] f 0 0 false) ;;
  ret (Some a).

(** ** The external collaborators *)

(** [list_realloc(_p, _sz)], counted in slots.  The next entry of the tape
    says whether the allocator succeeds; an empty tape always succeeds.  New
    slots are zeroed, as [xrealloc] leaves them. *)
Definition list_realloc (p : option (list Node)) (n : Z) : M (option (list Node)) :=
  fun w =>
    if n <=? 0 then Ok None w else
    match realloc_tape w with
    | false :: t => Ok None (set_tape t w)
    | true :: t => Ok (Some (resize (Z.to_nat n) NULL (default [] p))) (set_tape t w)
    | [] => Ok (Some (resize (Z.to_nat n) NULL (default [] p))) w
    end.

(** [l->fDel(v)]: the call is logged. *)
Definition call_fDel (f : ListDelF) (v : Node) : M unit :=
  fun w => Ok tt (set_log (fDel_log w ++ [(f, v)]) w).

(** ** Access to the slot array *)

(** [*(Node * )(((char * )l->arr) + k * LIST_NODE_SIZE)] *)
Definition arr_read (a : addr) (k : Z) : M Node :=
  L ← get_list a;
  match arr L with
  | Some buf =>
      if k <? 0 then crash MemFault else
      match buf !! Z.to_nat k with
      | Some v => ret v
      | None => crash MemFault
      end
  | None => crash MemFault
  end.

Definition arr_write (a : addr) (k : Z) (x : Node) : M unit :=
  L ← get_list a;
  match arr L with
  | Some buf =>
      if (0 <=? k) && (k <? Z.of_nat (length buf))
      then put_list a (set_arr (Some (<[Z.to_nat k := x]> buf)) L)
      else crash MemFault
  | None => crash MemFault
  end.

Definition memmove_buf (buf : list Node) (dst src n : nat) : list Node :=
  take dst buf ++ take n (drop src buf) ++ drop (dst + n) buf.

(** [memmove] of [n] slots from index [src] to index [dst] of [l->arr]. *)
Definition memmove (a : addr) (dst src n : Z) : M unit :=
  if n =? 0 then ret tt else
  if (n <? 0) || (dst <? 0) || (src <? 0) then crash MemFault else
  L ← get_list a;
  match arr L with
  | Some buf =>
      if (src + n <=? Z.of_nat (length buf)) && (dst + n <=? Z.of_nat (length buf))
      then put_list a
             (set_arr (Some (memmove_buf buf (Z.to_nat dst) (Z.to_nat src) (Z.to_nat n))) L)
      else crash MemFault
  | None => crash MemFault
  end.

(** [for (i = l->iNext; i; i = i->iNext) { xassert(i->magic == ...); body }] *)
Fixpoint for_each_iterator (f : listIterator -> listIterator) (chain : list addr) : M unit :=
  match chain with
  | [] => ret tt
  | i :: rest =>
      assert_itr_magic (Some i) ;;
      it ← get_iter i;
      put_iter i (f it) ;;
      for_each_iterator f rest
  end.

(** [xassert(l != NULL); xassert(l->magic == LIST_MAGIC);
    xassert(_list_mutex_is_locked(&l->mutex));] of the locked helpers, which
    are only ever handed a list that was dereferenced already. *)
Definition assert_locked (a : addr) : M unit :=
  assert_list_magic (Some a) ;;
  xassert_in (L ← get_list a; ret (mutex L)).

(** ** _list_grow *)

Definition _list_grow (a : addr) : M Z :=
  assert_locked a ;;
  L ← get_list a;
  failed ← (if size L =? capacity L then
              let cap := u32 (capacity L + (if capacity L >? 1 then capacity L else 1)) in
              put_list a (set_capacity cap L) ;;
              p ← list_realloc (arr L) cap;
              mod_list a (set_arr p) ;;
              ret (negb (is_ptr_buf p))
            else ret false);
  if failed : bool then ret (-1) else
  mod_list a (fun L => set_size (u32 (1 + size L)) L) ;;
  L ← get_list a;
  ret (to_int (capacity L)).

(** ** _list_reserve *)

Definition _list_reserve (a : addr) (n : Z) : M Z :=
  assert_locked a ;;
  xassert (negb (n =? 0)) ;;
  L ← get_list a;
  if n <=? to_int (capacity L) then ret (-1) else
  p ← list_realloc (arr L) n;
  mod_list a (set_arr p) ;;
  if negb (is_ptr_buf p) then ret (-1) else
  mod_list a (set_capacity (u32 n)) ;;
  ret (to_int (u32 n)).

(** ** _list_node_create *)

Definition create_repair (p : Z) (it : listIterator) : listIterator :=
  let it := if prev it =? p then set_prev (u32 (p + 1)) it else it in
  if pos it =? p then set_pos (u32 (p + 1)) it else it.

Definition _list_node_create (a : addr) (p : Z) (x : Node) : M Node :=
  assert_locked a ;;
  L ← get_list a;
  xassert ((0 <=? p) && (p <=? size L)) ;;
  xassert (negb (x =? NULL)) ;;
  if (p <? 0) || (p >? size L) then ret NULL else
  g ← _list_grow a;
  if g <? 0 then ret NULL else
  L ← get_list a;
  memmove a (p + 1) p (size L - 1 - p) ;;
  arr_write a p x ;;
  for_each_iterator (create_repair p) (iNext L) ;;
  ret x.

(** ** _list_node_destroy *)

Definition destroy_repair (p : Z) (it : listIterator) : listIterator :=
  if pos it =? u32 (p + 1) then set_prev p (set_pos p it)
  else if prev it =? u32 (p + 1) then set_prev p it
  else it.

Definition _list_node_destroy (a : addr) (p : Z) : M Node :=
  assert_locked a ;;
  L ← get_list a;
  xassert ((0 <=? p) && (p <=? size L)) ;;
  if (p <? 0) || (p >=? size L) then ret NULL else
  v ← arr_read a p;
  memmove a p (p + 1) (size L - (p + 1)) ;;
  mod_list a (fun L => set_size (u32 (MAX 0 (to_int (size L) - 1))) L) ;;
  for_each_iterator (destroy_repair p) (iNext L) ;;
  ret v.

Definition _list_pop_locked (a : addr) : M Node :=
  _list_node_destroy a 0.

Definition _list_append_locked (a : addr) (x : Node) : M Node :=
  L ← get_list a;
  _list_node_create a (size L) x.

(** The entry sequence of a public function on a list:
    [xassert(l != NULL); slurm_mutex_lock(&l->mutex);
     xassert(l->magic == LIST_MAGIC);] *)
Definition enter (l : List) : M addr :=
  xassert (is_ptr l) ;;
  '(a, _) ← deref l lists;
  slurm_mutex_lock a ;;
  assert_list_magic l ;;
  ret a.

(** ** list_is_empty *)

Definition list_is_empty (l : List) : M bool :=
  a ← enter l;
  L ← get_list a;
  let n := to_int (size L) in
  slurm_mutex_unlock a ;;
  ret (n =? 0).

(** ** list_count *)

Definition list_count (l : List) : M Z :=
  match l with
  | None => ret 0
  | Some a =>
      slurm_mutex_lock a ;;
      assert_list_magic l ;;
      L ← get_list a;
      let n := to_int (size L) in
      slurm_mutex_unlock a ;;
      ret n
  end.

(** ** list_shallow_copy *)

(** [memcpy(m->arr, l->arr, n * LIST_NODE_SIZE)] *)
Definition memcpy_arr (m a : addr) (n : Z) : M unit :=
  if n =? 0 then ret tt else
  if n <? 0 then crash MemFault else
  Lm ← get_list m;
  La ← get_list a;
  match arr Lm, arr La with
  | Some dst, Some src =>
      if (n <=? Z.of_nat (length dst)) && (n <=? Z.of_nat (length src))
      then put_list m (set_arr (Some (take (Z.to_nat n) src ++ drop (Z.to_nat n) dst)) Lm)
      else crash MemFault
  | _, _ => crash MemFault
  end.

Definition list_shallow_copy (l : List) : M List :=
  m ← list_create NULL;
  xassert (is_ptr l) ;;
  assert_list_magic l ;;
  '(a, _) ← deref l lists;
  slurm_mutex_lock a ;;
  '(ma, _) ← deref m lists;
  slurm_mutex_lock ma ;;
  L ← get_list a;
  r ← _list_reserve ma (to_int (size L));
  if r <? 0 then ret None else
  mod_list ma (set_size (size L)) ;;
  memcpy_arr ma a (size L) ;;
  slurm_mutex_unlock ma ;;
  slurm_mutex_unlock a ;;
  ret m.

(** ** list_append, list_prepend, list_push, list_enqueue *)

Definition list_append (l : List) (x : Node) : M Node :=
  xassert (is_ptr l) ;;
  xassert (negb (x =? NULL)) ;;
  '(a, _) ← deref l lists;
  slurm_mutex_lock a ;;
  assert_list_magic l ;;
  v ← _list_append_locked a x;
  slurm_mutex_unlock a ;;
  ret v.

Definition list_prepend (l : List) (x : Node) : M Node :=
  xassert (is_ptr l) ;;
  xassert (negb (x =? NULL)) ;;
  '(a, _) ← deref l lists;
  slurm_mutex_lock a ;;
  assert_list_magic l ;;
  v ← _list_node_create a 0 x;
  slurm_mutex_unlock a ;;
  ret v.

Definition list_push (l : List) (x : Node) : M Node :=
  xassert (is_ptr l) ;;
  xassert (negb (x =? NULL)) ;;
  '(a, _) ← deref l lists;
  slurm_mutex_lock a ;;
  assert_list_magic l ;;
  v ← _list_node_create a 0 x;
  slurm_mutex_unlock a ;;
  ret v.

Definition list_enqueue (l : List) (x : Node) : M Node :=
  xassert (is_ptr l) ;;
  xassert (negb (x =? NULL)) ;;
  '(a, _) ← deref l lists;
  slurm_mutex_lock a ;;
  assert_list_magic l ;;
  L ← get_list a;
  v ← _list_node_create a (size L) x;
  slurm_mutex_unlock a ;;
  ret v.

(** ** list_pop, list_dequeue, list_peek *)

Definition list_pop (l : List) : M Node :=
  a ← enter l;
  v ← _list_pop_locked a;
  slurm_mutex_unlock a ;;
  ret v.

Definition list_dequeue (l : List) : M Node :=
  a ← enter l;
  v ← _list_node_destroy a 0;
  slurm_mutex_unlock a ;;
  ret v.

Definition list_peek (l : List) : M Node :=
  a ← enter l;
  L ← get_list a;
  v ← (if size L >? 0 then arr_read a 0 else ret NULL);
  slurm_mutex_unlock a ;;
  ret v.

(** ** list_transfer_max, list_transfer *)

(** [while ((!max || n <= max) && (v = list_pop(sub))) { list_append(l, v); n++; }]
    The loop need not end when [l] and [sub] are one list, hence the fuel. *)
Fixpoint transfer_loop (fuel : nat) (l sub : List) (max n : Z) : M Z :=
  if negb ((max =? 0) || (n <=? max)) then ret n else
  match fuel with
  | O => crash OutOfFuel
  | S fuel' =>
      v ← list_pop sub;
      if v =? NULL then ret n else
      list_append l v ;;
      transfer_loop fuel' l sub max (to_int (n + 1))
  end.

Definition list_transfer_max (fuel : nat) (l sub : List) (max : Z) : M Z :=
  xassert (is_ptr l) ;;
  xassert (is_ptr sub) ;;
  assert_list_magic l ;;
  assert_list_magic sub ;;
  xassert_in ('(_, L) ← deref l lists; '(_, Ls) ← deref sub lists;
              ret (fDel L =? fDel Ls)) ;;
  transfer_loop fuel l sub max 0.

Definition list_transfer (fuel : nat) (l sub : List) : M Z :=
  list_transfer_max fuel l sub 0.

(** ** list_remove_first, list_delete_all, list_delete_ptr *)

(** Each turn of these loops either removes a slot or moves [i] on, so
    [size - i] turns are enough; [fuel] is set to that by the callers. *)
Fixpoint remove_first_loop (fuel : nat) (a : addr) (f : ListFindF) (key : Node) (i : Z)
  : M Node :=
  L ← get_list a;
  if negb (u32 i <? size L) then ret NULL else
  match fuel with
  | O => crash OutOfFuel
  | S fuel' =>
      e ← arr_read a i;
      if negb (f e key =? 0) then _list_node_destroy a (u32 i)
      else remove_first_loop fuel' a f key (to_int (i + 1))
  end.

Definition list_remove_first (l : List) (f : ListFindF) (key : Node) : M Node :=
  xassert (is_ptr l) ;;
  xassert (negb (key =? NULL)) ;;
  '(a, _) ← deref l lists;
  slurm_mutex_lock a ;;
  assert_list_magic l ;;
  L ← get_list a;
  v ← remove_first_loop (Z.to_nat (size L)) a f key 0;
  slurm_mutex_unlock a ;;
  ret v.

Fixpoint delete_all_loop (fuel : nat) (a : addr) (f : ListFindF) (key : Node) (i n : Z)
  : M Z :=
  L ← get_list a;
  if negb (u32 i <? size L) then ret n else
  match fuel with
  | O => crash OutOfFuel
  | S fuel' =>
      e ← arr_read a i;
      if negb (f e key =? 0) then
        v ← _list_node_destroy a (u32 i);
        if negb (v =? NULL) then
          (if negb (fDel L =? NULL) then call_fDel (fDel L) v else ret tt) ;;
          delete_all_loop fuel' a f key i (to_int (n + 1))
        else delete_all_loop fuel' a f key i n
      else delete_all_loop fuel' a f key (to_int (i + 1)) n
  end.

Definition list_delete_all (l : List) (f : ListFindF) (key : Node) : M Z :=
  a ← enter l;
  L ← get_list a;
  n ← delete_all_loop (Z.to_nat (size L)) a f key 0 0;
  slurm_mutex_unlock a ;;
  ret n.

Fixpoint delete_ptr_loop (fuel : nat) (a : addr) (key : Node) (i : Z) : M Z :=
  L ← get_list a;
  if negb (u32 i <? size L) then ret 0 else
  match fuel with
  | O => crash OutOfFuel
  | S fuel' =>
      e ← arr_read a i;
      if e =? key then
        v ← _list_node_destroy a (u32 i);
        if negb (v =? NULL) then
          (if negb (fDel L =? NULL) then call_fDel (fDel L) v else ret tt) ;;
          ret 1
        else delete_ptr_loop fuel' a key i
      else delete_ptr_loop fuel' a key (to_int (i + 1))
  end.

Definition list_delete_ptr (l : List) (key : Node) : M Z :=
  xassert (is_ptr l) ;;
  xassert (negb (key =? NULL)) ;;
  '(a, _) ← deref l lists;
  slurm_mutex_lock a ;;
  assert_list_magic l ;;
  L ← get_list a;
  n ← delete_ptr_loop (Z.to_nat (size L)) a key 0;
  slurm_mutex_unlock a ;;
  ret n.

(** ** list_flush, list_sort, list_flip *)

(** [i->pos = 0; i->prev = 0;] *)
Definition reset_iterator (it : listIterator) : listIterator :=
  set_prev 0 (set_pos 0 it).

(** [while (pp < arr + size) { l->fDel( *pp ); pp++; n++; }], [pp] running
    over the slots listed in [idx]. *)
Fixpoint flush_loop (a : addr) (f : ListDelF) (idx : list Z) (n : Z) : M Z :=
  match idx with
  | [] => ret n
  | k :: rest =>
      v ← arr_read a k;
      call_fDel f v ;;
      flush_loop a f rest (to_int (n + 1))
  end.

Definition list_flush (l : List) : M Z :=
  a ← enter l;
  L ← get_list a;
  n ← (if negb (fDel L =? NULL) then flush_loop a (fDel L) (seqZ 0 (size L)) 0
       else ret 0);
  mod_list a (set_size 0) ;;
  for_each_iterator reset_iterator (iNext L) ;;
  slurm_mutex_unlock a ;;
  ret n.

Definition list_sort (l : List) (f : ListCmpF) : M unit :=
  xassert (is_ptr l) ;;
  assert_list_magic l ;;
  '(a, _) ← deref l lists;
  slurm_mutex_lock a ;;
  L ← get_list a;
  if size L <=? 1 then slurm_mutex_unlock a else
  match arr L with
  | Some buf =>
      if size L <=? Z.of_nat (length buf)
      then put_list a (set_arr (Some (qsort f (take (Z.to_nat (size L)) buf)
                                        ++ drop (Z.to_nat (size L)) buf)) L)
      else crash MemFault
  | None => crash MemFault
  end ;;
  for_each_iterator reset_iterator (iNext L) ;;
  slurm_mutex_unlock a.

(** [temp = *pp; *pp = *pp_2; *pp_2 = temp;] for [index] in [idx]. *)
Fixpoint flip_loop (a : addr) (sz : Z) (idx : list Z) : M unit :=
  match idx with
  | [] => ret tt
  | index :: rest =>
      let j := u32 (sz - 1 - index) in
      temp ← arr_read a index;
      v ← arr_read a j;
      arr_write a index v ;;
      arr_write a j temp ;;
      flip_loop a sz rest
  end.

Definition list_flip (l : List) : M unit :=
  xassert (is_ptr l) ;;
  assert_list_magic l ;;
  '(a, _) ← deref l lists;
  slurm_mutex_lock a ;;
  L ← get_list a;
  if size L <=? 1 then slurm_mutex_unlock a else
  flip_loop a (size L) (seqZ 0 (size L / 2)) ;;
  for_each_iterator reset_iterator (iNext L) ;;
  slurm_mutex_unlock a.

(** ** Iterators *)

Definition list_iterator_alloc : M addr :=
  fun w => let i := fresh (dom (iters w)) in
           Ok i (set_iters (<[i := mk_listIterator 0 None 0 0]> (iters w)) w).

Definition list_iterator_free (i : addr) : M unit :=
  fun w => Ok tt (set_iters (delete i (iters w)) w).

Definition list_iterator_create (l : List) : M ListIterator :=
  xassert (is_ptr l) ;;
  i ← list_iterator_alloc;
  put_iter i (mk_listIterator LIST_ITR_MAGIC l 0 0) ;;
  '(a, _) ← deref l lists;
  slurm_mutex_lock a ;;
  assert_list_magic l ;;
  mod_list a (fun L => set_iNext (i :: iNext L) L) ;;
  slurm_mutex_unlock a ;;
  ret (Some i).

(** The entry sequence of a public function on an iterator:
    [xassert(i != NULL); xassert(i->magic == LIST_ITR_MAGIC);
     slurm_mutex_lock(&i->list->mutex);
     xassert(i->list->magic == LIST_MAGIC);] *)
Definition enter_itr (i : ListIterator) : M (addr * addr) :=
  xassert (is_ptr i) ;;
  assert_itr_magic i ;;
  '(ia, it) ← deref i iters;
  '(a, _) ← deref (i_list it) lists;
  slurm_mutex_lock a ;;
  assert_list_magic (i_list it) ;;
  ret (ia, a).

Definition list_iterator_reset (i : ListIterator) : M unit :=
  '(ia, a) ← enter_itr i;
  it ← get_iter ia;
  put_iter ia (reset_iterator it) ;;
  slurm_mutex_unlock a.

(** [for (pi = &i->list->iNext; *pi; pi = &( *pi)->iNext)] *)
Fixpoint unlink_loop (i : addr) (chain : list addr) : M (list addr) :=
  match chain with
  | [] => ret []
  | j :: rest =>
      assert_itr_magic (Some j) ;;
      if decide (j = i) then ret rest
      else rest' ← unlink_loop i rest; ret (j :: rest')
  end.

Definition list_iterator_destroy (i : ListIterator) : M unit :=
  '(ia, a) ← enter_itr i;
  L ← get_list a;
  chain ← unlink_loop ia (iNext L);
  mod_list a (set_iNext chain) ;;
  slurm_mutex_unlock a ;;
  list_iterator_free ia.

Definition _list_next_locked (i : addr) : M Node :=
  it ← get_iter i;
  (if negb (prev it =? pos it) then put_iter i (set_prev (u32 (prev it + 1)) it)
   else ret tt) ;;
  it ← get_iter i;
  '(a, L) ← deref (i_list it) lists;
  if pos it <? size L then
    put_iter i (set_pos (u32 (pos it + 1)) it) ;;
    (* [p = arr + pos] is [NULL] only when there is no array and [pos] is 0;
       [return (p ? *p : NULL)] then reads nothing *)
    if negb (is_ptr_buf (arr L)) && (pos it =? 0) then ret NULL
    else arr_read a (pos it)
  else ret NULL.

Definition list_next (i : ListIterator) : M Node :=
  '(ia, a) ← enter_itr i;
  rc ← _list_next_locked ia;
  slurm_mutex_unlock a ;;
  ret rc.

Definition list_insert (i : ListIterator) (x : Node) : M Node :=
  xassert (is_ptr i) ;;
  xassert (negb (x =? NULL)) ;;
  '(ia, a) ← enter_itr i;
  it ← get_iter ia;
  v ← _list_node_create a (prev it) x;
  slurm_mutex_unlock a ;;
  ret v.

Definition list_remove (i : ListIterator) : M Node :=
  '(ia, a) ← enter_itr i;
  it ← get_iter ia;
  v ← (if negb (prev it =? pos it) then _list_node_destroy a (prev it) else ret NULL);
  slurm_mutex_unlock a ;;
  ret v.

Definition list_delete_item (i : ListIterator) : M Z :=
  xassert (is_ptr i) ;;
  assert_itr_magic i ;;
  v ← list_remove i;
  if negb (v =? NULL) then
    '(_, it) ← deref i iters;
    '(_, L) ← deref (i_list it) lists;
    (if negb (fDel L =? NULL) then call_fDel (fDel L) v else ret tt) ;;
    ret 1
  else ret 0.

(** ** list_peek_last, list_peek_next *)

Definition list_peek_last (l : List) : M Node :=
  a ← enter l;
  L ← get_list a;
  v ← (if size L >? 0 then arr_read a (u32 (size L - 1)) else ret NULL);
  slurm_mutex_unlock a ;;
  ret v.

(** The source returns without [slurm_mutex_unlock]. *)
Definition list_peek_next (i : ListIterator) : M Node :=
  '(ia, a) ← enter_itr i;
  it ← get_iter ia;
  L ← get_list a;
  if pos it <? size L then arr_read a (pos it) else ret NULL.

(** ** list_find_first, list_find *)

(** [for (p = l->arr; p < l->arr + l->size; p++) if (f( *p, key)) { v = *p; break; }],
    [p] running over the slots listed in [idx]. *)
Fixpoint find_first_loop (a : addr) (f : ListFindF) (key : Node) (idx : list Z)
  : M Node :=
  match idx with
  | [] => ret NULL
  | k :: rest =>
      e ← arr_read a k;
      if negb (f e key =? 0) then ret e
      else find_first_loop a f key rest
  end.

Definition list_find_first (l : List) (f : ListFindF) (key : Node) : M Node :=
  xassert (is_ptr l) ;;
  xassert (negb (key =? NULL)) ;;
  '(a, _) ← deref l lists;
  slurm_mutex_lock a ;;
  assert_list_magic l ;;
  L ← get_list a;
  v ← find_first_loop a f key (seqZ 0 (size L));
  slurm_mutex_unlock a ;;
  ret v.

(** [while ((v = _list_next_locked(i)) && !f(v, key)) {;}]
    Every turn but the last moves [pos] on, so one turn more than the slots
    left is enough; [list_find] sets [fuel] to that. *)
Fixpoint find_loop (fuel : nat) (i : addr) (f : ListFindF) (key : Node) : M Node :=
  match fuel with
  | O => crash OutOfFuel
  | S fuel' =>
      v ← _list_next_locked i;
      if negb (v =? NULL) && (f v key =? 0) then find_loop fuel' i f key
      else ret v
  end.

Definition list_find (i : ListIterator) (f : ListFindF) (key : Node) : M Node :=
  xassert (is_ptr i) ;;
  xassert (negb (key =? NULL)) ;;
  '(ia, a) ← enter_itr i;
  it ← get_iter ia;
  L ← get_list a;
  v ← find_loop (S (Z.to_nat (size L - pos it))) ia f key;
  slurm_mutex_unlock a ;;
  ret v.

(** ** list_for_each_max, list_for_each, list_for_each_nobreak *)

(** The loop of [list_for_each_max], [pp] running over the slots listed in
    [idx]; it returns [n] and [failed]. *)
Fixpoint for_each_loop (a : addr) (max : Z) (f : ListForF) (arg : Node)
  (break_on_fail : bool) (idx : list Z) (n : Z) (failed : bool) : M (Z * bool) :=
  match idx with
  | [] => ret (n, failed)
  | k :: rest =>
      if negb ((max =? -1) || (n <? max)) then ret (n, failed) else
      e ← arr_read a k;
      let n' := to_int (n + 1) in
      if f e arg <? 0 then
        if break_on_fail then ret (n', true)
        else for_each_loop a max f arg break_on_fail rest n' true
      else for_each_loop a max f arg break_on_fail rest n' failed
  end.

(** [max] is passed by reference: the function returns its result and what
    it leaves in [*max]. *)
Definition list_for_each_max (l : List) (max : Z) (f : ListForF) (arg : Node)
  (break_on_fail : bool) : M (Z * Z) :=
  a ← enter l;
  L ← get_list a;
  '(n, failed) ← for_each_loop a max f arg break_on_fail (seqZ 0 (size L)) 0 false;
  let max' := to_int (u32 (size L - n)) in
  slurm_mutex_unlock a ;;
  ret (if failed : bool then to_int (- n) else n, max').

Definition list_for_each (l : List) (f : ListForF) (arg : Node) : M Z :=
  '(n, _) ← list_for_each_max l (-1) f arg true;
  ret n.

Definition list_for_each_nobreak (l : List) (f : ListForF) (arg : Node) : M Z :=
  '(n, _) ← list_for_each_max l (-1) f arg false;
  ret n.

(** ** list_append_list *)

(** [while ((v = list_next(itr))) { if (list_append(l, v)) n++; else break; }]
    The loop need not end when [l] and [sub] are one list, hence the fuel. *)
Fixpoint append_list_loop (fuel : nat) (l : List) (itr : ListIterator) (n : Z) : M Z :=
  match fuel with
  | O => crash OutOfFuel
  | S fuel' =>
      v ← list_next itr;
      if v =? NULL then ret n else
      r ← list_append l v;
      if negb (r =? NULL) then append_list_loop fuel' l itr (to_int (n + 1))
      else ret n
  end.

Definition list_append_list (fuel : nat) (l sub : List) : M Z :=
  xassert (is_ptr l) ;;
  xassert_in ('(_, L) ← deref l lists; ret (fDel L =? NULL)) ;;
  xassert (is_ptr sub) ;;
  itr ← list_iterator_create sub;
  n ← append_list_loop fuel l itr 0;
  list_iterator_destroy itr ;;
  ret n.

(** ** list_destroy *)

Definition lnot32 (x : Z) : Z := u32 (Z.lnot x).

Definition set_i_magic (v : Z) (it : listIterator) : listIterator :=
  mk_listIterator v (i_list it) (pos it) (prev it).

(** [while (i) { xassert(i->magic == LIST_ITR_MAGIC); i->magic = ~LIST_ITR_MAGIC;
             iTmp = i->iNext; list_iterator_free(i); i = iTmp; }] *)
Fixpoint free_chain (chain : list addr) : M unit :=
  match chain with
  | [] => ret tt
  | i :: rest =>
      assert_itr_magic (Some i) ;;
      it ← get_iter i;
      put_iter i (set_i_magic (lnot32 LIST_ITR_MAGIC) it) ;;
      list_iterator_free i ;;
      free_chain rest
  end.

(** [while (pp < arr + size) { if ( *pp && l->fDel) l->fDel( *pp ); pp++; }] *)
Fixpoint destroy_loop (a : addr) (f : ListDelF) (idx : list Z) : M unit :=
  match idx with
  | [] => ret tt
  | k :: rest =>
      v ← arr_read a k;
      (if negb (v =? NULL) && negb (f =? NULL) then call_fDel f v else ret tt) ;;
      destroy_loop a f rest
  end.

(** [list_free(l)] *)
Definition list_free (a : addr) : M unit :=
  fun w => Ok tt (set_lists (delete a (lists w)) w).

Definition list_destroy (l : List) : M unit :=
  a ← enter l;
  L ← get_list a;
  free_chain (iNext L) ;;
  destroy_loop a (fDel L) (seqZ 0 (size L)) ;;
  mod_list a (set_magic (lnot32 LIST_MAGIC)) ;;
  mod_list a (set_arr None) ;;
  slurm_mutex_unlock a ;;
  list_free a.

(** * The vocabulary of the specification *)

(** The slots of [l->arr]; none when it is [NULL]. *)
Definition slots (L : xlist) : list Node := default [] (arr L).

(** The resident elements, in index order. *)
Definition elements (L : xlist) : list Node := take (Z.to_nat (size L)) (slots L).

(** Every iterator on the chain is allocated and carries its tag. *)
Definition chain_ok (w : World) (chain : list addr) : Prop :=
  ∀ i, i ∈ chain → ∃ it, iters w !! i = Some it ∧ i_magic it = LIST_ITR_MAGIC.

(** The representation invariant of a live list [L] at address [a]:
    what [list_create] sets up and every successful operation keeps. *)
Record list_ok (w : World) (a : addr) (L : xlist) : Prop := mk_list_ok {
  ok_lookup : lists w !! a = Some L;
  ok_magic : magic L = LIST_MAGIC;
  ok_slots : Z.of_nat (length (slots L)) = capacity L;
  ok_size : 0 <= size L <= capacity L;
  ok_capacity : capacity L < 2 ^ 31;
  ok_chain : chain_ok w (iNext L)
}.

(** The effect of a chain walk on the iterator records. *)
Definition walk (f : listIterator -> listIterator) (chain : list addr)
  (m : gmap addr listIterator) : gmap addr listIterator :=
  foldl (fun m i => alter f i m) m chain.

(** The list record after the slot at [p] was taken out. *)
Definition destroyed (p : Z) (L : xlist) : xlist :=
  set_size (size L - 1)
    (set_arr (Some (memmove_buf (slots L) (Z.to_nat p) (Z.to_nat (p + 1))
                                (Z.to_nat (size L - (p + 1))))) L).

(** The world in which the record at [a] was replaced by [L']. *)
Definition with_list (a : addr) (L' : xlist) (w : World) : World :=
  set_lists (<[a := L']> (lists w)) w.

(** The world after the slot at [p] of the list at [a] was taken out. *)
Definition after_removal (a : addr) (L : xlist) (p : Z) (w : World) : World :=
  set_iters (walk (destroy_repair p) (iNext L) (iters w)) (with_list a (destroyed p L) w).

(** What the removal of slot [k] does to one iterator, as the specification
    words it. *)
Definition repaired (k : Z) (it it' : listIterator) : Prop :=
  (pos it = k + 1 → pos it' = k ∧ prev it' = k) ∧
  (pos it ≠ k + 1 → prev it = k + 1 → prev it' = k) ∧
  (pos it < k → prev it < k → it' = it).

(** Every iterator on the chain of [L] is [repaired] between [w] and [w']. *)
Definition repairs_at (L : xlist) (k : Z) (w w' : World) : Prop :=
  ∀ i it, i ∈ iNext L → iters w !! i = Some it →
          ∃ it', iters w' !! i = Some it' ∧ repaired k it it'.

(** [l->capacity += l->capacity > 1 ? l->capacity : 1] *)
Definition grow_capacity (c : Z) : Z := u32 (c + (if c >? 1 then c else 1)).

(** The allocator will serve the next request. *)
Definition realloc_succeeds (w : World) : Prop := head (realloc_tape w) ≠ Some false.

(** [_list_grow] will report success: either a slot is free, or the
    allocator serves the request and the doubled capacity still fits the
    [int] that reports it. *)
Definition can_grow (w : World) (L : xlist) : Prop :=
  size L < capacity L ∨ (realloc_succeeds w ∧ capacity L < 2 ^ 30).

(** The list record after a successful [_list_grow]. *)
Definition grown (L : xlist) : xlist :=
  if size L =? capacity L then
    set_size (size L + 1)
      (set_arr (Some (resize (Z.to_nat (grow_capacity (capacity L))) NULL (slots L)))
         (set_capacity (grow_capacity (capacity L)) L))
  else set_size (size L + 1) L.

(** The tape after [_list_grow]. *)
Definition grown_tape (L : xlist) (w : World) : list bool :=
  if size L =? capacity L then tail (realloc_tape w) else realloc_tape w.

(** What a successful [_list_grow] leaves of a well-formed record [L]. *)
Record grown_ok (L L' : xlist) : Prop := mk_grown_ok {
  grown_magic : magic L' = magic L;
  grown_mutex : mutex L' = mutex L;
  grown_iNext : iNext L' = iNext L;
  grown_fDel : fDel L' = fDel L;
  grown_size : size L' = size L + 1;
  grown_arr : arr L' = Some (slots L');
  grown_slots : Z.of_nat (length (slots L')) = capacity L';
  grown_capacity : size L + 1 <= capacity L' < 2 ^ 31;
  grown_elements : take (Z.to_nat (size L)) (slots L') = elements L
}.

(** The list record after [x] was put in at slot [p]. *)
Definition created (p : Z) (x : Node) (L : xlist) : xlist :=
  set_arr (Some (<[Z.to_nat p := x]>
                   (memmove_buf (slots (grown L)) (Z.to_nat (p + 1)) (Z.to_nat p)
                                (Z.to_nat (size L - p))))) (grown L).

(** The world after [x] was put in at slot [p] of the list at [a]. *)
Definition after_insertion (a : addr) (L : xlist) (p : Z) (x : Node) (w : World) : World :=
  set_iters (walk (create_repair p) (iNext L) (iters w))
    (set_tape (grown_tape L w) (with_list a (created p x L) w)).

(** [if (i->prev != i->pos) i->prev = i->prev + 1;] *)
Definition next_prev (it : listIterator) : listIterator :=
  if prev it =? pos it then it else set_prev (u32 (prev it + 1)) it.

(** The iterator record after [list_next]. *)
Definition next_state (L : xlist) (it : listIterator) : listIterator :=
  if pos it <? size L then set_pos (u32 (pos it + 1)) (next_prev it) else next_prev it.

(** What [list_next] returns. *)
Definition next_value (L : xlist) (it : listIterator) : Node :=
  if pos it <? size L then default NULL (slots L !! Z.to_nat (pos it)) else NULL.

(** [k] is the first index of [els] whose element satisfies [P]. *)
Definition first_index (P : Node → bool) (els : list Node) (k : Z) : Prop :=
  0 <= k ∧ (∃ e, els !! Z.to_nat k = Some e ∧ P e = true) ∧
  ∀ j e, 0 <= j < k → els !! Z.to_nat j = Some e → P e = false.

(** [if (l->fDel) l->fDel(v);] *)
Definition destructor_called (L : xlist) (v : Node) (w : World) : World :=
  if negb (fDel L =? NULL) then set_log (fDel_log w ++ [(fDel L, v)]) w else w.

(** The removals of [list_delete_all], seen from the elements and from the
    iterators of one chain.  As long as some element satisfies [P], the
    first such element, at index [k], is taken out, and every chained
    iterator is left as [destroy_repair k] makes it, which is [repaired] for
    that [k]; the sequence ends only when no element satisfies [P]. *)
Inductive removals (P : Node → bool) (chain : list addr) :
  list Node → gmap addr listIterator → list Node → gmap addr listIterator → Prop :=
| removals_done els m :
    (∀ e, e ∈ els → P e = false) → removals P chain els m els m
| removals_step els m k m1 els' m' :
    first_index P els k →
    (∀ i it, i ∈ chain → m !! i = Some it →
             m1 !! i = Some (destroy_repair k it) ∧
             repaired k it (destroy_repair k it)) →
    removals P chain (delete (Z.to_nat k) els) m1 els' m' →
    removals P chain els m els' m'.

(** The indices at which [list_delete_all] removes, each counted in the
    list as it is at that removal: an element that [P] accepts goes at the
    index [i] the scan stands at, one that it rejects moves the scan on. *)
Fixpoint removal_indices (P : Node → bool) (els : list Node) (i : Z) : list Z :=
  match els with
  | [] => []
  | e :: rest =>
      if P e then i :: removal_indices P rest i
      else removal_indices P rest (i + 1)
  end.

(** [last_yielded_index <= next_index], both within [0, size]. *)
Definition indices_ok (n : Z) (it : listIterator) : Prop :=
  0 <= prev it ∧ prev it <= pos it ∧ pos it <= n.

(** The allocator refuses the next request. *)
Definition realloc_fails (w : World) : Prop := head (realloc_tape w) = Some false.

(** The list record after a failed [_list_grow]. *)
Definition growth_failed (L : xlist) : xlist :=
  set_arr None (set_capacity (grow_capacity (capacity L)) L).

(** The record [list_shallow_copy] builds for a list [L] that is not empty. *)
Definition copy_of (L : xlist) : xlist :=
  mk_xlist LIST_MAGIC (Some (elements L)) [] NULL (size L) (size L) false.

(** * Runs of the code: observers, concrete lists, scenarios *)

(** What a run returned, if it returned. *)
Definition returned {A} (o : outcome A) : option A :=
  match o with Ok a _ => Some a | Crash _ => None end.

(** Observers of the model (not functions of list.c): the indices of an
    iterator and the size, capacity and array fields of a list. *)
Definition iterator_indices (i : ListIterator) : M (Z * Z) :=
  '(_, it) ← deref i iters; ret (pos it, prev it).
Definition size_field (l : List) : M Z :=
  '(_, L) ← deref l lists; ret (size L).
Definition capacity_field (l : List) : M Z :=
  '(_, L) ← deref l lists; ret (capacity L).
Definition arr_field (l : List) : M (option (list Node)) :=
  '(_, L) ← deref l lists; ret (arr L).

(** A stand-in for libc's [qsort] where a run needs one. *)
Fixpoint insert_sorted (f : ListCmpF) (x : Node) (l : list Node) : list Node :=
  match l with
  | [] => [x]
  | y :: r => if f x y <=? 0 then x :: l else y :: insert_sorted f x r
  end.
Definition insertion_sort (f : ListCmpF) (l : list Node) : list Node :=
  foldr (insert_sorted f) [] l.

(** [append(10); append(20); append(30)] on a new list with destructor [f]. *)
Definition three_elements (f : ListDelF) : M List :=
  l ← list_create f;
  list_append l 10 ;;
  list_append l 20 ;;
  list_append l 30 ;;
  ret l.

(** The list [[10]] at address 1 with one iterator, at address 1, whose
    indices are [p] (next) and [q] (last yielded). *)
Definition L_one (locked : bool) : xlist :=
  mk_xlist LIST_MAGIC (Some [10]) [1%positive] NULL 1 1 locked.
Definition w_one (locked : bool) (p q : Z) : World :=
  mk_World {[1%positive := L_one locked]}
           {[1%positive := mk_listIterator LIST_ITR_MAGIC (Some 1%positive) p q]}
           [] [].

(** The list [[10; 20]] at address 1 with the same iterator. *)
Definition L_two : xlist :=
  mk_xlist LIST_MAGIC (Some [10; 20]) [1%positive] NULL 2 2 false.
Definition w_two (p q : Z) : World :=
  mk_World {[1%positive := L_two]}
           {[1%positive := mk_listIterator LIST_ITR_MAGIC (Some 1%positive) p q]}
           [] [].

(** The list [[10; 20]] at address 1 with destructor 77 and one free slot;
    its iterator has yielded the element at index 0. *)
Definition L_del : xlist :=
  mk_xlist LIST_MAGIC (Some [10; 20; 0]) [1%positive] 77 2 3 false.
Definition w_del : World :=
  mk_World {[1%positive := L_del]}
           {[1%positive := mk_listIterator LIST_ITR_MAGIC (Some 1%positive) 1 0]}
           [] [].

(** Two lists: [[10; 20]] at address 1, as in [w_two 0 0], and
    [[30; 40; 50]] at address 2, without iterator. *)
Definition L_src : xlist :=
  mk_xlist LIST_MAGIC (Some [30; 40; 50]) [] NULL 3 3 false.
Definition w_pair : World :=
  mk_World (<[2%positive := L_src]> {[1%positive := L_two]})
           {[1%positive := mk_listIterator LIST_ITR_MAGIC (Some 1%positive) 0 0]}
           [] [].

(** The list [[5; 6; 5]] at address 1, in the array of four slots that
    three appends leave, with the same iterator. *)
Definition L_three : xlist :=
  mk_xlist LIST_MAGIC (Some [5; 6; 5; 0]) [1%positive] NULL 3 4 false.
Definition w_three (p q : Z) : World :=
  mk_World {[1%positive := L_three]}
           {[1%positive := mk_listIterator LIST_ITR_MAGIC (Some 1%positive) p q]}
           [] [].

(** [f(x, key)] of a [ListFindF] that looks for the element equal to the key. *)
Definition find_equal : ListFindF := fun x key => if x =? key then 1 else 0.

(** C3 as the specification states it, at one list, iterator and handle:
    once the handle is appended, the next advance yields it. *)
Definition un_exhausts (w : World) (l : List) (i : ListIterator)
  (x : Node) : Prop :=
  ∀ w1, list_append l x w = Ok x w1 →
        ∃ w2, list_next i w1 = Ok x w2.

(** [list_prepend] of the handles [hs], one after the other. *)
Fixpoint prepend_all (l : List) (hs : list Node) : M unit :=
  match hs with
  | [] => ret tt
  | h :: rest => list_prepend l h ;; prepend_all l rest
  end.

(** The closing clause of C9 as the specification states it, at one list,
    one iterator and the handles [hs] prepended after the iterator was
    created: the next advance of the iterator yields none of them. *)
Definition never_yields_prepended (w : World) (l : List) (i : ListIterator)
  (hs : list Node) : Prop :=
  ∀ w1 v w2, prepend_all l hs w = Ok tt w1 →
             list_next i w1 = Ok v w2 → v ∉ hs.

(** C7 as the specification states it, for one call [op] of [list_sort] or
    [list_flip] and one iterator: after the call both indices are 0. *)
Definition resets_iterator (op : M unit) (w : World) (i : addr) : Prop :=
  ∀ w1, op w = Ok tt w1 →
        ∃ it, iters w1 !! i = Some it ∧ pos it = 0 ∧ prev it = 0.

(** [transfer_max(dest, src, 2)] on [src = [10; 20; 30]] and an empty [dest];
    then what [dest] yields, and how many elements each list holds. *)
Definition transfer_scenario (fuel : nat)
  : M (Z * list Node * Z * Z) :=
  dest ← list_create NULL;
  src ← three_elements NULL;
  n ← list_transfer_max fuel dest src 2;
  i ← list_iterator_create dest;
  a ← list_next i;
  b ← list_next i;
  c ← list_next i;
  kd ← list_count dest;
  ks ← list_count src;
  ret (n, [a; b; c], kd, ks).

(** A list of 10, 20, 30 and an iterator advanced [k] times. *)
Definition advanced_iterator (k : nat) : M (List * ListIterator) :=
  l ← three_elements NULL;
  i ← list_iterator_create l;
  foldr (fun _ m => list_next i ;; m) (ret tt) (seq 0 k) ;;
  ret (l, i).

(** After three advances, pop the head: the indices of the iterator and
    the size of the list. *)
Definition pop_behind_iterator : M (Z * Z * Z) :=
  '(l, i) ← advanced_iterator 3;
  list_pop l ;;
  '(p, q) ← iterator_indices i;
  n ← size_field l;
  ret (p, q, n).

(** After four advances, pop twice and insert through the iterator. *)
Definition insert_past_end : M Node :=
  '(l, i) ← advanced_iterator 4;
  list_pop l ;;
  list_pop l ;;
  list_insert i 40.

(** A new list to which 10 is appended: the result of the append, and the
    size, the capacity and the array as they are afterwards. *)
Definition append_first : M (Node * Z * Z * option (list Node)) :=
  l ← list_create NULL;
  r ← list_append l 10;
  n ← size_field l;
  c ← capacity_field l;
  s ← arr_field l;
  ret (r, n, c, s).

(** The same list, now full, to which 20 is appended as well. *)
Definition append_to_full : M (Node * Z * Z * option (list Node)) :=
  l ← list_create NULL;
  list_append l 10 ;;
  r ← list_append l 20;
  n ← size_field l;
  c ← capacity_field l;
  s ← arr_field l;
  ret (r, n, c, s).

(** The head of the list after the two appends. *)
Definition peek_after_appends : M Node :=
  l ← list_create NULL;
  list_append l 10 ;;
  list_append l 20 ;;
  list_peek l.

(** The allocator serves the first request and refuses the second. *)
Definition second_realloc_fails : World := mk_World ∅ ∅ [true; false] [].

(** Count, flush, count again, on 10, 20, 30 with destructor [f]; with the
    log of destructor calls. *)
Definition flush_scenario (f : ListDelF)
  : M (Z * Z * Z * list (ListDelF * Node)) :=
  l ← three_elements f;
  before ← list_count l;
  n ← list_flush l;
  after ← list_count l;
  (fun w => Ok (before, n, after, fDel_log w) w).

(** [list_delete_all] with a predicate that holds of every element. *)
Definition delete_all_scenario (f : ListDelF) : M Z :=
  l ← three_elements f;
  list_delete_all l (fun _ _ => 1) 1.

(** Copy a new, empty list; then count the original. *)
Definition copy_empty : M (List * Z) :=
  l ← list_create NULL;
  m ← list_shallow_copy l;
  n ← list_count l;
  ret (m, n).

(** * Vocabulary and clients for the further properties *)

(** [n] calls of [list_next] in a row, and what they yielded. *)
Fixpoint next_n (n : nat) (i : ListIterator) : M (list Node) :=
  match n with
  | O => ret []
  | S n' => v ← list_next i; vs ← next_n n' i; ret (v :: vs)
  end.

(** The chain without the first link to [i]. *)
Fixpoint unlinked (i : addr) (chain : list addr) : list addr :=
  match chain with
  | [] => []
  | j :: rest => if decide (j = i) then rest else j :: unlinked i rest
  end.

(** The iterator stands at index [j]: it will yield the slot [j] next, and
    has last yielded the slot before it, or nothing yet. *)
Definition stands_at (j : Z) (it : listIterator) : Prop :=
  pos it = j ∧ (prev it = j ∨ prev it + 1 = j).

(** The first element of [els] that [f] accepts for [key]; [NULL] if none. *)
Fixpoint first_match (f : ListFindF) (key : Node) (els : list Node) : Node :=
  match els with
  | [] => NULL
  | e :: rest => if negb (f e key =? 0) then e else first_match f key rest
  end.

(** The loop of [list_for_each_max] run on the elements themselves. *)
Fixpoint for_each_elements (max : Z) (f : ListForF) (arg : Node)
  (break_on_fail : bool) (els : list Node) (n : Z) (failed : bool) : Z * bool :=
  match els with
  | [] => (n, failed)
  | e :: rest =>
      if negb ((max =? -1) || (n <? max)) then (n, failed) else
      if f e arg <? 0 then
        if break_on_fail then (to_int (n + 1), true)
        else for_each_elements max f arg break_on_fail rest (to_int (n + 1)) true
      else for_each_elements max f arg break_on_fail rest (to_int (n + 1)) failed
  end.

(** The iterator records after [list_iterator_free] of every iterator of
    a chain. *)
Definition freed (chain : list addr) (m : gmap addr listIterator)
  : gmap addr listIterator :=
  foldl (fun m i => delete i m) m chain.

(** The destructor calls of [list_destroy]: one for each element that is
    not [NULL], when there is a destructor. *)
Definition destroy_calls (f : ListDelF) (els : list Node) : list (ListDelF * Node) :=
  if f =? NULL then [] else (λ v, (f, v)) <$> filter (λ v, v ≠ NULL) els.

(** The array after the swaps of [list_flip] at the indices [idx]. *)
Fixpoint flip_buf (sz : Z) (idx : list Z) (buf : list Node) : list Node :=
  match idx with
  | [] => buf
  | k :: rest =>
      let j := Z.to_nat (sz - 1 - k) in
      let vk := default NULL (buf !! Z.to_nat k) in
      let vj := default NULL (buf !! j) in
      flip_buf sz rest (<[j := vk]> (<[Z.to_nat k := vj]> buf))
  end.

(** * Properties *)

(** ** Symbolic execution of the monad *)

Ltac msimpl :=
  cbv beta iota delta [bind ret crash];
  cbn [lists iters realloc_tape fDel_log set_lists set_iters set_tape set_log
       magic arr iNext fDel size capacity mutex
       set_magic set_arr set_iNext set_size set_capacity set_mutex
       i_magic i_list pos prev set_pos set_prev
       fst snd is_ptr is_ptr_buf negb orb andb].

Lemma set_lists_id w : set_lists (lists w) w = w.
Proof. by destruct w. Qed.

Lemma set_iters_id w : set_iters (iters w) w = w.
Proof. by destruct w. Qed.

Lemma set_arr_id L : set_arr (arr L) L = L.
Proof. by destruct L. Qed.

Lemma xassert_true w : xassert true w = Ok tt w.
Proof. unfold xassert, xassert_in. by destruct NDEBUG. Qed.

Lemma xassert_run c w : c = true → xassert c w = Ok tt w.
Proof. intros ->. apply xassert_true. Qed.

Lemma get_list_run a L w : lists w !! a = Some L → get_list a w = Ok L w.
Proof. intros H. unfold get_list. by rewrite H. Qed.

Lemma get_iter_run i it w : iters w !! i = Some it → get_iter i w = Ok it w.
Proof. intros H. unfold get_iter. by rewrite H. Qed.

Lemma deref_list_run a L w :
  lists w !! a = Some L → deref (Some a) lists w = Ok (a, L) w.
Proof. intros H. unfold deref. by rewrite H. Qed.

Lemma deref_iter_run i it w :
  iters w !! i = Some it → deref (Some i) iters w = Ok (i, it) w.
Proof. intros H. unfold deref. by rewrite H. Qed.

Lemma assert_list_magic_run a L w :
  lists w !! a = Some L → magic L = LIST_MAGIC →
  assert_list_magic (Some a) w = Ok tt w.
Proof.
  intros H Hm. unfold assert_list_magic, xassert_in.
  destruct NDEBUG; [done|]. msimpl.
  rewrite (deref_list_run a L) by done. msimpl. by rewrite Hm.
Qed.

Lemma assert_itr_magic_run i it w :
  iters w !! i = Some it → i_magic it = LIST_ITR_MAGIC →
  assert_itr_magic (Some i) w = Ok tt w.
Proof.
  intros H Hm. unfold assert_itr_magic, xassert_in.
  destruct NDEBUG; [done|]. msimpl.
  rewrite (deref_iter_run i it) by done. msimpl. by rewrite Hm.
Qed.

Lemma assert_locked_run a L w :
  lists w !! a = Some L → magic L = LIST_MAGIC → mutex L = true →
  assert_locked a w = Ok tt w.
Proof.
  intros H Hm Hl. unfold assert_locked. msimpl.
  rewrite (assert_list_magic_run a L) by done.
  unfold xassert_in. destruct NDEBUG; [done|]. msimpl.
  rewrite (get_list_run a L) by done. msimpl. by rewrite Hl.
Qed.

Lemma arr_read_run a L buf k v w :
  lists w !! a = Some L → arr L = Some buf → 0 <= k →
  buf !! Z.to_nat k = Some v →
  arr_read a k w = Ok v w.
Proof.
  intros H Ha Hk Hv. unfold arr_read. msimpl.
  rewrite (get_list_run a L) by done. rewrite Ha.
  destruct (Z.ltb_spec k 0); [lia|]. by rewrite Hv.
Qed.

Lemma arr_write_run a L buf k x w :
  lists w !! a = Some L → arr L = Some buf →
  0 <= k < Z.of_nat (length buf) →
  arr_write a k x w =
    Ok tt (set_lists (<[a := set_arr (Some (<[Z.to_nat k := x]> buf)) L]> (lists w)) w).
Proof.
  intros H Ha Hk. unfold arr_write. msimpl.
  rewrite (get_list_run a L) by done. rewrite Ha.
  destruct (Z.leb_spec 0 k); [|lia].
  destruct (Z.ltb_spec k (Z.of_nat (length buf))); [|lia]. done.
Qed.

Lemma memmove_buf_0 buf dst src : memmove_buf buf dst src 0 = buf.
Proof. unfold memmove_buf. rewrite take_0, Nat.add_0_r. apply take_drop. Qed.

Lemma memmove_run a L buf dst src n w :
  lists w !! a = Some L → arr L = Some buf →
  0 <= n → 0 <= dst → 0 <= src →
  src + n <= Z.of_nat (length buf) → dst + n <= Z.of_nat (length buf) →
  memmove a dst src n w =
    Ok tt (set_lists
             (<[a := set_arr (Some (memmove_buf buf (Z.to_nat dst) (Z.to_nat src)
                                                 (Z.to_nat n))) L]> (lists w)) w).
Proof.
  intros H Ha Hn Hd Hs Hb1 Hb2. unfold memmove.
  destruct (Z.eqb_spec n 0) as [->|Hn0].
  - msimpl. change (Z.to_nat 0) with 0%nat. rewrite memmove_buf_0, <- Ha, set_arr_id.
    by rewrite insert_id, set_lists_id.
  - destruct (Z.ltb_spec n 0); [lia|]. destruct (Z.ltb_spec dst 0); [lia|].
    destruct (Z.ltb_spec src 0); [lia|]. msimpl.
    rewrite (get_list_run a L) by done. rewrite Ha.
    destruct (Z.leb_spec (src + n) (Z.of_nat (length buf))); [|lia].
    destruct (Z.leb_spec (dst + n) (Z.of_nat (length buf))); [|lia]. done.
Qed.

(** *** The chain walk *)

Lemma chain_ok_alter w f i chain :
  (∀ it, i_magic (f it) = i_magic it) →
  chain_ok w chain →
  chain_ok (set_iters (alter f i (iters w)) w) chain.
Proof.
  intros Hf Hc j Hj. destruct (Hc j Hj) as (it & Hit & Hm). msimpl.
  destruct (decide (i = j)) as [->|Hne].
  - exists (f it). rewrite lookup_alter_eq, Hit. by rewrite Hf.
  - exists it. by rewrite lookup_alter_ne.
Qed.

Lemma insert_as_alter {A} (f : A → A) (m : gmap addr A) i x :
  m !! i = Some x → <[i := f x]> m = alter f i m.
Proof.
  intros H. apply map_eq. intros j. destruct (decide (i = j)) as [->|Hne].
  - by rewrite lookup_insert_eq, lookup_alter_eq, H.
  - by rewrite lookup_insert_ne, lookup_alter_ne.
Qed.

Lemma for_each_iterator_run f chain w :
  (∀ it, i_magic (f it) = i_magic it) →
  chain_ok w chain →
  for_each_iterator f chain w = Ok tt (set_iters (walk f chain (iters w)) w).
Proof.
  intros Hf. revert w. induction chain as [|i rest IH]; intros w Hc.
  - cbn. by rewrite set_iters_id.
  - destruct (Hc i) as (it & Hit & Hm); [apply list_elem_of_here|].
    cbn [for_each_iterator]. msimpl.
    rewrite (assert_itr_magic_run i it) by done.
    rewrite (get_iter_run i it) by done. unfold put_iter.
    rewrite (insert_as_alter f _ _ _ Hit).
    rewrite IH; [done|].
    apply chain_ok_alter; [done|].
    intros j Hj. apply Hc. by apply list_elem_of_further.
Qed.

Lemma walk_lookup_notin f chain m j :
  j ∉ chain → walk f chain m !! j = m !! j.
Proof.
  revert m. induction chain as [|i rest IH]; intros m Hj; [done|].
  unfold walk. cbn [foldl]. fold (walk f rest (alter f i m)).
  rewrite IH by (intros ?; apply Hj; by apply list_elem_of_further).
  apply lookup_alter_ne. intros ->. apply Hj. apply list_elem_of_here.
Qed.

(** A repair that is idempotent acts once on each chained iterator, however
    often the chain names it. *)
Lemma walk_lookup_in f chain m j :
  (∀ it, f (f it) = f it) →
  j ∈ chain → walk f chain m !! j = f <$> m !! j.
Proof.
  intros Hf. revert m. induction chain as [|i rest IH]; intros m Hj.
  - by apply elem_of_nil in Hj.
  - unfold walk. cbn [foldl]. fold (walk f rest (alter f i m)).
    destruct (decide (j ∈ rest)) as [Hin|Hnin].
    + rewrite IH by done. destruct (decide (i = j)) as [->|Hne].
      * rewrite lookup_alter_eq. destruct (m !! j); cbn; [by rewrite Hf|done].
      * by rewrite lookup_alter_ne.
    + rewrite walk_lookup_notin by done.
      apply elem_of_cons in Hj as [->|Hj]; [|done]. apply lookup_alter_eq.
Qed.

(** *** _list_node_destroy *)

Lemma u32_small x : 0 <= x < 2 ^ 32 → u32 x = x.
Proof. intros H. unfold u32. by apply Z.mod_small. Qed.

Lemma to_int_small x : 0 <= x < 2 ^ 31 → to_int x = x.
Proof.
  intros H. unfold to_int. rewrite Z.mod_small by lia.
  destruct (Z.ltb_spec x (2 ^ 31)); lia.
Qed.

Lemma size_decrement s : 0 < s < 2 ^ 31 → u32 (MAX 0 (to_int s - 1)) = s - 1.
Proof.
  intros H. rewrite to_int_small by lia. unfold MAX.
  destruct (Z.gtb_spec 0 (s - 1)); [lia|]. apply u32_small. lia.
Qed.

Lemma chain_ok_iters w w' chain :
  iters w' = iters w → chain_ok w chain → chain_ok w' chain.
Proof. intros E Hc i Hi. rewrite E. by apply Hc. Qed.

Lemma destroy_repair_magic p it : i_magic (destroy_repair p it) = i_magic it.
Proof. unfold destroy_repair. by repeat case_match. Qed.

Lemma create_repair_magic p it : i_magic (create_repair p it) = i_magic it.
Proof. unfold create_repair. by repeat case_match. Qed.

Lemma reset_iterator_magic it : i_magic (reset_iterator it) = i_magic it.
Proof. done. Qed.

Lemma slots_arr L k v : slots L !! k = Some v → arr L = Some (slots L).
Proof. unfold slots. by destruct (arr L). Qed.

Lemma _list_node_destroy_run w a L p :
  list_ok w a L → mutex L = true → 0 <= p < size L →
  ∃ v, slots L !! Z.to_nat p = Some v ∧
       _list_node_destroy a p w =
         Ok v (set_iters (walk (destroy_repair p) (iNext L) (iters w))
                 (set_lists (<[a := destroyed p L]> (lists w)) w)).
Proof.
  intros [Hl Hm Hs Hsz Hc Hch] Hlock Hp.
  destruct (lookup_lt_is_Some_2 (slots L) (Z.to_nat p)) as [v Hv]; [lia|].
  exists v. split; [done|].
  pose proof (slots_arr _ _ _ Hv) as Harr.
  unfold _list_node_destroy. msimpl.
  rewrite (assert_locked_run a L) by done.
  rewrite (get_list_run a L) by done.
  rewrite xassert_run by lia.
  destruct (Z.ltb_spec p 0); [lia|]. destruct (Z.geb_spec p (size L)); [lia|]. msimpl.
  rewrite (arr_read_run a L (slots L) p v) by (done || lia).
  rewrite (memmove_run a L (slots L)) by (done || lia).
  unfold mod_list, put_list. msimpl.
  erewrite get_list_run by apply lookup_insert_eq. msimpl.
  rewrite insert_insert_eq, size_decrement by lia.
  rewrite for_each_iterator_run; [done|apply destroy_repair_magic|].
  by eapply chain_ok_iters.
Qed.

(** *** Entering and leaving a public function *)

Lemma list_ok_lists w w' a L :
  lists w' !! a = Some L → iters w' = iters w →
  list_ok w a L → list_ok w' a L.
Proof.
  intros Hl Hi [_ Hm Hs Hsz Hc Hch].
  split; try done. by eapply chain_ok_iters.
Qed.

Lemma list_ok_lock w a L :
  list_ok w a L → list_ok (with_list a (set_mutex true L) w) a (set_mutex true L).
Proof.
  intros [Hl Hm Hs Hsz Hc Hch]. split; try done.
  cbn. apply lookup_insert_eq.
Qed.

Lemma slurm_mutex_lock_run w a L :
  lists w !! a = Some L → mutex L = false →
  slurm_mutex_lock a w = Ok tt (with_list a (set_mutex true L) w).
Proof.
  intros Hl Hu. unfold slurm_mutex_lock. msimpl.
  rewrite (get_list_run a L) by done. by rewrite Hu.
Qed.

Lemma slurm_mutex_unlock_run w a L :
  lists w !! a = Some L →
  slurm_mutex_unlock a w = Ok tt (with_list a (set_mutex false L) w).
Proof.
  intros Hl. unfold slurm_mutex_unlock, mod_list. msimpl.
  by rewrite (get_list_run a L).
Qed.

Lemma enter_run w a L :
  lists w !! a = Some L → magic L = LIST_MAGIC → mutex L = false →
  enter (Some a) w = Ok a (with_list a (set_mutex true L) w).
Proof.
  intros Hl Hm Hu. unfold enter. msimpl.
  rewrite xassert_true, (deref_list_run a L) by done. msimpl.
  rewrite (slurm_mutex_lock_run w a L) by done.
  rewrite (assert_list_magic_run a (set_mutex true L)); [done| |done].
  cbn. apply lookup_insert_eq.
Qed.

Lemma enter_itr_run w i it a L :
  iters w !! i = Some it → i_magic it = LIST_ITR_MAGIC → i_list it = Some a →
  lists w !! a = Some L → magic L = LIST_MAGIC → mutex L = false →
  enter_itr (Some i) w = Ok (i, a) (with_list a (set_mutex true L) w).
Proof.
  intros Hi Him Hil Hl Hm Hu. unfold enter_itr. msimpl.
  rewrite xassert_true, (assert_itr_magic_run i it) by done.
  rewrite (deref_iter_run i it) by done. msimpl.
  rewrite Hil, (deref_list_run a L) by done. msimpl.
  rewrite (slurm_mutex_lock_run w a L) by done.
  rewrite (assert_list_magic_run a (set_mutex true L)); [done| |done].
  cbn. apply lookup_insert_eq.
Qed.

Lemma with_list_twice a L1 L2 w :
  with_list a L2 (with_list a L1 w) = with_list a L2 w.
Proof. unfold with_list. cbn. by rewrite insert_insert_eq. Qed.

Lemma unlock_destroyed p L :
  mutex L = false → set_mutex false (destroyed p (set_mutex true L)) = destroyed p L.
Proof. destruct L. cbn. by intros ->. Qed.

(** *** list_dequeue, list_pop, list_remove *)

Lemma list_dequeue_run w a L :
  list_ok w a L → mutex L = false → 0 < size L →
  ∃ v, slots L !! 0%nat = Some v ∧
       list_dequeue (Some a) w = Ok v (after_removal a L 0 w).
Proof.
  intros Hok Hu Hsz. pose proof Hok as [Hl Hm _ _ _ _].
  destruct (_list_node_destroy_run (with_list a (set_mutex true L) w) a
              (set_mutex true L) 0) as (v & Hv & Hrun);
    [by apply list_ok_lock|done|cbn; lia|].
  exists v. split; [done|].
  unfold list_dequeue. msimpl. rewrite (enter_run w a L) by done.
  rewrite Hrun.
  rewrite (slurm_mutex_unlock_run _ a (destroyed 0 (set_mutex true L)))
    by (cbn; apply lookup_insert_eq).
  unfold after_removal, with_list. cbn.
  by rewrite !insert_insert_eq, unlock_destroyed.
Qed.

Lemma list_pop_run w a L :
  list_ok w a L → mutex L = false → 0 < size L →
  ∃ v, slots L !! 0%nat = Some v ∧
       list_pop (Some a) w = Ok v (after_removal a L 0 w).
Proof. apply list_dequeue_run. Qed.

Lemma list_remove_run w i it a L :
  list_ok w a L → mutex L = false →
  iters w !! i = Some it → i_magic it = LIST_ITR_MAGIC → i_list it = Some a →
  prev it ≠ pos it → 0 <= prev it < size L →
  ∃ v, slots L !! Z.to_nat (prev it) = Some v ∧
       list_remove (Some i) w = Ok v (after_removal a L (prev it) w).
Proof.
  intros Hok Hu Hi Him Hil Hne Hp. pose proof Hok as [Hl Hm _ _ _ _].
  destruct (_list_node_destroy_run (with_list a (set_mutex true L) w) a
              (set_mutex true L) (prev it)) as (v & Hv & Hrun);
    [by apply list_ok_lock|done|cbn; lia|].
  exists v. split; [done|].
  unfold list_remove. msimpl. rewrite (enter_itr_run w i it a L) by done. msimpl.
  rewrite (get_iter_run i it) by done.
  destruct (Z.eqb_spec (prev it) (pos it)); [done|]. msimpl.
  rewrite Hrun.
  rewrite (slurm_mutex_unlock_run _ a (destroyed (prev it) (set_mutex true L)))
    by (cbn; apply lookup_insert_eq).
  unfold after_removal, with_list. cbn.
  by rewrite !insert_insert_eq, unlock_destroyed.
Qed.

(** ** Removal and the iterators (C1) *)

Lemma u32_succ_ne p : u32 (p + 1) ≠ p.
Proof.
  unfold u32. intros E.
  pose proof (Z.mod_pos_bound (p + 1) (2 ^ 32) ltac:(lia)) as Hb.
  destruct (Z_lt_ge_dec (p + 1) (2 ^ 32)) as [Hlt|Hge].
  - rewrite Z.mod_small in E by lia. lia.
  - assert (p + 1 = 2 ^ 32) as E' by lia. rewrite E', Z.mod_same in E by lia. lia.
Qed.

Lemma destroy_repair_idemp p it :
  destroy_repair p (destroy_repair p it) = destroy_repair p it.
Proof.
  pose proof (u32_succ_ne p) as Hne. unfold destroy_repair.
  destruct (Z.eqb_spec (pos it) (u32 (p + 1))) as [E1|N1]; cbn.
  - destruct (Z.eqb_spec p (u32 (p + 1))); [congruence|done].
  - destruct (Z.eqb_spec (prev it) (u32 (p + 1))) as [E2|N2]; cbn.
    + destruct (Z.eqb_spec (pos it) (u32 (p + 1))); [done|].
      destruct (Z.eqb_spec p (u32 (p + 1))); [congruence|done].
    + destruct (Z.eqb_spec (pos it) (u32 (p + 1))); [done|].
      destruct (Z.eqb_spec (prev it) (u32 (p + 1))); done.
Qed.

Lemma destroy_repair_repaired k it :
  0 <= k < 2 ^ 31 → repaired k it (destroy_repair k it).
Proof.
  intros Hk. unfold repaired, destroy_repair. rewrite u32_small by lia.
  destruct (Z.eqb_spec (pos it) (k + 1)) as [E1|N1]; cbn.
  - repeat split; try done. intros. lia.
  - destruct (Z.eqb_spec (prev it) (k + 1)) as [E2|N2]; cbn.
    + repeat split; try done. intros. lia.
    + repeat split; try done.
Qed.

Lemma after_removal_repairs a L k w :
  0 <= k < 2 ^ 31 → repairs_at L k w (after_removal a L k w).
Proof.
  intros Hk i it Hi Hit. exists (destroy_repair k it). split.
  - cbn. rewrite walk_lookup_in by (done || apply destroy_repair_idemp).
    by rewrite Hit.
  - by apply destroy_repair_repaired.
Qed.

(** ** list_count (C10) *)

Lemma with_list_id a L w : lists w !! a = Some L → with_list a L w = w.
Proof. intros H. unfold with_list. by rewrite insert_id, set_lists_id. Qed.

Lemma unlock_lock L : mutex L = false → set_mutex false (set_mutex true L) = L.
Proof. destruct L. cbn. by intros ->. Qed.

Lemma length_elements L :
  0 <= size L <= Z.of_nat (length (slots L)) →
  Z.of_nat (length (elements L)) = size L.
Proof. intros H. unfold elements. rewrite length_take. lia. Qed.

(** C10.  [list_count] of a null list is 0, with no assertion raised and
    nothing touched; of a well-formed list it is the number of resident
    elements, and the list is left as it was. *)
Theorem C10_list_count :
  (∀ w, list_count None w = Ok 0 w) ∧
  (∀ w a L, list_ok w a L → mutex L = false →
            list_count (Some a) w = Ok (Z.of_nat (length (elements L))) w ∧
            Z.of_nat (length (elements L)) = size L).
Proof.
  split; [done|].
  intros w a L [Hl Hm Hs Hsz Hc _] Hu.
  rewrite length_elements by lia. split; [|done].
  unfold list_count. msimpl.
  rewrite (slurm_mutex_lock_run w a L) by done.
  rewrite (assert_list_magic_run a (set_mutex true L))
    by (done || cbn; apply lookup_insert_eq).
  erewrite get_list_run by (cbn; apply lookup_insert_eq). msimpl.
  erewrite slurm_mutex_unlock_run by (cbn; apply lookup_insert_eq).
  rewrite with_list_twice, unlock_lock, with_list_id by done.
  by rewrite to_int_small by lia.
Qed.

(** ** Insertion *)

Lemma grow_capacity_small c :
  0 <= c < 2 ^ 30 → grow_capacity c = (if c >? 1 then 2 * c else c + 1) ∧
                     c < grow_capacity c < 2 ^ 31.
Proof.
  intros H. unfold grow_capacity.
  destruct (Z.gtb_spec c 1); rewrite u32_small by lia; lia.
Qed.

Lemma list_realloc_run p n w :
  0 < n → realloc_succeeds w →
  list_realloc p n w =
    Ok (Some (resize (Z.to_nat n) NULL (default [] p))) (set_tape (tail (realloc_tape w)) w).
Proof.
  intros Hn Hs. unfold list_realloc, realloc_succeeds in *.
  destruct (Z.leb_spec n 0); [lia|].
  destruct w as [ls its tape lg]. cbn in *.
  destruct tape as [|[|] t]; cbn in *; done.
Qed.

Lemma _list_grow_run w a L :
  list_ok w a L → mutex L = true → can_grow w L →
  _list_grow a w = Ok (capacity (grown L)) (set_tape (grown_tape L w) (with_list a (grown L) w)).
Proof.
  intros [Hl Hm Hs Hsz Hc Hch] Hlock Hg.
  unfold _list_grow. msimpl.
  rewrite (assert_locked_run a L) by done.
  rewrite (get_list_run a L) by done.
  unfold grown, grown_tape.
  destruct (Z.eqb_spec (size L) (capacity L)) as [E|N].
  - destruct Hg as [?|[Hr Hcap]]; [lia|].
    destruct (grow_capacity_small (capacity L)) as [_ Hgc]; [lia|].
    fold (grow_capacity (capacity L)). unfold put_list, mod_list. msimpl.
    rewrite list_realloc_run by (done || lia). msimpl.
    erewrite get_list_run by apply lookup_insert_eq. unfold put_list. msimpl.
    erewrite get_list_run by apply lookup_insert_eq. msimpl.
    erewrite get_list_run by apply lookup_insert_eq. msimpl.
    rewrite !insert_insert_eq, to_int_small, u32_small by lia.
    unfold slots, with_list. by rewrite (Z.add_comm 1).
  - clear Hg. msimpl. unfold mod_list, put_list. msimpl.
    rewrite (get_list_run a L) by done. msimpl.
    erewrite get_list_run by apply lookup_insert_eq. msimpl.
    rewrite to_int_small, u32_small by lia.
    unfold with_list. destruct w. cbn. by rewrite (Z.add_comm 1).
Qed.

Lemma not_NULL x : x ≠ NULL → negb (x =? NULL) = true.
Proof. intros H. by destruct (Z.eqb_spec x NULL). Qed.

Lemma memmove_buf_length buf dst src n :
  (src + n <= length buf)%nat → (dst + n <= length buf)%nat →
  length (memmove_buf buf dst src n) = length buf.
Proof.
  intros H1 H2. unfold memmove_buf.
  rewrite !length_app, !length_take, !length_drop. lia.
Qed.

Lemma grown_grown_ok w a L : list_ok w a L → can_grow w L → grown_ok L (grown L).
Proof.
  intros [Hl Hm Hs Hsz Hc Hch] Hg. unfold grown.
  destruct (Z.eqb_spec (size L) (capacity L)) as [E|N].
  - destruct Hg as [?|[_ Hcap]]; [lia|].
    destruct (grow_capacity_small (capacity L)) as [_ Hgc]; [lia|].
    split; cbn; try done; try lia.
    + unfold slots at 1. cbn. rewrite length_resize. lia.
    + unfold elements, slots in *. cbn.
      rewrite take_resize, Nat.min_l by lia.
      rewrite resize_le by lia. done.
  - split; cbn; try done; try lia.
    unfold slots in *. destruct (arr L) as [buf|]; [done|]. cbn in Hs. lia.
Qed.

Lemma _list_node_create_run w a L p x :
  list_ok w a L → mutex L = true → can_grow w L →
  0 <= p <= size L → x ≠ NULL →
  _list_node_create a p x w = Ok x (after_insertion a L p x w).
Proof.
  intros Hok Hlock Hg Hp Hx.
  pose proof (grown_grown_ok w a L Hok Hg) as [Gm Gmu Gi Gf Gsz Ga Gs Gc Ge].
  pose proof Hok as [Hl Hm Hs Hsz Hc Hch].
  unfold _list_node_create. msimpl.
  rewrite (assert_locked_run a L) by done.
  rewrite (get_list_run a L) by done.
  rewrite xassert_run by lia.
  rewrite xassert_run by by apply not_NULL.
  destruct (Z.ltb_spec p 0); [lia|]. destruct (Z.gtb_spec p (size L)); [lia|]. msimpl.
  rewrite (_list_grow_run w a L) by done.
  destruct (Z.ltb_spec (capacity (grown L)) 0); [lia|].
  erewrite get_list_run by (cbn; apply lookup_insert_eq).
  rewrite Gsz. replace (size L + 1 - 1 - p) with (size L - p) by lia.
  rewrite (memmove_run a (grown L) (slots (grown L)))
    by (done || lia || cbn; apply lookup_insert_eq).
  erewrite arr_write_run;
    [|cbn; apply lookup_insert_eq|cbn; reflexivity|rewrite memmove_buf_length; lia].
  rewrite for_each_iterator_run;
    [|apply create_repair_magic|rewrite Gi; by eapply chain_ok_iters].
  unfold after_insertion, created, with_list. cbn.
  by rewrite !insert_insert_eq, Gi.
Qed.

Lemma unlock_created p x L :
  mutex L = false → set_mutex false (created p x (set_mutex true L)) = created p x L.
Proof.
  destruct L. cbn. intros ->. unfold created, grown, slots. cbn.
  by destruct (_ =? _).
Qed.

(** The body shared by the public insertions, run under the lock. *)
Lemma insertion_under_lock w a L p x :
  list_ok w a L → mutex L = false → can_grow w L →
  0 <= p <= size L → x ≠ NULL →
  (v ← _list_node_create a p x; slurm_mutex_unlock a;; ret v)
    (with_list a (set_mutex true L) w) = Ok x (after_insertion a L p x w).
Proof.
  intros Hok Hu Hg Hp Hx. msimpl.
  rewrite (_list_node_create_run _ a (set_mutex true L)); try done.
  - erewrite slurm_mutex_unlock_run by (cbn; apply lookup_insert_eq).
    unfold after_insertion, with_list, grown_tape. cbn.
    by rewrite !insert_insert_eq, unlock_created.
  - by apply list_ok_lock.
Qed.

Lemma list_prepend_run w a L x :
  list_ok w a L → mutex L = false → can_grow w L → x ≠ NULL →
  list_prepend (Some a) x w = Ok x (after_insertion a L 0 x w).
Proof.
  intros Hok Hu Hg Hx. pose proof Hok as [Hl Hm _ Hsz _ _].
  unfold list_prepend. msimpl.
  rewrite xassert_true, xassert_run by by apply not_NULL.
  rewrite (deref_list_run a L) by done. msimpl.
  rewrite (slurm_mutex_lock_run w a L) by done.
  rewrite (assert_list_magic_run a (set_mutex true L))
    by (done || cbn; apply lookup_insert_eq).
  apply insertion_under_lock; (done || lia).
Qed.

Lemma list_push_run w a L x :
  list_ok w a L → mutex L = false → can_grow w L → x ≠ NULL →
  list_push (Some a) x w = Ok x (after_insertion a L 0 x w).
Proof. apply list_prepend_run. Qed.

Lemma list_append_run w a L x :
  list_ok w a L → mutex L = false → can_grow w L → x ≠ NULL →
  list_append (Some a) x w = Ok x (after_insertion a L (size L) x w).
Proof.
  intros Hok Hu Hg Hx. pose proof Hok as [Hl Hm _ Hsz _ _].
  unfold list_append, _list_append_locked. msimpl.
  rewrite xassert_true, xassert_run by by apply not_NULL.
  rewrite (deref_list_run a L) by done. msimpl.
  rewrite (slurm_mutex_lock_run w a L) by done.
  rewrite (assert_list_magic_run a (set_mutex true L))
    by (done || cbn; apply lookup_insert_eq).
  erewrite get_list_run by (cbn; apply lookup_insert_eq).
  apply (insertion_under_lock w a L (size L) x); (done || lia).
Qed.

Lemma list_enqueue_run w a L x :
  list_ok w a L → mutex L = false → can_grow w L → x ≠ NULL →
  list_enqueue (Some a) x w = Ok x (after_insertion a L (size L) x w).
Proof.
  intros Hok Hu Hg Hx. pose proof Hok as [Hl Hm _ Hsz _ _].
  unfold list_enqueue. msimpl.
  rewrite xassert_true, xassert_run by by apply not_NULL.
  rewrite (deref_list_run a L) by done. msimpl.
  rewrite (slurm_mutex_lock_run w a L) by done.
  rewrite (assert_list_magic_run a (set_mutex true L))
    by (done || cbn; apply lookup_insert_eq).
  erewrite get_list_run by (cbn; apply lookup_insert_eq).
  apply (insertion_under_lock w a L (size L) x); (done || lia).
Qed.

Lemma list_insert_run w i it a L x :
  list_ok w a L → mutex L = false → can_grow w L → x ≠ NULL →
  iters w !! i = Some it → i_magic it = LIST_ITR_MAGIC → i_list it = Some a →
  0 <= prev it <= size L →
  list_insert (Some i) x w = Ok x (after_insertion a L (prev it) x w).
Proof.
  intros Hok Hu Hg Hx Hi Him Hil Hp. pose proof Hok as [Hl Hm _ Hsz _ _].
  unfold list_insert. msimpl.
  rewrite xassert_true, xassert_run by by apply not_NULL.
  rewrite (enter_itr_run w i it a L) by done. msimpl.
  rewrite (get_iter_run i it) by done.
  apply (insertion_under_lock w a L (prev it) x); (done || lia).
Qed.

(** *** The invariant is kept *)

Lemma walk_keeps_magic f chain m i it :
  (∀ it, i_magic (f it) = i_magic it) →
  m !! i = Some it →
  ∃ it', walk f chain m !! i = Some it' ∧ i_magic it' = i_magic it.
Proof.
  intros Hf. revert m it. induction chain as [|j rest IH]; intros m it Hi.
  - by exists it.
  - unfold walk. cbn [foldl]. fold (walk f rest (alter f j m)).
    destruct (decide (j = i)) as [->|Hne].
    + destruct (IH (alter f i m) (f it)) as (it' & H1 & H2).
      * by rewrite lookup_alter_eq, Hi.
      * exists it'. split; [done|]. rewrite H2. apply Hf.
    + apply IH. by rewrite lookup_alter_ne.
Qed.

Lemma chain_ok_walk f c chain w w' :
  (∀ it, i_magic (f it) = i_magic it) →
  iters w' = walk f c (iters w) →
  chain_ok w chain → chain_ok w' chain.
Proof.
  intros Hf E Hc i Hi. destruct (Hc i Hi) as (it & Hit & Hm).
  destruct (walk_keeps_magic f c _ _ _ Hf Hit) as (it' & H1 & H2).
  exists it'. rewrite E. split; [done|congruence].
Qed.

Lemma list_ok_after_insertion w a L p x :
  list_ok w a L → can_grow w L → 0 <= p <= size L →
  list_ok (after_insertion a L p x w) a (created p x L).
Proof.
  intros Hok Hg Hp.
  pose proof (grown_grown_ok w a L Hok Hg) as [Gm Gmu Gi Gf Gsz Ga Gs Gc Ge].
  pose proof Hok as [Hl Hm Hs Hsz Hc Hch].
  split.
  - cbn. apply lookup_insert_eq.
  - cbn. congruence.
  - unfold created, slots at 1. cbn.
    rewrite length_insert, memmove_buf_length; lia.
  - unfold created. cbn. lia.
  - unfold created. cbn. lia.
  - eapply (chain_ok_walk (create_repair p) (iNext L) _ w);
      [apply create_repair_magic|done|].
    unfold created. cbn. by rewrite Gi.
Qed.

Lemma list_ok_after_removal w a L p :
  list_ok w a L → 0 <= p < size L →
  list_ok (after_removal a L p w) a (destroyed p L).
Proof.
  intros [Hl Hm Hs Hsz Hc Hch] Hp. split.
  - cbn. apply lookup_insert_eq.
  - done.
  - unfold destroyed, slots at 1. cbn. rewrite memmove_buf_length; lia.
  - cbn. lia.
  - done.
  - by eapply (chain_ok_walk (destroy_repair p) (iNext L) _ w);
      [apply destroy_repair_magic|done|].
Qed.

(** *** list_next *)

Lemma unlock_restores w a L m :
  lists w !! a = Some L → mutex L = false →
  with_list a (set_mutex false (set_mutex true L))
    (set_iters m (with_list a (set_mutex true L) w)) = set_iters m w.
Proof.
  intros Hl Hu. unfold with_list. cbn.
  rewrite insert_insert_eq, unlock_lock, insert_id by done.
  by destruct w.
Qed.

Lemma pos_next_prev it : pos (next_prev it) = pos it.
Proof. unfold next_prev. by destruct (_ =? _). Qed.

Lemma _list_next_locked_run w i it a L :
  lists w !! a = Some L →
  0 <= size L <= Z.of_nat (length (slots L)) →
  iters w !! i = Some it → i_list it = Some a → 0 <= pos it →
  _list_next_locked i w =
    Ok (next_value L it) (set_iters (<[i := next_state L it]> (iters w)) w).
Proof.
  intros Hl Hsz Hi Hil Hpos.
  assert (i_list (next_prev it) = Some a) as Hil'
    by (unfold next_prev; by destruct (_ =? _)).
  unfold _list_next_locked. msimpl.
  rewrite (get_iter_run i it) by done.
  unfold next_value, next_state.
  destruct (Z.eqb_spec (prev it) (pos it)) as [E|N]; cbn [negb].
  - assert (next_prev it = it) as ->
      by (unfold next_prev; by destruct (Z.eqb_spec (prev it) (pos it))).
    rewrite (get_iter_run i it) by done.
    rewrite Hil, (deref_list_run a L) by done.
    destruct (Z.ltb_spec (pos it) (size L)) as [Hlt|Hge].
    + destruct (lookup_lt_is_Some_2 (slots L) (Z.to_nat (pos it))) as [v Hv]; [lia|].
      rewrite Hv. unfold put_iter. cbn [default].
      rewrite (slots_arr _ _ _ Hv). cbn [is_ptr_buf negb andb].
      apply (arr_read_run a L (slots L)); [done|by eapply slots_arr|done|done].
    + by rewrite insert_id, set_iters_id.
  - assert (next_prev it = set_prev (u32 (prev it + 1)) it) as E'
      by (unfold next_prev; by destruct (Z.eqb_spec (prev it) (pos it))).
    rewrite <- E'. unfold put_iter at 1.
    rewrite (get_iter_run i (next_prev it)) by (cbn; apply lookup_insert_eq).
    rewrite Hil', (deref_list_run a L) by done.
    rewrite pos_next_prev.
    destruct (Z.ltb_spec (pos it) (size L)) as [Hlt|Hge].
    + destruct (lookup_lt_is_Some_2 (slots L) (Z.to_nat (pos it))) as [v Hv]; [lia|].
      rewrite Hv. unfold put_iter. cbn [default iters set_iters].
      rewrite insert_insert_eq.
      rewrite (slots_arr _ _ _ Hv). cbn [is_ptr_buf negb andb].
      erewrite (arr_read_run a L (slots L)); [|done|by eapply slots_arr|done|done].
      by destruct w.
    + by destruct w.
Qed.

Lemma list_next_run w i it a L :
  list_ok w a L → mutex L = false →
  iters w !! i = Some it → i_magic it = LIST_ITR_MAGIC → i_list it = Some a →
  0 <= pos it →
  list_next (Some i) w =
    Ok (next_value L it) (set_iters (<[i := next_state L it]> (iters w)) w).
Proof.
  intros [Hl Hm Hs Hsz Hc Hch] Hu Hi Him Hil Hpos.
  unfold list_next. msimpl.
  rewrite (enter_itr_run w i it a L) by done. msimpl.
  rewrite (_list_next_locked_run _ i it a (set_mutex true L));
    [|cbn; apply lookup_insert_eq|unfold slots in *; cbn; lia|done..].
  erewrite slurm_mutex_unlock_run by (cbn; apply lookup_insert_eq).
  cbn [iters with_list set_lists]. by rewrite unlock_restores.
Qed.

(** *** The elements after an insertion *)

Lemma insert_memmove_buf (sg : list Node) (k n : nat) x :
  (k <= n)%nat → (n < length sg)%nat →
  take (S n) (<[k := x]> (memmove_buf sg (S k) k (n - k))) =
  take k (take n sg) ++ x :: drop k (take n sg).
Proof.
  intros Hk Hn. unfold memmove_buf.
  destruct (lookup_lt_is_Some_2 sg k) as [y Hy]; [lia|].
  rewrite (take_S_r sg k y) by done.
  rewrite insert_app_l by (rewrite length_app, length_take; cbn; lia).
  replace k with (length (take k sg) + 0)%nat at 1 by (rewrite length_take; lia).
  rewrite insert_app_r. cbn [insert list.list_insert].
  rewrite <- !app_assoc. cbn [app].
  rewrite take_app_ge by (rewrite length_take; lia).
  rewrite length_take, Nat.min_l by lia. f_equal.
  - rewrite take_take. f_equal. lia.
  - replace (S n - k)%nat with (S (n - k)) by lia. cbn [take]. f_equal.
    rewrite take_app_ge by (rewrite length_take, length_drop; lia).
    rewrite length_take, length_drop, Nat.min_l by lia.
    rewrite Nat.sub_diag, take_0, app_nil_r.
    rewrite take_drop_commute. f_equal. f_equal. lia.
Qed.

Lemma elements_created w a L p x :
  list_ok w a L → can_grow w L → 0 <= p <= size L →
  elements (created p x L) =
    take (Z.to_nat p) (elements L) ++ x :: drop (Z.to_nat p) (elements L).
Proof.
  intros Hok Hg Hp.
  pose proof (grown_grown_ok w a L Hok Hg) as [Gm Gmu Gi Gf Gsz Ga Gs Gc Ge].
  unfold elements at 1. unfold created, slots at 1. cbn [size arr set_arr default].
  rewrite Gsz, <- Ge.
  replace (Z.to_nat (size L + 1)) with (S (Z.to_nat (size L))) by lia.
  replace (Z.to_nat (p + 1)) with (S (Z.to_nat p)) by lia.
  replace (Z.to_nat (size L - p)) with (Z.to_nat (size L) - Z.to_nat p)%nat by lia.
  apply insert_memmove_buf; lia.
Qed.

(** ** Insertion and the iterators (C9, C3) *)

Lemma create_repair_idemp p it :
  create_repair p (create_repair p it) = create_repair p it.
Proof.
  assert ((u32 (p + 1) =? p) = false) as Hf by apply Z.eqb_neq, u32_succ_ne.
  unfold create_repair.
  destruct (prev it =? p) eqn:E1; destruct (pos it =? p) eqn:E2;
    repeat (progress (msimpl; rewrite ?Hf, ?E1, ?E2)); done.
Qed.

Lemma after_insertion_lookup a L p x w i it :
  i ∈ iNext L → iters w !! i = Some it →
  iters (after_insertion a L p x w) !! i = Some (create_repair p it).
Proof.
  intros Hi Hit. cbn.
  rewrite walk_lookup_in by (done || apply create_repair_idemp). by rewrite Hit.
Qed.

Lemma chain_magic w a L i it :
  list_ok w a L → i ∈ iNext L → iters w !! i = Some it →
  i_magic it = LIST_ITR_MAGIC.
Proof.
  intros [_ _ _ _ _ Hch] Hi Hit. destruct (Hch i Hi) as (it' & H1 & H2). congruence.
Qed.

Lemma next_value_elements L it :
  0 <= pos it → 0 <= size L <= Z.of_nat (length (slots L)) →
  next_value L it = default NULL (elements L !! Z.to_nat (pos it)).
Proof.
  intros Hp Hs. unfold next_value, elements.
  destruct (Z.ltb_spec (pos it) (size L)).
  - by rewrite lookup_take_lt by lia.
  - by rewrite lookup_take_ge by lia.
Qed.

(** C9, as the code has it.  An iterator that has not moved
    ([pos = prev = 0]) when [x] is prepended (or pushed) has both indices 1
    afterwards, and its next advance yields the element that was at the head
    before -- none if the list was empty -- not the new head [x].  This
    holds of the first prepend only: a further prepend of [y] finds the
    indices at 1 and leaves them there, and the next advance then yields
    [x], an element prepended after the iterator was created. *)
Theorem C9_fresh_iterator_skips_prepended w a L i it x :
  list_ok w a L → mutex L = false → can_grow w L → x ≠ NULL →
  i ∈ iNext L → iters w !! i = Some it → i_list it = Some a →
  pos it = 0 → prev it = 0 →
  ∃ w1 L1 it1,
    list_prepend (Some a) x w = Ok x w1 ∧ list_push (Some a) x w = Ok x w1 ∧
    lists w1 !! a = Some L1 ∧ elements L1 = x :: elements L ∧
    iters w1 !! i = Some it1 ∧ pos it1 = 1 ∧ prev it1 = 1 ∧
    (∃ w2, list_next (Some i) w1 = Ok (default NULL (head (elements L))) w2) ∧
    (∀ y, y ≠ NULL → can_grow w1 L1 →
       ∃ w2 L2 w3,
         list_prepend (Some a) y w1 = Ok y w2 ∧ list_push (Some a) y w1 = Ok y w2 ∧
         lists w2 !! a = Some L2 ∧ elements L2 = y :: x :: elements L ∧
         iters w2 !! i = Some it1 ∧
         list_next (Some i) w2 = Ok x w3).
Proof.
  intros Hok Hu Hg Hx Hi Hit Hil Hpos Hprev.
  pose proof Hok as [_ _ _ Hsz _ _].
  pose proof (chain_magic w a L i it Hok Hi Hit) as Him.
  assert (list_ok (after_insertion a L 0 x w) a (created 0 x L)) as Hok1
    by (apply list_ok_after_insertion; (done || lia)).
  assert (elements (created 0 x L) = x :: elements L) as Hel.
  { rewrite (elements_created w a) by (done || lia).
    change (Z.to_nat 0) with 0%nat. by rewrite take_0, drop_0. }
  assert (create_repair 0 it = set_pos 1 (set_prev 1 it)) as Hrep.
  { unfold create_repair. rewrite Hprev. cbn. by rewrite Hpos. }
  assert (mutex (created 0 x L) = false) as Hu1
    by (unfold created, grown; cbn; by destruct (_ =? _)).
  assert (iNext (created 0 x L) = iNext L) as Hch1
    by (unfold created, grown; cbn; by destruct (_ =? _)).
  assert (iters (after_insertion a L 0 x w) !! i = Some (set_pos 1 (set_prev 1 it)))
    as Hit1 by (rewrite <- Hrep; by apply after_insertion_lookup).
  exists (after_insertion a L 0 x w), (created 0 x L), (create_repair 0 it).
  split; [by apply list_prepend_run|]. split; [by apply list_push_run|].
  split; [by destruct Hok1|]. split; [done|].
  split; [by apply after_insertion_lookup|].
  rewrite Hrep. split; [done|]. split; [done|]. split.
  - eexists.
    rewrite (list_next_run _ i (set_pos 1 (set_prev 1 it)) a (created 0 x L));
      try done.
    rewrite next_value_elements, Hel, head_lookup; [done|done|].
    destruct Hok1 as [_ _ Hs1 Hsz1 _ _]. lia.
  - intros y Hy Hg1.
    set (w1 := after_insertion a L 0 x w) in *. set (L1 := created 0 x L) in *.
    pose proof Hok1 as [_ _ _ Hsz1 _ _].
    assert (list_ok (after_insertion a L1 0 y w1) a (created 0 y L1)) as Hok2
      by (apply list_ok_after_insertion; (done || lia)).
    assert (elements (created 0 y L1) = y :: x :: elements L) as Hel2.
    { rewrite (elements_created w1 a) by (done || lia).
      change (Z.to_nat 0) with 0%nat. by rewrite take_0, drop_0, Hel. }
    assert (iters (after_insertion a L1 0 y w1) !! i
            = Some (set_pos 1 (set_prev 1 it))) as Hit2.
    { rewrite (after_insertion_lookup a L1 0 y w1 i (set_pos 1 (set_prev 1 it)));
        [done|by rewrite Hch1|done]. }
    exists (after_insertion a L1 0 y w1), (created 0 y L1). eexists.
    split; [by apply list_prepend_run|]. split; [by apply list_push_run|].
    split; [by destruct Hok2|]. split; [done|]. split; [done|].
    rewrite (list_next_run _ i (set_pos 1 (set_prev 1 it)) a (created 0 y L1));
      try done.
    + rewrite next_value_elements, Hel2; [done|done|].
      destruct Hok2 as [_ _ Hs2 Hsz2 _ _]. lia.
    + unfold created, grown. cbn. by destruct (_ =? _).
Qed.

(** C3, as the code has it.  An iterator that is exhausted ([pos] equal to
    the size) when [x] is appended stays exhausted: the append moves its
    next index along with the size, and its next advance yields none. *)
Theorem C3_exhausted_iterator_stays_exhausted w a L i it x :
  list_ok w a L → mutex L = false → can_grow w L → x ≠ NULL →
  i ∈ iNext L → iters w !! i = Some it → i_list it = Some a →
  pos it = size L →
  ∃ w1 L1 w2 it2,
    list_append (Some a) x w = Ok x w1 ∧
    lists w1 !! a = Some L1 ∧ elements L1 = elements L ++ [x] ∧
    list_next (Some i) w1 = Ok NULL w2 ∧
    iters w2 !! i = Some it2 ∧ pos it2 = size L1.
Proof.
  intros Hok Hu Hg Hx Hi Hit Hil Hpos.
  pose proof Hok as [_ _ Hs Hsz Hc _].
  assert (list_ok (after_insertion a L (size L) x w) a (created (size L) x L)) as Hok1
    by (apply list_ok_after_insertion; (done || lia)).
  assert (size (created (size L) x L) = size L + 1) as Hsz1.
  { unfold created, grown. cbn. by destruct (_ =? _). }
  assert (pos (create_repair (size L) it) = size L + 1) as Hpos1.
  { unfold create_repair. rewrite <- Hpos.
    destruct (prev it =? pos it); msimpl; rewrite Z.eqb_refl; msimpl;
      apply u32_small; lia. }
  exists (after_insertion a L (size L) x w), (created (size L) x L).
  eexists. exists (next_state (created (size L) x L) (create_repair (size L) it)).
  split; [by apply list_append_run|].
  split; [by destruct Hok1|].
  split.
  { rewrite (elements_created w a) by (done || lia).
    rewrite take_ge, drop_ge; [done|..]; unfold elements; rewrite length_take; lia. }
  split.
  { rewrite (list_next_run _ i (create_repair (size L) it) a (created (size L) x L)).
    - f_equal. unfold next_value. rewrite Hpos1, Hsz1.
      by destruct (Z.ltb_spec (size L + 1) (size L + 1)); [lia|].
    - done.
    - unfold created, grown. cbn. by destruct (_ =? _).
    - by apply after_insertion_lookup.
    - rewrite create_repair_magic. exact (chain_magic w a L i it Hok Hi Hit).
    - unfold create_repair. by repeat case_match.
    - lia. }
  split; [cbn; apply lookup_insert_eq|].
  unfold next_state. rewrite Hpos1, Hsz1.
  destruct (Z.ltb_spec (size L + 1) (size L + 1)); [lia|].
  by rewrite pos_next_prev.
Qed.

(** ** list_sort and list_flip (C7) *)

Lemma flip_loop_run a L sz idx :
  0 <= sz < 2 ^ 32 →
  (∀ k, k ∈ idx → 0 <= k < sz) →
  ∀ w buf,
    lists w !! a = Some (set_arr (Some buf) L) →
    sz <= Z.of_nat (length buf) →
    ∃ buf', length buf' = length buf ∧
            flip_loop a sz idx w = Ok tt (with_list a (set_arr (Some buf') L) w).
Proof.
  intros Hsz. induction idx as [|k rest IH]; intros Hidx w buf Hl Hlen.
  - exists buf. split; [done|]. cbn. by rewrite with_list_id.
  - assert (0 <= k < sz) as Hk by (apply Hidx, list_elem_of_here).
    assert (u32 (sz - 1 - k) = sz - 1 - k) as Hj by (apply u32_small; lia).
    destruct (lookup_lt_is_Some_2 buf (Z.to_nat k)) as [vk Hvk]; [lia|].
    destruct (lookup_lt_is_Some_2 buf (Z.to_nat (sz - 1 - k))) as [vj Hvj]; [lia|].
    cbn [flip_loop]. msimpl. rewrite Hj.
    rewrite (arr_read_run a _ buf k vk) by (done || lia).
    rewrite (arr_read_run a _ buf (sz - 1 - k) vj) by (done || lia).
    erewrite arr_write_run; [|exact Hl|done|lia].
    erewrite arr_write_run;
      [|cbn; apply lookup_insert_eq|done|rewrite length_insert; lia].
    cbn [set_arr magic arr iNext fDel size capacity mutex].
    edestruct (IH (λ j Hj', Hidx j (list_elem_of_further _ _ _ Hj'))) as (buf' & Hlen' & Hrun);
      [|shelve|rewrite Hrun].
    + cbn. apply lookup_insert_eq.
    + exists buf'. split.
      * rewrite Hlen', !length_insert. done.
      * unfold with_list. cbn. by rewrite !insert_insert_eq.
    Unshelve. rewrite !length_insert. lia.
Qed.

Lemma unlock_same w a L :
  lists w !! a = Some L → mutex L = false →
  slurm_mutex_unlock a (with_list a (set_mutex true L) w) = Ok tt w.
Proof.
  intros Hl Hu.
  erewrite slurm_mutex_unlock_run by (cbn; apply lookup_insert_eq).
  by rewrite with_list_twice, unlock_lock, with_list_id.
Qed.

Lemma list_flip_run w a L :
  list_ok w a L → mutex L = false →
  ∃ w', list_flip (Some a) w = Ok tt w' ∧
        (size L <= 1 → w' = w) ∧
        (1 < size L → iters w' = walk reset_iterator (iNext L) (iters w)).
Proof.
  intros Hok Hu. pose proof Hok as [Hl Hm Hs Hsz Hc Hch].
  unfold list_flip. msimpl.
  rewrite xassert_true, (assert_list_magic_run a L), (deref_list_run a L) by done.
  msimpl. rewrite (slurm_mutex_lock_run w a L) by done.
  erewrite get_list_run by (cbn; apply lookup_insert_eq). msimpl.
  destruct (Z.leb_spec (size L) 1) as [Hle|Hgt].
  - exists w. rewrite unlock_same by done. split; [done|]. split; [done|lia].
  - destruct (lookup_lt_is_Some_2 (slots L) 0%nat) as [v0 Hv0]; [lia|].
    pose proof (slots_arr _ _ _ Hv0) as Harr.
    pose proof (Z.mul_div_le (size L) 2 ltac:(lia)) as Hdiv.
    edestruct (flip_loop_run a (set_mutex true L) (size L) (seqZ 0 (size L / 2)))
      as (buf' & Hlen' & Hrun); [lia| |shelve|shelve|rewrite Hrun].
    { intros k Hk. apply elem_of_seqZ in Hk. lia. }
    rewrite for_each_iterator_run;
      [|apply reset_iterator_magic|by eapply chain_ok_iters].
    erewrite slurm_mutex_unlock_run by (cbn; apply lookup_insert_eq).
    eexists. split; [done|]. split; [lia|done].
    Unshelve.
    + exact (slots L).
    + cbn. rewrite lookup_insert_eq. f_equal. destruct L; cbn in *. by rewrite Harr.
    + lia.
Qed.

Lemma list_sort_run w a L f :
  list_ok w a L → mutex L = false →
  ∃ w', list_sort (Some a) f w = Ok tt w' ∧
        (size L <= 1 → w' = w) ∧
        (1 < size L → iters w' = walk reset_iterator (iNext L) (iters w)).
Proof.
  intros Hok Hu. pose proof Hok as [Hl Hm Hs Hsz Hc Hch].
  unfold list_sort. msimpl.
  rewrite xassert_true, (assert_list_magic_run a L), (deref_list_run a L) by done.
  msimpl. rewrite (slurm_mutex_lock_run w a L) by done.
  erewrite get_list_run by (cbn; apply lookup_insert_eq). msimpl.
  destruct (Z.leb_spec (size L) 1) as [Hle|Hgt].
  - exists w. rewrite unlock_same by done. split; [done|]. split; [done|lia].
  - destruct (lookup_lt_is_Some_2 (slots L) 0%nat) as [v0 Hv0]; [lia|].
    rewrite (slots_arr _ _ _ Hv0).
    destruct (Z.leb_spec (size L) (Z.of_nat (length (slots L)))); [|lia].
    unfold put_list. msimpl.
    rewrite for_each_iterator_run;
      [|apply reset_iterator_magic|by eapply chain_ok_iters].
    erewrite slurm_mutex_unlock_run by (cbn; apply lookup_insert_eq).
    eexists. split; [done|]. split; [lia|done].
Qed.

(** C7, as the code has it.  On a list of two or more elements [list_sort]
    and [list_flip] set both indices of every iterator on the chain to 0,
    wherever the iterator stood; on a list of at most one element they
    return at once and leave everything, the iterators included, as it
    was. *)
Theorem C7_sort_flip_reset_iterators w a L f :
  list_ok w a L → mutex L = false →
  ∃ ws wf,
    list_sort (Some a) f w = Ok tt ws ∧ list_flip (Some a) w = Ok tt wf ∧
    (1 < size L →
     ∀ i it, i ∈ iNext L → iters w !! i = Some it →
       iters ws !! i = Some (reset_iterator it) ∧
       iters wf !! i = Some (reset_iterator it) ∧
       pos (reset_iterator it) = 0 ∧ prev (reset_iterator it) = 0) ∧
    (size L <= 1 → ws = w ∧ wf = w).
Proof.
  intros Hok Hu.
  destruct (list_sort_run w a L f Hok Hu) as (ws & Hs & Hs1 & Hs2).
  destruct (list_flip_run w a L Hok Hu) as (wf & Hf & Hf1 & Hf2).
  exists ws, wf. split; [done|]. split; [done|]. split.
  - intros Hgt i it Hi Hit. rewrite Hs2, Hf2 by done.
    rewrite !walk_lookup_in by done. by rewrite Hit.
  - intros Hle. split; [by apply Hs1|by apply Hf1].
Qed.

(** ** The removals that search: list_remove_first, list_delete_ptr, list_delete_all *)

Lemma elements_lookup L j :
  (j < Z.to_nat (size L))%nat → elements L !! j = slots L !! j.
Proof. intros H. unfold elements. by apply lookup_take_lt. Qed.

Lemma first_index_bound w a L P k :
  list_ok w a L → first_index P (elements L) k → 0 <= k < size L.
Proof.
  intros [_ _ Hs Hsz _ _] (Hk & (e & He & _) & _). split; [done|].
  apply lookup_lt_Some in He. unfold elements in He. rewrite length_take in He. lia.
Qed.

Lemma remove_first_loop_run w a L f key k :
  list_ok w a L →
  first_index (λ e, negb (f e key =? 0)) (elements L) k →
  ∀ fuel i, 0 <= i <= k → (Z.to_nat (k - i) < fuel)%nat →
            remove_first_loop fuel a f key i w = _list_node_destroy a k w.
Proof.
  intros Hok Hfirst. pose proof (first_index_bound _ _ _ _ _ Hok Hfirst) as Hk.
  destruct Hok as [Hl _ Hs Hsz Hc _]. destruct Hfirst as (_ & (ek & Hek & Pk) & Hbefore).
  induction fuel as [|fuel IH]; intros i Hi Hfuel; [lia|].
  cbn [remove_first_loop]. msimpl.
  rewrite (get_list_run a L) by done.
  rewrite u32_small by lia.
  destruct (Z.ltb_spec i (size L)); [|lia]. msimpl.
  destruct (lookup_lt_is_Some_2 (slots L) (Z.to_nat i)) as [e He]; [lia|].
  rewrite (arr_read_run a L (slots L) i e) by (done || lia || by eapply slots_arr).
  destruct (Z.eq_dec i k) as [->|Hne].
  - rewrite elements_lookup in Hek by lia.
    assert (e = ek) as -> by congruence. by rewrite Pk.
  - rewrite (Hbefore i e) by (lia || rewrite elements_lookup by lia; done).
    rewrite to_int_small by lia. apply IH; lia.
Qed.

Lemma list_remove_first_run w a L f key k :
  list_ok w a L → mutex L = false → key ≠ NULL →
  first_index (λ e, negb (f e key =? 0)) (elements L) k →
  ∃ v, elements L !! Z.to_nat k = Some v ∧
       list_remove_first (Some a) f key w = Ok v (after_removal a L k w).
Proof.
  intros Hok Hu Hkey Hfirst.
  pose proof (first_index_bound _ _ _ _ _ Hok Hfirst) as Hk.
  pose proof Hok as [Hl Hm _ _ _ _].
  destruct (_list_node_destroy_run (with_list a (set_mutex true L) w) a
              (set_mutex true L) k) as (v & Hv & Hrun);
    [by apply list_ok_lock|done|cbn; lia|].
  exists v. split; [rewrite elements_lookup by lia; done|].
  unfold list_remove_first. msimpl.
  rewrite xassert_true, xassert_run by by apply not_NULL.
  rewrite (deref_list_run a L) by done. msimpl.
  rewrite (slurm_mutex_lock_run w a L) by done.
  rewrite (assert_list_magic_run a (set_mutex true L))
    by (done || cbn; apply lookup_insert_eq).
  erewrite get_list_run by (cbn; apply lookup_insert_eq).
  rewrite (remove_first_loop_run _ a (set_mutex true L) f key k);
    [|by apply list_ok_lock|done|lia|cbn; lia].
  rewrite Hrun.
  rewrite (slurm_mutex_unlock_run _ a (destroyed k (set_mutex true L)))
    by (cbn; apply lookup_insert_eq).
  unfold after_removal, with_list. cbn.
  by rewrite !insert_insert_eq, unlock_destroyed.
Qed.

Lemma delete_ptr_loop_run w a L key k :
  list_ok w a L → mutex L = true → key ≠ NULL →
  first_index (λ e, e =? key) (elements L) k →
  ∀ fuel i, 0 <= i <= k → (Z.to_nat (k - i) < fuel)%nat →
            delete_ptr_loop fuel a key i w =
              Ok 1 (destructor_called L key (after_removal a L k w)).
Proof.
  intros Hok Hlock Hkey Hfirst.
  pose proof (first_index_bound _ _ _ _ _ Hok Hfirst) as Hk.
  destruct (_list_node_destroy_run w a L k Hok Hlock Hk) as (v & Hv & Hrun).
  destruct Hok as [Hl _ Hs Hsz Hc _]. destruct Hfirst as (_ & (ek & Hek & Pk) & Hbefore).
  rewrite elements_lookup in Hek by lia.
  assert (v = key) as -> by (apply Z.eqb_eq in Pk; congruence).
  induction fuel as [|fuel IH]; intros i Hi Hfuel; [lia|].
  cbn [delete_ptr_loop]. msimpl.
  rewrite (get_list_run a L) by done.
  rewrite u32_small by lia.
  destruct (Z.ltb_spec i (size L)); [|lia]. msimpl.
  destruct (lookup_lt_is_Some_2 (slots L) (Z.to_nat i)) as [e He]; [lia|].
  rewrite (arr_read_run a L (slots L) i e) by (done || lia || by eapply slots_arr).
  destruct (Z.eq_dec i k) as [->|Hne].
  - assert (e = key) as -> by congruence. rewrite Z.eqb_refl, Hrun.
    rewrite not_NULL by done. unfold destructor_called.
    by destruct (negb (fDel L =? NULL)).
  - rewrite (Hbefore i e) by (lia || rewrite elements_lookup by lia; done).
    rewrite to_int_small by lia. apply IH; lia.
Qed.

Lemma list_delete_ptr_run w a L key k :
  list_ok w a L → mutex L = false → key ≠ NULL →
  first_index (λ e, e =? key) (elements L) k →
  list_delete_ptr (Some a) key w =
    Ok 1 (destructor_called L key (after_removal a L k w)).
Proof.
  intros Hok Hu Hkey Hfirst.
  pose proof (first_index_bound _ _ _ _ _ Hok Hfirst) as Hk.
  pose proof Hok as [Hl Hm _ _ _ _].
  unfold list_delete_ptr. msimpl.
  rewrite xassert_true, xassert_run by by apply not_NULL.
  rewrite (deref_list_run a L) by done. msimpl.
  rewrite (slurm_mutex_lock_run w a L) by done.
  rewrite (assert_list_magic_run a (set_mutex true L))
    by (done || cbn; apply lookup_insert_eq).
  erewrite get_list_run by (cbn; apply lookup_insert_eq).
  rewrite (delete_ptr_loop_run _ a (set_mutex true L) key k);
    [|by apply list_ok_lock|done|done|done|lia|cbn; lia].
  unfold destructor_called. cbn [fDel set_mutex].
  destruct (negb (fDel L =? NULL));
    (erewrite slurm_mutex_unlock_run by (cbn; apply lookup_insert_eq);
     unfold after_removal, with_list; cbn;
     by rewrite !insert_insert_eq, unlock_destroyed).
Qed.

Lemma delete_memmove_buf (sl : list Node) (k n : nat) :
  (k < n)%nat → (n <= length sl)%nat →
  take (n - 1) (memmove_buf sl k (S k) (n - S k)) = delete k (take n sl).
Proof.
  intros Hk Hn. unfold memmove_buf.
  rewrite delete_take_drop, take_take, Nat.min_l by lia.
  rewrite app_assoc, take_app_ge;
    rewrite ?length_app, ?length_take, ?length_drop; [|lia].
  replace (n - 1 - (k `min` length sl + (n - S k) `min` (length sl - S k)))%nat
    with 0%nat by lia.
  rewrite take_0, app_nil_r. f_equal.
  rewrite take_drop_commute. do 2 f_equal. lia.
Qed.

Lemma elements_destroyed w a L p :
  list_ok w a L → 0 <= p < size L →
  elements (destroyed p L) = delete (Z.to_nat p) (elements L).
Proof.
  intros [_ _ Hs Hsz _ _] Hp.
  unfold elements at 1. unfold destroyed, slots at 1. cbn [size arr set_arr set_size default].
  replace (Z.to_nat (size L - 1)) with (Z.to_nat (size L) - 1)%nat by lia.
  replace (Z.to_nat (p + 1)) with (S (Z.to_nat p)) by lia.
  replace (Z.to_nat (size L - (p + 1))) with (Z.to_nat (size L) - S (Z.to_nat p))%nat by lia.
  apply delete_memmove_buf; lia.
Qed.

Lemma list_ok_logged w a L g :
  list_ok w a L → list_ok (set_log g w) a L.
Proof. intros H. apply (list_ok_lists w); [by destruct H|done|done]. Qed.

Lemma list_ok_destructor_called w a L L0 v :
  list_ok w a L → list_ok (destructor_called L0 v w) a L.
Proof.
  intros H. unfold destructor_called. destruct (negb _); [|done].
  by apply list_ok_logged.
Qed.

Lemma iters_destructor_called L v w : iters (destructor_called L v w) = iters w.
Proof. unfold destructor_called. by destruct (negb _). Qed.

Lemma delete_all_loop_run a f key :
  ∀ fuel w L i n,
    list_ok w a L → mutex L = true → 0 <= i <= size L →
    (Z.to_nat (size L - i) <= fuel)%nat →
    (∀ j e, 0 <= j < i → elements L !! Z.to_nat j = Some e →
            negb (f e key =? 0) = false) →
    ∃ n' w' L',
      delete_all_loop fuel a f key i n w = Ok n' w' ∧
      list_ok w' a L' ∧ mutex L' = true ∧ iNext L' = iNext L ∧
      removals (λ e, negb (f e key =? 0)) (iNext L)
               (elements L) (iters w) (elements L') (iters w').
Proof.
  assert (∀ w L i, list_ok w a L → size L <= i →
            (∀ j e, 0 <= j < i → elements L !! Z.to_nat j = Some e →
                    negb (f e key =? 0) = false) →
            removals (λ e, negb (f e key =? 0)) (iNext L)
                     (elements L) (iters w) (elements L) (iters w)) as Hdone.
  { intros w L i [_ _ Hs Hsz _ _] Hi Hinv. apply removals_done. intros e He.
    apply list_elem_of_lookup in He as [j Hj].
    pose proof (lookup_lt_Some _ _ _ Hj) as Hlt.
    unfold elements in Hlt. rewrite length_take in Hlt.
    apply (Hinv (Z.of_nat j)); [lia|by rewrite Nat2Z.id]. }
  induction fuel as [|fuel IH]; intros w L i n Hok Hlock Hi Hfuel Hinv;
    pose proof Hok as [Hl _ Hs Hsz Hc _].
  - exists n, w, L. cbn [delete_all_loop]. msimpl.
    rewrite (get_list_run a L) by done. rewrite u32_small by lia.
    destruct (Z.ltb_spec i (size L)); [lia|]. msimpl.
    split; [done|]. split; [done|]. split; [done|]. split; [done|].
    by apply (Hdone w L i).
  - cbn [delete_all_loop]. msimpl.
    rewrite (get_list_run a L) by done. rewrite u32_small by lia.
    destruct (Z.ltb_spec i (size L)) as [Hlt|Hge]; msimpl.
    2:{ exists n, w, L. split; [done|]. split; [done|]. split; [done|].
        split; [done|]. by apply (Hdone w L i). }
    destruct (lookup_lt_is_Some_2 (slots L) (Z.to_nat i)) as [e He]; [lia|].
    rewrite (arr_read_run a L (slots L) i e) by (done || lia || by eapply slots_arr).
    assert (elements L !! Z.to_nat i = Some e) as Hei
      by (rewrite elements_lookup by lia; done).
    destruct (f e key =? 0) eqn:Ef; msimpl.
    + rewrite to_int_small by lia. apply IH; [done|done|lia|lia|].
      intros j x Hj Hx. destruct (decide (j = i)) as [->|Hne].
      * assert (x = e) as -> by congruence. by rewrite Ef.
      * apply (Hinv j); [lia|done].
    + destruct (_list_node_destroy_run w a L i Hok Hlock) as (v & Hv & Hrun); [lia|].
      rewrite Hrun.
      pose proof (list_ok_after_removal w a L i Hok ltac:(lia)) as Hok1.
      assert (first_index (λ e, negb (f e key =? 0)) (elements L) i) as Hfirst.
      { split; [lia|]. split; [|exact Hinv]. exists e. by rewrite Ef. }
      assert (∀ w1, iters w1 = iters (after_removal a L i w) →
                    list_ok w1 a (destroyed i L) →
                    ∀ n1, ∃ n' w' L',
                      delete_all_loop fuel a f key i n1 w1 = Ok n' w' ∧
                      list_ok w' a L' ∧ mutex L' = true ∧ iNext L' = iNext L ∧
                      removals (λ e, negb (f e key =? 0)) (iNext L)
                               (elements L) (iters w) (elements L') (iters w'))
        as Hnext.
      { intros w1 Hw1 Hok1' n1.
        destruct (IH w1 (destroyed i L) i n1) as (n' & w' & L' & Hr & Hok' & Hl' & Hn' & Hrem);
          [done|done|cbn; lia|cbn; lia| |].
        { intros j x Hj Hx. apply (Hinv j); [done|].
          rewrite (elements_destroyed w a) in Hx by (done || lia).
          by rewrite list_lookup_delete_lt in Hx by lia. }
        exists n', w', L'. split; [done|]. split; [done|]. split; [done|].
        split; [done|].
        apply (removals_step _ _ _ _ i (iters w1)).
        - done.
        - rewrite Hw1. intros j it Hj Hit. split.
          + cbn. rewrite walk_lookup_in by (done || apply destroy_repair_idemp).
            by rewrite Hit.
          + apply destroy_repair_repaired. lia.
        - rewrite <- (elements_destroyed w a) by (done || lia). exact Hrem. }
      destruct (v =? NULL); msimpl.
      * by apply Hnext.
      * destruct (negb (fDel L =? NULL)); msimpl.
        -- unfold call_fDel. apply Hnext; [done|]. by apply list_ok_logged.
        -- by apply Hnext.
Qed.

Lemma list_delete_all_run w a L f key :
  list_ok w a L → mutex L = false →
  ∃ n w' L',
    list_delete_all (Some a) f key w = Ok n w' ∧
    lists w' !! a = Some L' ∧
    removals (λ e, negb (f e key =? 0)) (iNext L)
             (elements L) (iters w) (elements L') (iters w').
Proof.
  intros Hok Hu. pose proof Hok as [Hl Hm _ Hsz _ _].
  destruct (delete_all_loop_run a f key (Z.to_nat (size L))
              (with_list a (set_mutex true L) w) (set_mutex true L) 0 0)
    as (n & w' & L' & Hrun & Hok' & Hlock' & Hn' & Hrem);
    [by apply list_ok_lock|done|cbn; lia|cbn; lia|intros j e Hj; lia|].
  exists n. eexists. exists (set_mutex false L').
  unfold list_delete_all. msimpl.
  rewrite (enter_run w a L) by done.
  erewrite get_list_run by (cbn; apply lookup_insert_eq).
  cbn [size set_mutex]. rewrite Hrun.
  destruct Hok' as [Hl' _ _ _ _ _].
  rewrite (slurm_mutex_unlock_run w' a L') by done.
  split; [done|]. split; [cbn; apply lookup_insert_eq|]. exact Hrem.
Qed.

(** What a sequence of [removals] leaves is determined: the elements that
    [P] rejects, in order, and every chained iterator repaired for each of
    the [removal_indices] in turn. *)
Lemma removal_indices_first P els k i :
  first_index P els k →
  removal_indices P els i = (i + k) :: removal_indices P (delete (Z.to_nat k) els) i.
Proof.
  intros (Hk & (e & He & Pe) & Hbefore).
  revert k i Hk He Hbefore. induction els as [|e0 rest IH]; intros k i Hk He Hbefore.
  - done.
  - destruct (Z.to_nat k) as [|k'] eqn:Ek.
    + cbn in He. injection He as ->. cbn. rewrite Pe. f_equal. lia.
    + cbn [removal_indices delete list_delete].
      rewrite (Hbefore 0 e0) by (done || lia). cbn in He.
      rewrite (IH (Z.of_nat k') (i + 1)); [|lia|by rewrite Nat2Z.id|].
      * rewrite Nat2Z.id. f_equal. lia.
      * intros j e' Hj He'. apply (Hbefore (j + 1) e'); [lia|].
        by replace (Z.to_nat (j + 1)) with (S (Z.to_nat j)) by lia.
Qed.

Lemma removal_indices_none P els i :
  (∀ e, e ∈ els → P e = false) → removal_indices P els i = [].
Proof.
  revert i. induction els as [|e rest IH]; intros i H; [done|]. cbn.
  rewrite (H e) by apply list_elem_of_here.
  apply IH. intros e' He'. by apply H, list_elem_of_further.
Qed.

Lemma removals_determined P chain els m els' m' :
  removals P chain els m els' m' →
  (∀ e, e ∈ els' → P e = false) ∧
  ∀ i it, i ∈ chain → m !! i = Some it →
    m' !! i = Some (foldl (λ it k, destroy_repair k it) it (removal_indices P els 0)).
Proof.
  induction 1 as [els m Hnone|els m k m1 els' m' Hfirst Hstep _ [IHe IHi]].
  - split; [done|]. intros i it Hi Hit. by rewrite removal_indices_none.
  - split; [done|]. intros i it Hi Hit.
    rewrite (removal_indices_first P els k 0 Hfirst). cbn [foldl].
    rewrite Z.add_0_l. apply IHi; [done|]. by apply Hstep.
Qed.

(** C1.  A removal at index [k] of a well-formed list returns the element
    of that slot, and leaves every iterator on the list's chain [repaired]:
    one whose next index is [k + 1] has both indices set to [k]; otherwise
    one whose last yielded index is [k + 1] has that set to [k]; one with
    both indices below [k] is left as it was.  This holds of
    [_list_node_destroy] under the lock (any [k] below the size), of
    [list_dequeue] and [list_pop] ([k = 0]), of [list_remove] on an iterator
    that has yielded ([k] its [prev]), of [list_remove_first] and
    [list_delete_ptr] ([k] the first matching index), and of each removal
    in the sequence that [list_delete_all] performs: as long as an element
    matches it removes the first one that does, so that every chained
    iterator ends up repaired for each of the [removal_indices] in turn. *)
Theorem C1_removal_repairs_iterators w a L :
  list_ok w a L →
  (∀ k, mutex L = true → 0 <= k < size L →
        ∃ v w', _list_node_destroy a k w = Ok v w' ∧
                slots L !! Z.to_nat k = Some v ∧ repairs_at L k w w') ∧
  (mutex L = false → 0 < size L →
        ∃ v w', list_dequeue (Some a) w = Ok v w' ∧
                slots L !! 0%nat = Some v ∧ repairs_at L 0 w w') ∧
  (mutex L = false → 0 < size L →
        ∃ v w', list_pop (Some a) w = Ok v w' ∧
                slots L !! 0%nat = Some v ∧ repairs_at L 0 w w') ∧
  (∀ j itj, mutex L = false →
        iters w !! j = Some itj → i_magic itj = LIST_ITR_MAGIC →
        i_list itj = Some a → prev itj ≠ pos itj → 0 <= prev itj < size L →
        ∃ v w', list_remove (Some j) w = Ok v w' ∧
                slots L !! Z.to_nat (prev itj) = Some v ∧
                repairs_at L (prev itj) w w') ∧
  (∀ f key k, mutex L = false → key ≠ NULL →
        first_index (λ e, negb (f e key =? 0)) (elements L) k →
        ∃ v w', list_remove_first (Some a) f key w = Ok v w' ∧
                elements L !! Z.to_nat k = Some v ∧ repairs_at L k w w') ∧
  (∀ key k, mutex L = false → key ≠ NULL →
        first_index (λ e, e =? key) (elements L) k →
        ∃ w', list_delete_ptr (Some a) key w = Ok 1 w' ∧ repairs_at L k w w') ∧
  (∀ f key, mutex L = false →
        ∃ n w' L', list_delete_all (Some a) f key w = Ok n w' ∧
                   lists w' !! a = Some L' ∧
                   removals (λ e, negb (f e key =? 0)) (iNext L)
                            (elements L) (iters w) (elements L') (iters w') ∧
                   ∀ i it, i ∈ iNext L → iters w !! i = Some it →
                     iters w' !! i =
                       Some (foldl (λ it k, destroy_repair k it) it
                               (removal_indices (λ e, negb (f e key =? 0))
                                                (elements L) 0))).
Proof.
  intros Hok. pose proof Hok as [_ _ _ Hsz Hc _].
  repeat apply conj.
  - intros k Hlk Hk.
    destruct (_list_node_destroy_run w a L k) as (v & Hv & Hrun); [done..|].
    exists v. eexists. split; [exact Hrun|]. split; [done|].
    apply (after_removal_repairs a). lia.
  - intros Hu Hpos.
    destruct (list_dequeue_run w a L) as (v & Hv & Hrun); [done..|].
    exists v. eexists. split; [exact Hrun|]. split; [done|].
    apply after_removal_repairs. lia.
  - intros Hu Hpos.
    destruct (list_pop_run w a L) as (v & Hv & Hrun); [done..|].
    exists v. eexists. split; [exact Hrun|]. split; [done|].
    apply after_removal_repairs. lia.
  - intros j itj Hu Hj Hjm Hjl Hne Hp.
    destruct (list_remove_run w j itj a L) as (v & Hv & Hrun); [done..|].
    exists v. eexists. split; [exact Hrun|]. split; [done|].
    apply after_removal_repairs. lia.
  - intros f key k Hu Hkey Hfirst.
    pose proof (first_index_bound _ _ _ _ _ Hok Hfirst) as Hk.
    destruct (list_remove_first_run w a L f key k) as (v & Hv & Hrun); [done..|].
    exists v. eexists. split; [exact Hrun|]. split; [done|].
    apply after_removal_repairs. lia.
  - intros key k Hu Hkey Hfirst.
    pose proof (first_index_bound _ _ _ _ _ Hok Hfirst) as Hk.
    eexists. split; [by apply list_delete_ptr_run|].
    intros i it Hi Hit. rewrite iters_destructor_called.
    apply (after_removal_repairs a L k w); (done || lia).
  - intros f key Hu.
    destruct (list_delete_all_run w a L f key Hok Hu) as (n & w' & L' & Hrun & Hl' & Hrem).
    exists n, w', L'. split; [done|]. split; [done|]. split; [done|].
    by apply (removals_determined _ _ _ _ _ _ Hrem).
Qed.

(** ** What does hold of the iterator indices (around C4) *)

(** An insertion keeps the indices of every iterator in order and within
    the new size. *)
Lemma create_repair_indices_ok p n it :
  0 <= p <= n → n < 2 ^ 31 → indices_ok n it →
  indices_ok (n + 1) (create_repair p it).
Proof.
  intros Hp Hn (H0 & H1 & H2). unfold indices_ok, create_repair.
  rewrite u32_small by lia.
  destruct (Z.eqb_spec (prev it) p); destruct (Z.eqb_spec (pos it) p);
    repeat (progress (msimpl; rewrite ?Z.eqb_refl));
    repeat (match goal with
            | |- context [?x =? ?y] => destruct (Z.eqb_spec x y)
            end); msimpl; lia.
Qed.

(** A removal keeps them in order, and within the size it found -- not
    within the size it leaves, which is what C4 asks. *)
Lemma destroy_repair_indices_ordered p n it :
  0 <= p < n → n < 2 ^ 31 → indices_ok n it →
  indices_ok n (destroy_repair p it).
Proof.
  intros Hp Hn (H0 & H1 & H2). unfold indices_ok, destroy_repair.
  rewrite u32_small by lia.
  destruct (Z.eqb_spec (pos it) (p + 1)); [msimpl; lia|].
  destruct (Z.eqb_spec (prev it) (p + 1)); msimpl; lia.
Qed.

(** An iterator that stands at or before the slot behind the removed one
    stays within the size the removal leaves. *)
Lemma destroy_repair_indices_ok p n it :
  0 <= p < n → n < 2 ^ 31 → indices_ok n it → pos it <= p + 1 →
  indices_ok (n - 1) (destroy_repair p it).
Proof.
  intros Hp Hn (H0 & H1 & H2) Hnear. unfold indices_ok, destroy_repair.
  rewrite u32_small by lia.
  destruct (Z.eqb_spec (pos it) (p + 1)); [msimpl; lia|].
  destruct (Z.eqb_spec (prev it) (p + 1)); msimpl; lia.
Qed.

Lemma reset_iterator_indices_ok n it : 0 <= n → indices_ok n (reset_iterator it).
Proof. intros Hn. unfold indices_ok. cbn. lia. Qed.

(** ** A failed growth (around C5) *)

Lemma grow_capacity_pos c : 0 <= c < 2 ^ 31 → 0 < grow_capacity c < 2 ^ 32 ∧ grow_capacity c ≠ c.
Proof.
  intros H. unfold grow_capacity.
  destruct (Z.gtb_spec c 1); rewrite u32_small by lia; lia.
Qed.

Lemma list_realloc_fail p n w :
  0 < n → realloc_fails w →
  list_realloc p n w = Ok None (set_tape (tail (realloc_tape w)) w).
Proof.
  intros Hn Hf. unfold list_realloc, realloc_fails in *.
  destruct (Z.leb_spec n 0); [lia|].
  destruct w as [ls its tape lg]. cbn in *.
  destruct tape as [|[|] t]; cbn in *; done.
Qed.

(** On a full list whose growth the allocator refuses, [list_append]
    returns [NULL]; the record keeps its size but has the new capacity and
    no array. *)
Lemma list_append_alloc_failure w a L x :
  list_ok w a L → mutex L = false → x ≠ NULL →
  size L = capacity L → realloc_fails w →
  list_append (Some a) x w =
    Ok NULL (set_tape (tail (realloc_tape w)) (with_list a (growth_failed L) w)) ∧
  capacity (growth_failed L) ≠ capacity L ∧ elements (growth_failed L) = [].
Proof.
  intros Hok Hu Hx Hfull Hfail. pose proof Hok as [Hl Hm Hs Hsz Hc Hch].
  split; [|split].
  - unfold list_append, _list_append_locked. msimpl.
    rewrite xassert_true, xassert_run by by apply not_NULL.
    rewrite (deref_list_run a L) by done. msimpl.
    rewrite (slurm_mutex_lock_run w a L) by done.
    rewrite (assert_list_magic_run a (set_mutex true L))
      by (done || cbn; apply lookup_insert_eq).
    erewrite get_list_run by (cbn; apply lookup_insert_eq).
    unfold _list_node_create. msimpl.
    rewrite (assert_locked_run a (set_mutex true L))
      by (done || cbn; apply lookup_insert_eq).
    erewrite get_list_run by (cbn; apply lookup_insert_eq).
    rewrite xassert_run by (cbn; lia).
    rewrite xassert_run by by apply not_NULL.
    cbn [size set_mutex].
    destruct (Z.ltb_spec (size L) 0); [lia|].
    destruct (Z.gtb_spec (size L) (size L)); [lia|]. msimpl.
    unfold _list_grow. msimpl.
    rewrite (assert_locked_run a (set_mutex true L))
      by (done || cbn; apply lookup_insert_eq).
    erewrite get_list_run by (cbn; apply lookup_insert_eq).
    cbn [size capacity set_mutex].
    destruct (Z.eqb_spec (size L) (capacity L)); [|lia].
    fold (grow_capacity (capacity L)). unfold put_list, mod_list. msimpl.
    rewrite list_realloc_fail by (done || apply grow_capacity_pos; lia).
    msimpl. erewrite get_list_run by apply lookup_insert_eq. unfold put_list. msimpl.
    destruct (Z.ltb_spec (-1) 0); [|lia].
    erewrite slurm_mutex_unlock_run by (cbn; apply lookup_insert_eq).
    unfold with_list, growth_failed. cbn. rewrite !insert_insert_eq.
    do 3 f_equal. destruct L; cbn in *. by subst.
  - unfold growth_failed. cbn. apply grow_capacity_pos. lia.
  - unfold elements, growth_failed, slots. cbn. by rewrite take_nil.
Qed.

(** ** list_flush (around C6) *)

Lemma slots_seqZ (sl : list Node) n :
  0 <= n <= Z.of_nat (length sl) →
  (λ k, default NULL (sl !! Z.to_nat k)) <$> seqZ 0 n = take (Z.to_nat n) sl.
Proof.
  intros Hn. apply list_eq. intros i. rewrite list_lookup_fmap.
  destruct (decide (i < Z.to_nat n)%nat) as [Hlt|Hge].
  - rewrite lookup_seqZ_lt by lia. cbn. rewrite lookup_take_lt by lia.
    replace (Z.to_nat (0 + Z.of_nat i)) with i by lia.
    destruct (lookup_lt_is_Some_2 sl i) as [v Hv]; [lia|]. by rewrite Hv.
  - rewrite lookup_seqZ_ge by lia. cbn. by rewrite lookup_take_ge by lia.
Qed.

Lemma flush_loop_run a L f :
  ∀ idx w n,
    lists w !! a = Some L →
    (∀ k, k ∈ idx → 0 <= k < Z.of_nat (length (slots L))) →
    0 <= n → n + Z.of_nat (length idx) < 2 ^ 31 →
    flush_loop a f idx n w =
      Ok (n + Z.of_nat (length idx))
         (set_log (fDel_log w ++
                   ((λ k, (f, default NULL (slots L !! Z.to_nat k))) <$> idx)) w).
Proof.
  induction idx as [|k rest IH]; intros w n Hl Hidx Hn Hb.
  - cbn. rewrite app_nil_r, Z.add_0_r. by destruct w.
  - assert (0 <= k < Z.of_nat (length (slots L))) as Hk
      by (apply Hidx, list_elem_of_here).
    destruct (lookup_lt_is_Some_2 (slots L) (Z.to_nat k)) as [v Hv]; [lia|].
    cbn [flush_loop length fmap list_fmap]. msimpl.
    rewrite (arr_read_run a L (slots L) k v) by (done || lia || by eapply slots_arr).
    unfold call_fDel. cbn [length] in Hb.
    rewrite IH; [|done|intros j Hj; by apply Hidx, list_elem_of_further|
                 rewrite to_int_small; lia..].
    rewrite to_int_small by lia. rewrite Hv. cbn [default set_log fDel_log].
    rewrite <- app_assoc. f_equal. lia.
Qed.

Lemma flush_tail_run w a L (n : Z) g :
  list_ok w a L → mutex L = false →
  (mod_list a (set_size 0) ;;
   for_each_iterator reset_iterator (iNext L) ;;
   slurm_mutex_unlock a ;;
   ret n) (set_log g (with_list a (set_mutex true L) w))
  = Ok n (set_iters (walk reset_iterator (iNext L) (iters w))
            (set_log g (with_list a (set_size 0 L) w))).
Proof.
  intros [Hl Hm Hs Hsz Hc Hch] Hu. unfold mod_list, put_list. msimpl.
  erewrite get_list_run by (cbn; apply lookup_insert_eq). msimpl.
  rewrite for_each_iterator_run;
    [|apply reset_iterator_magic|by eapply chain_ok_iters].
  erewrite slurm_mutex_unlock_run by (cbn; apply lookup_insert_eq).
  unfold with_list. cbn. rewrite !insert_insert_eq.
  do 3 f_equal. destruct L; cbn in *. by subst.
Qed.

Lemma set_log_id w : set_log (fDel_log w) w = w.
Proof. by destruct w. Qed.

(** What [list_flush] does on a well-formed list: the destructor, if there
    is one, is called once on each resident element, in index order; the
    list is left empty; every chained iterator is reset.  The count it
    returns is the number of destructor calls. *)
Lemma list_flush_run w a L :
  list_ok w a L → mutex L = false →
  list_flush (Some a) w =
    Ok (if fDel L =? NULL then 0 else size L)
       (set_iters (walk reset_iterator (iNext L) (iters w))
          (set_log (fDel_log w ++
                    (if fDel L =? NULL then []
                     else (λ v, (fDel L, v)) <$> elements L))
             (with_list a (set_size 0 L) w))).
Proof.
  intros Hok Hu. pose proof Hok as [Hl Hm Hs Hsz Hc Hch].
  unfold list_flush. msimpl.
  rewrite (enter_run w a L) by done.
  erewrite get_list_run by (cbn; apply lookup_insert_eq). msimpl.
  destruct (Z.eqb_spec (fDel L) NULL) as [E|N]; cbn [negb].
  - rewrite app_nil_r.
    pose proof (flush_tail_run w a L 0 (fDel_log w) Hok Hu) as Hrest.
    rewrite <- (set_log_id (with_list a (set_mutex true L) w)).
    exact Hrest.
  - rewrite (flush_loop_run a (set_mutex true L));
      [|cbn; apply lookup_insert_eq
       |intros k Hk; apply elem_of_seqZ in Hk; unfold slots in *; cbn; lia
       |lia|rewrite length_seqZ; lia].
    rewrite length_seqZ, Z.add_0_l, Z2Nat.id by lia.
    pose proof (slots_seqZ (slots L) (size L) ltac:(lia)) as Hmap.
    replace ((λ k, (fDel L, default NULL (slots (set_mutex true L) !! Z.to_nat k)))
               <$> seqZ 0 (size L))
      with ((λ v, (fDel L, v)) <$> elements L).
    + exact (flush_tail_run w a L (size L) _ Hok Hu).
    + unfold elements. rewrite <- Hmap, <- list_fmap_compose. done.
Qed.

(** ** list_shallow_copy (around C8) *)

Lemma fresh_list_addr w a L :
  lists w !! a = Some L →
  fresh (dom (lists w)) ≠ a ∧ lists w !! fresh (dom (lists w)) = None.
Proof.
  intros Hl. pose proof (is_fresh (dom (lists w))) as Hf. split.
  - intros E. apply Hf. rewrite E. apply elem_of_dom. by eexists.
  - by apply not_elem_of_dom.
Qed.

Ltac look := cbn [lists set_lists with_list]; by simplify_map_eq.

Lemma world_eq w1 w2 :
  lists w1 = lists w2 → iters w1 = iters w2 →
  realloc_tape w1 = realloc_tape w2 → fDel_log w1 = fDel_log w2 → w1 = w2.
Proof. destruct w1, w2. cbn. by intros -> -> -> ->. Qed.

(** A list that is not empty is copied, when the allocator serves the
    request: the copy is a new record with no destructor and no iterators
    that holds the same elements in the same order; the original is as it
    was. *)
Lemma list_shallow_copy_run w a L :
  list_ok w a L → mutex L = false → 0 < size L → realloc_succeeds w →
  list_shallow_copy (Some a) w =
    Ok (Some (fresh (dom (lists w))))
       (set_tape (tail (realloc_tape w))
          (with_list (fresh (dom (lists w))) (copy_of L) w)).
Proof.
  intros Hok Hu Hpos Hre. pose proof Hok as [Hl Hm Hs Hsz Hc Hch].
  destruct (fresh_list_addr w a L Hl) as [Hne Hnone].
  set (m := fresh (dom (lists w))) in *.
  unfold list_shallow_copy, list_create, list_alloc. msimpl. fold m.
  unfold put_list at 1. msimpl.
  rewrite xassert_true.
  rewrite (assert_list_magic_run a L) by (done || look).
  rewrite (deref_list_run a L) by look. msimpl.
  rewrite (slurm_mutex_lock_run _ a L) by (done || look).
  erewrite (deref_list_run m) by look. msimpl.
  erewrite (slurm_mutex_lock_run _ m) by (done || look).
  erewrite (get_list_run a) by look.
  cbn [size set_mutex]. rewrite to_int_small by lia.
  unfold _list_reserve. msimpl.
  erewrite (assert_locked_run m) by (done || look).
  rewrite xassert_run by (by destruct (Z.eqb_spec (size L) 0); [lia|]).
  erewrite (get_list_run m) by look.
  cbn [capacity set_mutex]. change (to_int 0) with 0.
  destruct (Z.leb_spec (size L) 0); [lia|].
  rewrite list_realloc_run by (done || lia). unfold mod_list, put_list. msimpl.
  erewrite (get_list_run m) by look. msimpl.
  erewrite (get_list_run m) by look. msimpl.
  rewrite u32_small, to_int_small by lia.
  destruct (Z.ltb_spec (size L) 0); [lia|]. msimpl.
  erewrite (get_list_run m) by look. msimpl.
  unfold memcpy_arr. destruct (Z.eqb_spec (size L) 0); [lia|].
  destruct (Z.ltb_spec (size L) 0); [lia|]. msimpl.
  erewrite (get_list_run m) by look.
  erewrite (get_list_run a) by look.
  cbn [arr set_arr set_size set_capacity set_mutex default].
  destruct (lookup_lt_is_Some_2 (slots L) 0%nat) as [v0 Hv0]; [lia|].
  rewrite (slots_arr _ _ _ Hv0).
  rewrite length_resize.
  destruct (Z.leb_spec (size L) (Z.of_nat (Z.to_nat (size L)))); [|lia].
  destruct (Z.leb_spec (size L) (Z.of_nat (length (slots L)))); [|lia].
  unfold put_list. msimpl.
  erewrite (slurm_mutex_unlock_run _ m) by look.
  erewrite (slurm_mutex_unlock_run _ a) by look.
  f_equal. apply world_eq; cbn; try done.
  rewrite drop_ge, app_nil_r by (rewrite length_resize; lia).
  apply map_eq. intros j.
  destruct (decide (j = m)) as [->|Hjm]; [by simplify_map_eq|].
  destruct (decide (j = a)) as [->|Hja]; simplify_map_eq; [|done].
  f_equal. destruct L; cbn in *. by subst.
Qed.

Lemma copy_of_ok w a L :
  list_ok w a L → 0 < size L →
  elements (copy_of L) = elements L ∧ fDel (copy_of L) = NULL ∧
  iNext (copy_of L) = [] ∧
  list_ok (set_tape (tail (realloc_tape w))
             (with_list (fresh (dom (lists w))) (copy_of L) w))
          (fresh (dom (lists w))) (copy_of L).
Proof.
  intros [Hl Hm Hs Hsz Hc Hch] Hpos.
  assert (Z.of_nat (length (elements L)) = size L) as Hlen
    by (apply length_elements; lia).
  split; [|split; [done|split; [done|]]].
  - unfold elements at 1. unfold copy_of, slots. cbn.
    apply take_ge. lia.
  - split; try done.
    + cbn. apply lookup_insert_eq.
    + cbn. lia.
    + cbn. lia.
    + intros i Hi. by apply elem_of_nil in Hi.
Qed.

(** A change to the list at [a] -- an insertion, a removal -- leaves the
    record of any other list, a copy for one, as it was. *)
Lemma other_list_untouched a b L p x w :
  b ≠ a →
  lists (after_insertion a L p x w) !! b = lists w !! b ∧
  lists (after_removal a L p w) !! b = lists w !! b.
Proof. intros Hne. cbn. by rewrite !lookup_insert_ne. Qed.

(** * Further properties of the code *)

(** ** The read-only queries *)

Lemma list_peek_run w a L :
  list_ok w a L → mutex L = false →
  list_peek (Some a) w = Ok (default NULL (head (elements L))) w.
Proof.
  intros Hok Hu. pose proof Hok as [Hl Hm Hs Hsz Hc Hch].
  unfold list_peek. msimpl. rewrite (enter_run w a L) by done.
  erewrite get_list_run by (cbn; apply lookup_insert_eq). msimpl.
  rewrite head_lookup. unfold elements.
  destruct (Z.gtb_spec (size L) 0) as [Hpos|Hz].
  - destruct (lookup_lt_is_Some_2 (slots L) 0%nat) as [v Hv]; [lia|].
    rewrite lookup_take_lt, Hv by lia.
    rewrite (arr_read_run a (set_mutex true L) (slots L) 0 v);
      [|cbn; apply lookup_insert_eq|cbn; by eapply slots_arr|lia|done].
    by rewrite unlock_same.
  - rewrite lookup_take_ge by lia. msimpl. by rewrite unlock_same.
Qed.

Lemma list_peek_last_run w a L :
  list_ok w a L → mutex L = false →
  list_peek_last (Some a) w = Ok (default NULL (last (elements L))) w.
Proof.
  intros Hok Hu. pose proof Hok as [Hl Hm Hs Hsz Hc Hch].
  unfold list_peek_last. msimpl. rewrite (enter_run w a L) by done.
  erewrite get_list_run by (cbn; apply lookup_insert_eq). msimpl.
  rewrite last_lookup. unfold elements. rewrite length_take.
  destruct (Z.gtb_spec (size L) 0) as [Hpos|Hz].
  - rewrite u32_small by lia.
    destruct (lookup_lt_is_Some_2 (slots L) (Z.to_nat (size L - 1))) as [v Hv]; [lia|].
    replace (Init.Nat.pred (Z.to_nat (size L) `min` length (slots L)))
      with (Z.to_nat (size L - 1)) by lia.
    rewrite lookup_take_lt, Hv by lia.
    rewrite (arr_read_run a (set_mutex true L) (slots L) (size L - 1) v);
      [|cbn; apply lookup_insert_eq|cbn; by eapply slots_arr|lia|done].
    by rewrite unlock_same.
  - rewrite lookup_take_ge by lia. msimpl. by rewrite unlock_same.
Qed.

Lemma list_is_empty_run w a L :
  list_ok w a L → mutex L = false →
  list_is_empty (Some a) w = Ok (size L =? 0) w.
Proof.
  intros Hok Hu. pose proof Hok as [Hl Hm Hs Hsz Hc Hch].
  unfold list_is_empty. msimpl. rewrite (enter_run w a L) by done.
  erewrite get_list_run by (cbn; apply lookup_insert_eq). msimpl.
  rewrite unlock_same by done. by rewrite to_int_small by lia.
Qed.

Lemma elements_nil_size L :
  0 <= size L <= Z.of_nat (length (slots L)) →
  elements L = [] ↔ size L = 0.
Proof.
  intros H. split.
  - intros E. apply (f_equal length) in E. unfold elements in E.
    rewrite length_take in E. cbn in E. lia.
  - intros E. unfold elements. rewrite E. done.
Qed.

(** X1.  On a well-formed list [list_peek] returns the first resident
    element and [list_peek_last] the last, [NULL] when there is none;
    [list_is_empty] answers true exactly when no element is resident; and
    none of the three changes anything. *)
Theorem X1_queries_read_only w a L :
  list_ok w a L → mutex L = false →
  list_peek (Some a) w = Ok (default NULL (head (elements L))) w ∧
  list_peek_last (Some a) w = Ok (default NULL (last (elements L))) w ∧
  ∃ b, list_is_empty (Some a) w = Ok b w ∧ (b = true ↔ elements L = []).
Proof.
  intros Hok Hu. pose proof Hok as [_ _ Hs Hsz _ _].
  split; [by apply list_peek_run|]. split; [by apply list_peek_last_run|].
  exists (size L =? 0). split; [by apply list_is_empty_run|].
  rewrite elements_nil_size by lia. apply Z.eqb_eq.
Qed.

(** ** Removal and the elements *)

Lemma list_pop_empty w a L :
  list_ok w a L → mutex L = false → size L = 0 →
  list_pop (Some a) w = Ok NULL w.
Proof.
  intros Hok Hu Hz. pose proof Hok as [Hl Hm Hs Hsz Hc Hch].
  unfold list_pop, _list_pop_locked, _list_node_destroy. msimpl.
  rewrite (enter_run w a L) by done.
  rewrite (assert_locked_run a (set_mutex true L))
    by (done || cbn; apply lookup_insert_eq).
  erewrite get_list_run by (cbn; apply lookup_insert_eq). msimpl.
  rewrite xassert_run by (cbn; rewrite Hz; done).
  rewrite Hz. cbn [Z.ltb Z.geb Z.compare orb]. msimpl.
  by rewrite unlock_same.
Qed.

(** X2.  [list_pop] and [list_dequeue] of an empty list return [NULL] and
    change nothing.  Of a list that is not empty they return its first
    element and leave the others, in order, in an array of the same
    capacity; the list stays well formed. *)
Theorem X2_pop_takes_the_head w a L :
  list_ok w a L → mutex L = false →
  (size L = 0 →
     list_pop (Some a) w = Ok NULL w ∧ list_dequeue (Some a) w = Ok NULL w) ∧
  (0 < size L →
     ∃ v w' L',
       list_pop (Some a) w = Ok v w' ∧ list_dequeue (Some a) w = Ok v w' ∧
       head (elements L) = Some v ∧
       lists w' !! a = Some L' ∧ elements L' = tail (elements L) ∧
       capacity L' = capacity L ∧ list_ok w' a L' ∧ mutex L' = false).
Proof.
  intros Hok Hu. split.
  - intros Hz. split; by apply (list_pop_empty w a L).
  - intros Hpos. pose proof Hok as [_ _ Hs Hsz _ _].
    destruct (list_pop_run w a L Hok Hu Hpos) as (v & Hv & Hrun).
    exists v, (after_removal a L 0 w), (destroyed 0 L).
    split; [done|]. split; [done|].
    split; [rewrite head_lookup, elements_lookup by lia; done|].
    split; [cbn; apply lookup_insert_eq|].
    split.
    { rewrite (elements_destroyed w a) by (done || lia).
      change (Z.to_nat 0) with 0%nat. by destruct (elements L). }
    split; [done|].
    split; [apply list_ok_after_removal; (done || lia)|done].
Qed.

(** ** Insertion and the elements *)

Lemma created_fields p x L :
  mutex (created p x L) = mutex L ∧ size (created p x L) = size L + 1 ∧
  fDel (created p x L) = fDel L ∧ iNext (created p x L) = iNext L ∧
  magic (created p x L) = magic L.
Proof. unfold created, grown. cbn. by destruct (_ =? _). Qed.

Lemma created_capacity L p x :
  0 <= capacity L < 2 ^ 30 →
  capacity (created p x L) =
    if size L =? capacity L then Z.max 1 (2 * capacity L) else capacity L.
Proof.
  intros Hc. unfold created, grown. cbn.
  destruct (size L =? capacity L); cbn; [|done].
  destruct (grow_capacity_small (capacity L) Hc) as [-> _].
  destruct (Z.gtb_spec (capacity L) 1); lia.
Qed.

(** X3.  A successful [list_append] or [list_enqueue] of [x] returns [x] and
    leaves [x] behind the elements there were; [list_prepend] and
    [list_push] leave it in front of them.  The list stays well formed. *)
Theorem X3_insertion_at_the_ends w a L x :
  list_ok w a L → mutex L = false → can_grow w L → x ≠ NULL →
  ∃ wa La wp Lp,
    list_append (Some a) x w = Ok x wa ∧ list_enqueue (Some a) x w = Ok x wa ∧
    lists wa !! a = Some La ∧ elements La = elements L ++ [x] ∧
    list_ok wa a La ∧ mutex La = false ∧
    list_prepend (Some a) x w = Ok x wp ∧ list_push (Some a) x w = Ok x wp ∧
    lists wp !! a = Some Lp ∧ elements Lp = x :: elements L ∧
    list_ok wp a Lp ∧ mutex Lp = false.
Proof.
  intros Hok Hu Hg Hx. pose proof Hok as [_ _ Hs Hsz _ _].
  exists (after_insertion a L (size L) x w), (created (size L) x L),
         (after_insertion a L 0 x w), (created 0 x L).
  split; [by apply list_append_run|]. split; [by apply list_enqueue_run|].
  split; [cbn; apply lookup_insert_eq|].
  split.
  { rewrite (elements_created w a) by (done || lia).
    rewrite take_ge, drop_ge; [done|..]; unfold elements; rewrite length_take; lia. }
  split; [apply list_ok_after_insertion; (done || lia)|].
  split; [by rewrite (proj1 (created_fields _ _ _))|].
  split; [by apply list_prepend_run|]. split; [by apply list_push_run|].
  split; [cbn; apply lookup_insert_eq|].
  split.
  { rewrite (elements_created w a) by (done || lia).
    change (Z.to_nat 0) with 0%nat. by rewrite take_0, drop_0. }
  split; [apply list_ok_after_insertion; (done || lia)|].
  by rewrite (proj1 (created_fields _ _ _)).
Qed.

(** X4.  [list_insert] through an iterator puts [x] in at the iterator's
    last yielded index: the elements before that index stay, [x] follows,
    then the rest.  Through an iterator that has not yielded this is the
    head of the list. *)
Theorem X4_insert_before_last_yielded w a L i it x :
  list_ok w a L → mutex L = false → can_grow w L → x ≠ NULL →
  i ∈ iNext L → iters w !! i = Some it → i_list it = Some a →
  0 <= prev it <= size L →
  ∃ w' L',
    list_insert (Some i) x w = Ok x w' ∧
    lists w' !! a = Some L' ∧
    elements L' = take (Z.to_nat (prev it)) (elements L) ++
                  x :: drop (Z.to_nat (prev it)) (elements L) ∧
    list_ok w' a L'.
Proof.
  intros Hok Hu Hg Hx Hi Hit Hil Hp.
  exists (after_insertion a L (prev it) x w), (created (prev it) x L).
  split.
  { apply list_insert_run; try done. exact (chain_magic w a L i it Hok Hi Hit). }
  split; [cbn; apply lookup_insert_eq|].
  split; [by apply (elements_created w a)|].
  by apply list_ok_after_insertion.
Qed.

(** X5.  An insertion into a list with a free slot makes no request to the
    allocator and keeps the capacity; into a full list it makes one request
    and, served, leaves the capacity at [max(1, 2 * capacity)].  Either way
    the size grows by one. *)
Theorem X5_growth_doubles_when_full w a L x :
  list_ok w a L → mutex L = false → can_grow w L → x ≠ NULL →
  ∃ w' L',
    list_append (Some a) x w = Ok x w' ∧ lists w' !! a = Some L' ∧
    size L' = size L + 1 ∧
    (size L < capacity L →
       capacity L' = capacity L ∧ realloc_tape w' = realloc_tape w) ∧
    (size L = capacity L →
       capacity L' = Z.max 1 (2 * capacity L) ∧
       realloc_tape w' = tail (realloc_tape w)).
Proof.
  intros Hok Hu Hg Hx. pose proof Hok as [_ _ Hs Hsz Hc _].
  exists (after_insertion a L (size L) x w), (created (size L) x L).
  split; [by apply list_append_run|]. split; [cbn; apply lookup_insert_eq|].
  split; [apply created_fields|].
  split.
  - intros Hlt.
    assert ((size L =? capacity L) = false) as E by (apply Z.eqb_neq; lia).
    unfold after_insertion, created, grown, grown_tape. rewrite E. done.
  - intros Hfull.
    assert ((size L =? capacity L) = true) as E by (apply Z.eqb_eq; lia).
    destruct Hg as [?|[_ Hcap]]; [lia|].
    unfold after_insertion, created, grown, grown_tape. rewrite E. cbn.
    destruct (grow_capacity_small (capacity L)) as [-> _]; [lia|].
    split; [|done]. destruct (Z.gtb_spec (capacity L) 1); lia.
Qed.

(** X6.  What [list_push] puts on a list, the next [list_pop] returns,
    leaving the elements that were there before. *)
Theorem X6_push_then_pop w a L x :
  list_ok w a L → mutex L = false → can_grow w L → x ≠ NULL →
  ∃ w1 w2 L2,
    list_push (Some a) x w = Ok x w1 ∧ list_pop (Some a) w1 = Ok x w2 ∧
    lists w2 !! a = Some L2 ∧ elements L2 = elements L.
Proof.
  intros Hok Hu Hg Hx. pose proof Hok as [_ _ Hs Hsz _ _].
  assert (list_ok (after_insertion a L 0 x w) a (created 0 x L)) as Hok1
    by (apply list_ok_after_insertion; (done || lia)).
  destruct (created_fields 0 x L) as (Hmu & Hsz1 & _).
  assert (elements (created 0 x L) = x :: elements L) as Hel.
  { rewrite (elements_created w a) by (done || lia).
    change (Z.to_nat 0) with 0%nat. by rewrite take_0, drop_0. }
  destruct (list_pop_run _ a (created 0 x L) Hok1) as (v & Hv & Hrun);
    [congruence|lia|].
  assert (v = x) as ->.
  { rewrite <- elements_lookup in Hv by lia. rewrite Hel in Hv. cbn in Hv. congruence. }
  exists (after_insertion a L 0 x w). eexists. exists (destroyed 0 (created 0 x L)).
  split; [by apply list_push_run|]. split; [exact Hrun|].
  split; [cbn; apply lookup_insert_eq|].
  rewrite (elements_destroyed _ a) by (done || lia). by rewrite Hel.
Qed.

(** ** Iterators: creation, traversal, reset, destruction *)

Lemma list_ok_put_iter w a L i it it' :
  list_ok w a L → iters w !! i = Some it → i_magic it' = i_magic it →
  list_ok (set_iters (<[i := it']> (iters w)) w) a L.
Proof.
  intros [Hl Hm Hs Hsz Hc Hch] Hi Hmag. split; try done.
  intros j Hj. destruct (Hch j Hj) as (itj & Hitj & Hmj). cbn.
  destruct (decide (i = j)) as [->|Hne].
  - exists it'. rewrite lookup_insert_eq. split; [done|congruence].
  - exists itj. by rewrite lookup_insert_ne.
Qed.

Lemma next_state_fields L it :
  i_magic (next_state L it) = i_magic it ∧ i_list (next_state L it) = i_list it.
Proof. unfold next_state, next_prev. by repeat case_match. Qed.

Lemma next_state_stands_at L it j :
  stands_at j it → 0 <= j < size L → size L < 2 ^ 31 →
  stands_at (j + 1) (next_state L it).
Proof.
  intros [Hp Hq] Hj Hs. unfold stands_at, next_state, next_prev. rewrite Hp.
  destruct (Z.ltb_spec j (size L)); [|lia].
  destruct (Z.eqb_spec (prev it) j); msimpl; rewrite ?u32_small by lia; lia.
Qed.

Lemma next_n_run a L i :
  ∀ n w it j,
    list_ok w a L → mutex L = false →
    iters w !! i = Some it → i_magic it = LIST_ITR_MAGIC → i_list it = Some a →
    stands_at j it → 0 <= j → j + Z.of_nat n <= size L →
    ∃ w' it',
      next_n n (Some i) w = Ok (take n (drop (Z.to_nat j) (elements L))) w' ∧
      list_ok w' a L ∧ iters w' !! i = Some it' ∧
      i_magic it' = LIST_ITR_MAGIC ∧ i_list it' = Some a ∧
      stands_at (j + Z.of_nat n) it'.
Proof.
  induction n as [|n IH]; intros w it j Hok Hu Hi Him Hil Hst Hj Hn.
  - exists w, it. cbn. rewrite Z.add_0_r. by rewrite take_0.
  - pose proof Hok as [_ _ Hs Hsz Hc _]. pose proof Hst as [Hp _].
    destruct (next_state_fields L it) as [Hmag' Hlist'].
    destruct (IH (set_iters (<[i := next_state L it]> (iters w)) w)
                 (next_state L it) (j + 1)) as (w' & it' & Hrun & Hok' & Hi' & Him' & Hil' & Hst');
      [by eapply list_ok_put_iter|done|cbn; apply lookup_insert_eq|congruence|congruence
      |apply next_state_stands_at; (done || lia)|lia|lia|].
    exists w', it'. cbn [next_n]. msimpl.
    rewrite (list_next_run w i it a L) by (done || lia).
    rewrite Hrun.
    split; [|split; [done|split; [done|split; [done|split; [done|]]]]].
    + f_equal. rewrite next_value_elements by lia. rewrite Hp.
      destruct (lookup_lt_is_Some_2 (elements L) (Z.to_nat j)) as [v Hv].
      { unfold elements. rewrite length_take. lia. }
      rewrite Hv. cbn [default].
      rewrite (drop_S (elements L) v (Z.to_nat j) Hv). cbn [take].
      replace (Z.to_nat (j + 1)) with (S (Z.to_nat j)) by lia. done.
    + replace (j + Z.of_nat (S n)) with (j + 1 + Z.of_nat n) by lia. done.
Qed.

Lemma list_next_exhausted w i it a L :
  list_ok w a L → mutex L = false →
  iters w !! i = Some it → i_magic it = LIST_ITR_MAGIC → i_list it = Some a →
  size L <= pos it →
  ∃ w', list_next (Some i) w = Ok NULL w' ∧ lists w' = lists w.
Proof.
  intros Hok Hu Hi Him Hil Hp. pose proof Hok as [_ _ _ Hsz _ _].
  eexists. rewrite (list_next_run w i it a L) by (done || lia).
  unfold next_value. destruct (Z.ltb_spec (pos it) (size L)); [lia|]. done.
Qed.

Lemma list_iterator_create_run w a L :
  list_ok w a L → mutex L = false →
  list_iterator_create (Some a) w =
    Ok (Some (fresh (dom (iters w))))
       (set_iters (<[fresh (dom (iters w)) :=
                       mk_listIterator LIST_ITR_MAGIC (Some a) 0 0]> (iters w))
          (with_list a (set_iNext (fresh (dom (iters w)) :: iNext L) L) w)).
Proof.
  intros [Hl Hm Hs Hsz Hc Hch] Hu.
  unfold list_iterator_create, list_iterator_alloc. msimpl.
  rewrite xassert_true. msimpl. unfold put_iter at 1. msimpl.
  rewrite (deref_list_run a L) by done. msimpl.
  rewrite (slurm_mutex_lock_run _ a L) by done.
  rewrite (assert_list_magic_run a (set_mutex true L))
    by (done || cbn; apply lookup_insert_eq).
  unfold mod_list, put_list. msimpl.
  erewrite get_list_run by (cbn; apply lookup_insert_eq). msimpl.
  erewrite slurm_mutex_unlock_run by (cbn; apply lookup_insert_eq).
  f_equal. apply world_eq; cbn; try done.
  - rewrite !insert_insert_eq. do 2 f_equal. destruct L; cbn in *. by subst.
  - by rewrite insert_insert_eq.
Qed.

Lemma list_ok_iterator_created w a L :
  list_ok w a L →
  list_ok (set_iters (<[fresh (dom (iters w)) :=
                          mk_listIterator LIST_ITR_MAGIC (Some a) 0 0]> (iters w))
             (with_list a (set_iNext (fresh (dom (iters w)) :: iNext L) L) w))
          a (set_iNext (fresh (dom (iters w)) :: iNext L) L).
Proof.
  intros [Hl Hm Hs Hsz Hc Hch]. split; try done.
  - cbn. apply lookup_insert_eq.
  - intros j Hj. cbn in *. apply elem_of_cons in Hj as [->|Hj].
    + eexists. by rewrite lookup_insert_eq.
    + destruct (Hch j Hj) as (itj & Hitj & Hmj). exists itj. split; [|done].
      rewrite lookup_insert_ne; [done|]. intros E.
      pose proof (is_fresh (dom (iters w))) as Hf. apply Hf. rewrite E.
      apply elem_of_dom. by eexists.
Qed.

Lemma drained w a L i it :
  list_ok w a L → mutex L = false →
  iters w !! i = Some it → i_magic it = LIST_ITR_MAGIC → i_list it = Some a →
  pos it = 0 → prev it = 0 →
  ∃ w2 w3, next_n (Z.to_nat (size L)) (Some i) w = Ok (elements L) w2 ∧
           list_next (Some i) w2 = Ok NULL w3.
Proof.
  intros Hok Hu Hi Him Hil Hp Hq. pose proof Hok as [_ _ Hs Hsz _ _].
  destruct (next_n_run a L i (Z.to_nat (size L)) w it 0)
    as (w2 & it2 & Hrun & Hok2 & Hi2 & Him2 & Hil2 & [Hp2 _]);
    [done..|split; [done|by left]|lia|lia|].
  destruct (list_next_exhausted w2 i it2 a L) as (w3 & Hlast & _); [done..|lia|].
  exists w2, w3. split; [|done]. rewrite Hrun. f_equal.
  change (Z.to_nat 0) with 0%nat. rewrite drop_0. apply take_ge.
  unfold elements. rewrite length_take. lia.
Qed.

(** X7.  [list_iterator_create] returns a new iterator on the list; calling
    [list_next] on it as many times as the list has elements yields the
    elements in index order, and the call after that yields [NULL]. *)
Theorem X7_new_iterator_yields_all w a L :
  list_ok w a L → mutex L = false →
  ∃ i w1 w2 w3,
    list_iterator_create (Some a) w = Ok (Some i) w1 ∧ iters w !! i = None ∧
    next_n (Z.to_nat (size L)) (Some i) w1 = Ok (elements L) w2 ∧
    list_next (Some i) w2 = Ok NULL w3.
Proof.
  intros Hok Hu.
  pose proof (list_ok_iterator_created w a L Hok) as Hok1.
  destruct (drained _ a _ (fresh (dom (iters w)))
              (mk_listIterator LIST_ITR_MAGIC (Some a) 0 0) Hok1)
    as (w2 & w3 & Hrun & Hlast); [done|cbn; apply lookup_insert_eq|done..|].
  exists (fresh (dom (iters w))). eexists. exists w2, w3.
  split; [by apply list_iterator_create_run|].
  split; [apply not_elem_of_dom, is_fresh|]. split; [exact Hrun|exact Hlast].
Qed.

Lemma list_iterator_reset_run w i it a L :
  list_ok w a L → mutex L = false →
  iters w !! i = Some it → i_magic it = LIST_ITR_MAGIC → i_list it = Some a →
  list_iterator_reset (Some i) w =
    Ok tt (set_iters (<[i := reset_iterator it]> (iters w)) w).
Proof.
  intros [Hl Hm Hs Hsz Hc Hch] Hu Hi Him Hil.
  unfold list_iterator_reset. msimpl.
  rewrite (enter_itr_run w i it a L) by done. msimpl.
  rewrite (get_iter_run i it) by done. unfold put_iter. msimpl.
  erewrite slurm_mutex_unlock_run by (cbn; apply lookup_insert_eq).
  cbn [iters with_list set_lists]. by rewrite unlock_restores.
Qed.

(** X8.  [list_iterator_reset] puts an iterator back at the head, wherever
    it stood: the calls of [list_next] that follow yield every element of
    the list, in index order, and then [NULL]. *)
Theorem X8_reset_restarts_the_traversal w a L i it :
  list_ok w a L → mutex L = false →
  iters w !! i = Some it → i_magic it = LIST_ITR_MAGIC → i_list it = Some a →
  ∃ w1 w2 w3,
    list_iterator_reset (Some i) w = Ok tt w1 ∧
    next_n (Z.to_nat (size L)) (Some i) w1 = Ok (elements L) w2 ∧
    list_next (Some i) w2 = Ok NULL w3.
Proof.
  intros Hok Hu Hi Him Hil.
  destruct (drained (set_iters (<[i := reset_iterator it]> (iters w)) w) a L i
              (reset_iterator it))
    as (w2 & w3 & Hrun & Hlast);
    [by eapply list_ok_put_iter|done|cbn; apply lookup_insert_eq|done..|].
  eexists. exists w2, w3.
  split; [by apply (list_iterator_reset_run w i it a L)|]. done.
Qed.

Lemma unlink_loop_run i chain w :
  chain_ok w chain → unlink_loop i chain w = Ok (unlinked i chain) w.
Proof.
  induction chain as [|j rest IH]; intros Hch; [done|].
  destruct (Hch j) as (itj & Hj & Hm); [apply list_elem_of_here|].
  cbn [unlink_loop unlinked]. msimpl.
  rewrite (assert_itr_magic_run j itj) by done.
  destruct (decide (j = i)); [done|]. msimpl.
  rewrite IH; [done|]. intros k Hk. apply Hch. by apply list_elem_of_further.
Qed.

Lemma list_iterator_destroy_run w i it a L :
  list_ok w a L → mutex L = false →
  iters w !! i = Some it → i_magic it = LIST_ITR_MAGIC → i_list it = Some a →
  list_iterator_destroy (Some i) w =
    Ok tt (set_iters (delete i (iters w))
             (with_list a (set_iNext (unlinked i (iNext L)) L) w)).
Proof.
  intros [Hl Hm Hs Hsz Hc Hch] Hu Hi Him Hil.
  unfold list_iterator_destroy. msimpl.
  rewrite (enter_itr_run w i it a L) by done. msimpl.
  erewrite get_list_run by (cbn; apply lookup_insert_eq). msimpl.
  rewrite unlink_loop_run by by eapply chain_ok_iters.
  unfold mod_list, put_list. msimpl.
  erewrite get_list_run by (cbn; apply lookup_insert_eq). msimpl.
  erewrite slurm_mutex_unlock_run by (cbn; apply lookup_insert_eq).
  unfold list_iterator_free. f_equal. apply world_eq; cbn; try done.
  rewrite !insert_insert_eq. do 2 f_equal. destruct L; cbn in *. by subst.
Qed.

(** X9.  [list_iterator_destroy] takes the iterator off the chain of its
    list (the first link to it) and frees its record.  Creating an iterator
    and destroying it right away leaves the world as it was. *)
Theorem X9_iterator_create_destroy w a L :
  list_ok w a L → mutex L = false →
  (∀ i it, iters w !! i = Some it → i_magic it = LIST_ITR_MAGIC →
           i_list it = Some a →
     ∃ w', list_iterator_destroy (Some i) w = Ok tt w' ∧
           iters w' = delete i (iters w) ∧
           lists w' !! a = Some (set_iNext (unlinked i (iNext L)) L)) ∧
  (i ← list_iterator_create (Some a); list_iterator_destroy i) w = Ok tt w.
Proof.
  intros Hok Hu. split.
  - intros i it Hi Him Hil. eexists.
    split; [by apply (list_iterator_destroy_run w i it a L)|].
    split; [done|]. cbn. apply lookup_insert_eq.
  - pose proof Hok as [Hl _ _ _ _ _]. msimpl.
    rewrite (list_iterator_create_run w a L) by done.
    erewrite list_iterator_destroy_run;
      [|by apply list_ok_iterator_created|done|cbn; apply lookup_insert_eq|done|done].
    f_equal. apply world_eq; cbn; try done.
    + destruct (decide (fresh (dom (iters w)) = fresh (dom (iters w)))); [|done].
      rewrite insert_insert_eq. apply insert_id. rewrite Hl. f_equal. by destruct L.
    + apply delete_insert_id. apply not_elem_of_dom, is_fresh.
Qed.

(** ** Removing through an iterator *)

Lemma list_remove_nothing w i it a L :
  list_ok w a L → mutex L = false →
  iters w !! i = Some it → i_magic it = LIST_ITR_MAGIC → i_list it = Some a →
  prev it = pos it →
  list_remove (Some i) w = Ok NULL w.
Proof.
  intros [Hl Hm Hs Hsz Hc Hch] Hu Hi Him Hil Heq.
  unfold list_remove. msimpl.
  rewrite (enter_itr_run w i it a L) by done. msimpl.
  rewrite (get_iter_run i it) by done.
  rewrite Heq, Z.eqb_refl. msimpl. by rewrite unlock_same.
Qed.

Lemma after_removal_lookup a L p w i it :
  i ∈ iNext L → iters w !! i = Some it →
  iters (after_removal a L p w) !! i = Some (destroy_repair p it).
Proof.
  intros Hi Hit. cbn.
  rewrite walk_lookup_in by (done || apply destroy_repair_idemp). by rewrite Hit.
Qed.

Lemma destroy_repair_behind k it :
  0 <= k < 2 ^ 31 → pos it = k + 1 →
  destroy_repair k it = set_prev k (set_pos k it).
Proof.
  intros Hk Hp. unfold destroy_repair. rewrite u32_small by lia.
  by destruct (Z.eqb_spec (pos it) (k + 1)).
Qed.

Lemma destroyed_fields p L :
  mutex (destroyed p L) = mutex L ∧ size (destroyed p L) = size L - 1 ∧
  fDel (destroyed p L) = fDel L ∧ iNext (destroyed p L) = iNext L ∧
  capacity (destroyed p L) = capacity L.
Proof. done. Qed.

(** X10.  [list_remove] through an iterator that has not yielded since
    its creation, reset or last removal ([prev = pos]) returns [NULL] and
    changes nothing.  Through an iterator that has just yielded the element
    at index [k] it takes that element out and returns it; a second
    [list_remove] then finds nothing to remove, and the next [list_next]
    yields the element that followed the removed one. *)
Theorem X10_remove_while_iterating w a L i it :
  list_ok w a L → mutex L = false →
  i ∈ iNext L → iters w !! i = Some it → i_list it = Some a →
  (prev it = pos it → list_remove (Some i) w = Ok NULL w) ∧
  (pos it = prev it + 1 → 0 <= prev it < size L →
     ∃ v w1 L1 w2,
       list_remove (Some i) w = Ok v w1 ∧
       elements L !! Z.to_nat (prev it) = Some v ∧
       lists w1 !! a = Some L1 ∧
       elements L1 = delete (Z.to_nat (prev it)) (elements L) ∧
       list_remove (Some i) w1 = Ok NULL w1 ∧
       list_next (Some i) w1
       = Ok (default NULL (elements L !! Z.to_nat (prev it + 1))) w2).
Proof.
  intros Hok Hu Hi Hit Hil.
  pose proof (chain_magic w a L i it Hok Hi Hit) as Him.
  pose proof Hok as [_ _ Hs Hsz Hc _].
  split; [intros Heq; by apply (list_remove_nothing w i it a L)|].
  intros Hp Hk.
  destruct (list_remove_run w i it a L) as (v & Hv & Hrun); [done..|lia|done|].
  pose proof (list_ok_after_removal w a L (prev it) Hok Hk) as Hok1.
  pose proof (after_removal_lookup a L (prev it) w i it Hi Hit) as Hi1.
  rewrite destroy_repair_behind in Hi1 by (done || lia).
  exists v, (after_removal a L (prev it) w), (destroyed (prev it) L). eexists.
  split; [exact Hrun|].
  split; [by rewrite elements_lookup by lia|].
  split; [cbn; apply lookup_insert_eq|].
  split; [by apply (elements_destroyed w a)|].
  split.
  { by apply (list_remove_nothing _ i (set_prev (prev it) (set_pos (prev it) it)) a
                (destroyed (prev it) L)). }
  rewrite (list_next_run _ i (set_prev (prev it) (set_pos (prev it) it)) a
             (destroyed (prev it) L)); try done; [|cbn; lia].
  f_equal. rewrite next_value_elements; [|cbn; lia|].
  - rewrite (elements_destroyed w a) by done. cbn [pos set_pos set_prev].
    rewrite list_lookup_delete_ge by lia. do 2 f_equal. lia.
  - destruct Hok1 as [_ _ Hs1 Hsz1 _ _]. lia.
Qed.

Lemma list_delete_item_run w i it a L v :
  list_ok w a L → mutex L = false →
  i ∈ iNext L → iters w !! i = Some it → i_list it = Some a →
  prev it ≠ pos it → 0 <= prev it < size L →
  elements L !! Z.to_nat (prev it) = Some v → v ≠ NULL →
  list_delete_item (Some i) w =
    Ok 1 (destructor_called L v (after_removal a L (prev it) w)).
Proof.
  intros Hok Hu Hi Hit Hil Hne Hk Hv Hnn.
  pose proof (chain_magic w a L i it Hok Hi Hit) as Him.
  pose proof Hok as [_ _ Hs Hsz Hc _].
  destruct (list_remove_run w i it a L) as (v' & Hv' & Hrun); [done..|].
  rewrite elements_lookup in Hv by lia. assert (v' = v) as -> by congruence.
  unfold list_delete_item. msimpl.
  rewrite xassert_true, (assert_itr_magic_run i it) by done.
  rewrite Hrun. rewrite not_NULL by done.
  erewrite deref_iter_run by by apply after_removal_lookup.
  msimpl. assert (i_list (destroy_repair (prev it) it) = Some a) as ->.
  { rewrite <- Hil. unfold destroy_repair. by repeat case_match. }
  erewrite deref_list_run by (cbn; apply lookup_insert_eq). msimpl.
  rewrite (proj1 (proj2 (proj2 (destroyed_fields (prev it) L)))).
  unfold destructor_called, call_fDel. by destruct (negb (fDel L =? NULL)).
Qed.

Lemma list_delete_item_nothing w i it a L :
  list_ok w a L → mutex L = false →
  iters w !! i = Some it → i_magic it = LIST_ITR_MAGIC → i_list it = Some a →
  prev it = pos it →
  list_delete_item (Some i) w = Ok 0 w.
Proof.
  intros Hok Hu Hi Him Hil Heq. unfold list_delete_item. msimpl.
  rewrite xassert_true, (assert_itr_magic_run i it) by done.
  by rewrite (list_remove_nothing w i it a L).
Qed.

(** X11.  [list_delete_item] through an iterator that has just yielded the
    (non-null) element [v] takes [v] out of the list, calls the list's
    destructor on it once if the list has one, and returns 1; through an
    iterator with nothing to remove it returns 0 and changes nothing. *)
Theorem X11_delete_item w a L i it :
  list_ok w a L → mutex L = false →
  i ∈ iNext L → iters w !! i = Some it → i_list it = Some a →
  (prev it = pos it → list_delete_item (Some i) w = Ok 0 w) ∧
  (∀ v, prev it ≠ pos it → 0 <= prev it < size L →
        elements L !! Z.to_nat (prev it) = Some v → v ≠ NULL →
     ∃ w' L',
       list_delete_item (Some i) w = Ok 1 w' ∧
       lists w' !! a = Some L' ∧
       elements L' = delete (Z.to_nat (prev it)) (elements L) ∧
       fDel_log w' = fDel_log w ++
                     (if fDel L =? NULL then [] else [(fDel L, v)])).
Proof.
  intros Hok Hu Hi Hit Hil.
  pose proof (chain_magic w a L i it Hok Hi Hit) as Him.
  split; [intros Heq; by apply (list_delete_item_nothing w i it a L)|].
  intros v Hne Hk Hv Hnn.
  exists (destructor_called L v (after_removal a L (prev it) w)), (destroyed (prev it) L).
  split; [by apply list_delete_item_run|].
  unfold destructor_called.
  destruct (Z.eqb_spec (fDel L) NULL); cbn [negb].
  - split; [cbn; apply lookup_insert_eq|].
    split; [by apply (elements_destroyed w a)|]. cbn. by rewrite app_nil_r.
  - split; [cbn; apply lookup_insert_eq|].
    split; [by apply (elements_destroyed w a)|done].
Qed.

(** ** Searching and visiting *)

Lemma find_first_loop_run a L f key :
  ∀ idx w,
    lists w !! a = Some L →
    (∀ k, k ∈ idx → 0 <= k < Z.of_nat (length (slots L))) →
    find_first_loop a f key idx w =
      Ok (first_match f key ((λ k, default NULL (slots L !! Z.to_nat k)) <$> idx)) w.
Proof.
  induction idx as [|k rest IH]; intros w Hl Hidx; [done|].
  assert (0 <= k < Z.of_nat (length (slots L))) as Hk
    by (apply Hidx, list_elem_of_here).
  destruct (lookup_lt_is_Some_2 (slots L) (Z.to_nat k)) as [v Hv]; [lia|].
  cbn [find_first_loop fmap list_fmap first_match]. msimpl.
  rewrite (arr_read_run a L (slots L) k v) by (done || lia || by eapply slots_arr).
  rewrite Hv. cbn [default]. unfold id. destruct (negb (f v key =? 0)); [done|].
  apply IH; [done|]. intros j Hj. by apply Hidx, list_elem_of_further.
Qed.

Lemma list_find_first_run w a L f key :
  list_ok w a L → mutex L = false → key ≠ NULL →
  list_find_first (Some a) f key w = Ok (first_match f key (elements L)) w.
Proof.
  intros Hok Hu Hkey. pose proof Hok as [Hl Hm Hs Hsz Hc Hch].
  unfold list_find_first. msimpl.
  rewrite xassert_true, xassert_run by by apply not_NULL.
  rewrite (deref_list_run a L) by done. msimpl.
  rewrite (slurm_mutex_lock_run w a L) by done.
  rewrite (assert_list_magic_run a (set_mutex true L))
    by (done || cbn; apply lookup_insert_eq).
  erewrite get_list_run by (cbn; apply lookup_insert_eq). msimpl.
  rewrite (find_first_loop_run a (set_mutex true L));
    [|cbn; apply lookup_insert_eq
     |intros k Hk; apply elem_of_seqZ in Hk; unfold slots in *; cbn; lia].
  rewrite unlock_same by done.
  change (slots (set_mutex true L)) with (slots L).
  by rewrite slots_seqZ by lia.
Qed.

Lemma first_match_first_index f key els k :
  first_index (λ e, negb (f e key =? 0)) els k →
  els !! Z.to_nat k = Some (first_match f key els).
Proof.
  intros (Hk & (e & He & Pe) & Hbefore).
  revert k Hk He Hbefore. induction els as [|e0 rest IH]; intros k Hk He Hbefore.
  - done.
  - cbn [first_match]. destruct (Z.to_nat k) as [|k'] eqn:Ek.
    + cbn in He. injection He as ->. by rewrite Pe.
    + rewrite (Hbefore 0 e0) by (done || lia). cbn in *.
      replace k' with (Z.to_nat (Z.of_nat k')) by lia.
      apply IH; [lia|by rewrite Nat2Z.id|].
      intros j e' Hj He'. apply (Hbefore (j + 1) e'); [lia|].
      by replace (Z.to_nat (j + 1)) with (S (Z.to_nat j)) by lia.
Qed.

Lemma first_match_none f key els :
  (∀ e, e ∈ els → f e key = 0) → first_match f key els = NULL.
Proof.
  induction els as [|e rest IH]; intros H; [done|]. cbn.
  rewrite (H e) by apply list_elem_of_here. cbn.
  apply IH. intros e' He'. apply H. by apply list_elem_of_further.
Qed.

(** X12.  [list_find_first] returns the first element, in index order, that
    the predicate accepts for the key, and [NULL] when it accepts none; it
    changes nothing. *)
Theorem X12_find_first w a L f key :
  list_ok w a L → mutex L = false → key ≠ NULL →
  ∃ v, list_find_first (Some a) f key w = Ok v w ∧
       (∀ k, first_index (λ e, negb (f e key =? 0)) (elements L) k →
             elements L !! Z.to_nat k = Some v) ∧
       ((∀ e, e ∈ elements L → f e key = 0) → v = NULL).
Proof.
  intros Hok Hu Hkey. exists (first_match f key (elements L)).
  split; [by apply list_find_first_run|].
  split; [intros k; apply first_match_first_index|apply first_match_none].
Qed.

Lemma for_each_loop_run a L max f arg brk :
  ∀ idx w n failed,
    lists w !! a = Some L →
    (∀ k, k ∈ idx → 0 <= k < Z.of_nat (length (slots L))) →
    for_each_loop a max f arg brk idx n failed w =
      Ok (for_each_elements max f arg brk
            ((λ k, default NULL (slots L !! Z.to_nat k)) <$> idx) n failed) w.
Proof.
  induction idx as [|k rest IH]; intros w n failed Hl Hidx; [done|].
  assert (0 <= k < Z.of_nat (length (slots L))) as Hk
    by (apply Hidx, list_elem_of_here).
  destruct (lookup_lt_is_Some_2 (slots L) (Z.to_nat k)) as [v Hv]; [lia|].
  cbn [for_each_loop fmap list_fmap for_each_elements]. msimpl.
  destruct (negb ((max =? -1) || (n <? max))); [done|]. msimpl.
  rewrite (arr_read_run a L (slots L) k v) by (done || lia || by eapply slots_arr).
  rewrite Hv. cbn [default]. unfold id.
  assert (∀ j, j ∈ rest → 0 <= j < Z.of_nat (length (slots L))) as Hrest
    by (intros j Hj; by apply Hidx, list_elem_of_further).
  destruct (f v arg <? 0); [destruct brk; [done|]|]; by apply IH.
Qed.

Lemma list_for_each_max_run w a L max f arg brk :
  list_ok w a L → mutex L = false →
  list_for_each_max (Some a) max f arg brk w =
    Ok (let '(n, failed) := for_each_elements max f arg brk (elements L) 0 false in
        (if failed then to_int (- n) else n, to_int (u32 (size L - n)))) w.
Proof.
  intros Hok Hu. pose proof Hok as [Hl Hm Hs Hsz Hc Hch].
  unfold list_for_each_max. msimpl. rewrite (enter_run w a L) by done.
  erewrite get_list_run by (cbn; apply lookup_insert_eq). msimpl.
  rewrite (for_each_loop_run a (set_mutex true L));
    [|cbn; apply lookup_insert_eq
     |intros k Hk; apply elem_of_seqZ in Hk; unfold slots in *; cbn; lia].
  change (slots (set_mutex true L)) with (slots L).
  rewrite slots_seqZ by lia. fold (elements L).
  destruct (for_each_elements max f arg brk (elements L) 0 false) as [n failed].
  msimpl. by rewrite unlock_same.
Qed.

(** No callback fails: every element allowed by [max] is visited. *)
Lemma for_each_elements_all max f arg brk :
  ∀ els n failed,
    (∀ e, e ∈ els → 0 <= f e arg) →
    0 <= n → n + Z.of_nat (length els) < 2 ^ 31 →
    for_each_elements max f arg brk els n failed =
      (if max =? -1 then n + Z.of_nat (length els)
       else Z.max n (Z.min max (n + Z.of_nat (length els))), failed).
Proof.
  induction els as [|e rest IH]; intros n failed Hf Hn Hb.
  - cbn. destruct (max =? -1); f_equal; lia.
  - cbn [for_each_elements length] in *.
    destruct (Z.eqb_spec max (-1)) as [->|Hmax]; cbn [orb negb].
    + destruct (Z.ltb_spec (f e arg) 0) as [Hneg|_].
      { specialize (Hf e (list_elem_of_here _ _)). lia. }
      rewrite IH; [|intros e' He'; by apply Hf, list_elem_of_further
                   |rewrite to_int_small; lia..].
      cbn. rewrite to_int_small by lia. f_equal. lia.
    + destruct (Z.ltb_spec n max) as [Hlt|Hge]; cbn [negb].
      * destruct (Z.ltb_spec (f e arg) 0) as [Hneg|_].
        { specialize (Hf e (list_elem_of_here _ _)). lia. }
        rewrite IH; [|intros e' He'; by apply Hf, list_elem_of_further
                     |rewrite to_int_small; lia..].
        destruct (Z.eqb_spec max (-1)); [done|].
        rewrite to_int_small by lia. f_equal. lia.
      * f_equal. lia.
Qed.

(** With [max = -1] and a break on failure: the visit stops at the first
    element whose callback fails. *)
Lemma for_each_elements_break f arg els k :
  first_index (λ e, f e arg <? 0) els k →
  ∀ n failed, 0 <= n → n + Z.of_nat (length els) < 2 ^ 31 →
    for_each_elements (-1) f arg true els n failed = (n + k + 1, true).
Proof.
  intros (Hk & (e & He & Pe) & Hbefore).
  revert k Hk He Hbefore. induction els as [|e0 rest IH];
    intros k Hk He Hbefore n failed Hn Hb; [done|].
  cbn [for_each_elements length] in *. cbn [Z.eqb orb negb].
  destruct (Z.to_nat k) as [|k'] eqn:Ek.
  - cbn in He. injection He as ->. rewrite Pe.
    rewrite to_int_small by lia. f_equal. lia.
  - rewrite (Hbefore 0 e0) by (done || lia). cbn in He.
    rewrite (IH (Z.of_nat k')); [|lia|by rewrite Nat2Z.id| |rewrite to_int_small; lia..].
    + rewrite to_int_small by lia. f_equal. lia.
    + intros j e' Hj He'. apply (Hbefore (j + 1) e'); [lia|].
      by replace (Z.to_nat (j + 1)) with (S (Z.to_nat j)) by lia.
Qed.

(** With [max = -1] and no break: every element is visited, and a failure
    is remembered. *)
Lemma for_each_elements_nobreak f arg :
  ∀ els n failed, 0 <= n → n + Z.of_nat (length els) < 2 ^ 31 →
    for_each_elements (-1) f arg false els n failed =
      (n + Z.of_nat (length els),
       failed || existsb (λ e, f e arg <? 0) els).
Proof.
  induction els as [|e rest IH]; intros n failed Hn Hb.
  - cbn. rewrite orb_false_r. f_equal. lia.
  - cbn [for_each_elements length existsb] in *. cbn [Z.eqb orb negb].
    destruct (f e arg <? 0).
    + rewrite IH by (rewrite to_int_small; lia). rewrite to_int_small by lia.
      cbn. rewrite orb_true_r. f_equal. lia.
    + rewrite IH by (rewrite to_int_small; lia). rewrite to_int_small by lia.
      cbn. f_equal. lia.
Qed.

Lemma to_int_range x : - 2 ^ 31 <= x < 2 ^ 31 → to_int x = x.
Proof.
  intros H. unfold to_int. destruct (Z.le_gt_cases 0 x).
  - rewrite Z.mod_small by lia. destruct (Z.ltb_spec x (2 ^ 31)); lia.
  - replace (x mod 2 ^ 32) with (x + 2 ^ 32)
      by (apply (Z.mod_unique _ _ (-1)); lia).
    destruct (Z.ltb_spec (x + 2 ^ 32) (2 ^ 31)); lia.
Qed.

Lemma existsb_false_all (P : Node → bool) els :
  (∀ e, e ∈ els → P e = false) → existsb P els = false.
Proof.
  induction els as [|e rest IH]; intros H; [done|]. cbn.
  rewrite (H e) by apply list_elem_of_here. cbn.
  apply IH. intros e' He'. by apply H, list_elem_of_further.
Qed.

Lemma existsb_true_elem (P : Node → bool) els e :
  e ∈ els → P e = true → existsb P els = true.
Proof.
  induction els as [|e0 rest IH]; intros He Pe; [by apply elem_of_nil in He|].
  cbn. apply elem_of_cons in He as [->|He]; [by rewrite Pe|].
  rewrite IH by done. by rewrite orb_true_r.
Qed.

(** X13.  [list_for_each] and [list_for_each_nobreak] change nothing.  When
    no callback returns a negative value both return the number of
    elements.  When one does, [list_for_each] stops there and returns minus
    the number of elements visited, the failing one included, whereas
    [list_for_each_nobreak] visits them all and returns minus their
    number. *)
Theorem X13_for_each w a L f arg :
  list_ok w a L → mutex L = false →
  (∃ n, list_for_each (Some a) f arg w = Ok n w ∧
        ((∀ e, e ∈ elements L → 0 <= f e arg) → n = size L) ∧
        (∀ k, first_index (λ e, f e arg <? 0) (elements L) k → n = - (k + 1))) ∧
  (∃ n, list_for_each_nobreak (Some a) f arg w = Ok n w ∧
        ((∀ e, e ∈ elements L → 0 <= f e arg) → n = size L) ∧
        ((∃ e, e ∈ elements L ∧ f e arg < 0) → n = - size L)).
Proof.
  intros Hok Hu. pose proof Hok as [Hl Hm Hs Hsz Hc Hch].
  assert (Z.of_nat (length (elements L)) = size L) as Hn
    by (apply length_elements; unfold slots in *; lia).
  split.
  - unfold list_for_each. msimpl. rewrite (list_for_each_max_run w a L) by done.
    destruct (for_each_elements (-1) f arg true (elements L) 0 false)
      as [n failed] eqn:E. msimpl.
    eexists. split; [done|]. split.
    + intros Hall. rewrite for_each_elements_all in E by (done || lia).
      cbn in E. injection E as <- <-. lia.
    + intros k Hk. rewrite (for_each_elements_break f arg _ k) in E by (done || lia).
      injection E as <- <-. pose proof Hk as (Hk0 & (e & He & _) & _).
      apply lookup_lt_Some in He. rewrite to_int_range; lia.
  - unfold list_for_each_nobreak. msimpl.
    rewrite (list_for_each_max_run w a L) by done.
    rewrite for_each_elements_nobreak by lia. cbn [orb]. rewrite Hn, Z.add_0_l.
    destruct (existsb (λ e, f e arg <? 0) (elements L)) eqn:E; msimpl.
    + eexists. split; [done|]. split.
      * intros Hall. rewrite existsb_false_all in E; [done|].
        intros e He. specialize (Hall e He). lia.
      * intros _. rewrite to_int_range; lia.
    + eexists. split; [done|]. split; [done|].
      intros (e & He & Hneg).
      rewrite (existsb_true_elem _ _ e) in E; [done..|lia].
Qed.

(** X14.  When no callback fails, [list_for_each_max] visits the first
    [max] elements (all of them when [max] is -1 or exceeds their number,
    none when it is another negative value), returns how many it visited
    and leaves in [*max] how many it did not visit; the list is unchanged. *)
Theorem X14_for_each_max w a L max f arg brk :
  list_ok w a L → mutex L = false →
  (∀ e, e ∈ elements L → 0 <= f e arg) →
  let visited := if max =? -1 then size L else Z.max 0 (Z.min max (size L)) in
  list_for_each_max (Some a) max f arg brk w = Ok (visited, size L - visited) w.
Proof.
  intros Hok Hu Hall visited. pose proof Hok as [Hl Hm Hs Hsz Hc Hch].
  assert (Z.of_nat (length (elements L)) = size L) as Hn
    by (apply length_elements; unfold slots in *; lia).
  rewrite (list_for_each_max_run w a L) by done.
  rewrite for_each_elements_all by (done || lia).
  rewrite Hn, Z.add_0_l. fold visited.
  assert (0 <= visited <= size L) by (unfold visited; destruct (max =? -1); lia).
  rewrite u32_small, to_int_small by (rewrite ?u32_small; lia). done.
Qed.

(** ** Emptying and copying *)

Lemma reset_iterator_idemp it : reset_iterator (reset_iterator it) = reset_iterator it.
Proof. done. Qed.

(** X15.  [list_flush] of a well-formed list leaves it well-formed and
    empty, with the array and the capacity it had; every iterator on its
    chain stands at the start again; the destructor, when the list has one,
    has been called on each element once, in index order, and then the
    result is the number of elements, whereas without a destructor nothing
    is called and the result is 0. *)
Theorem X15_flush_empties_and_resets w a L :
  list_ok w a L → mutex L = false →
  ∃ w', list_flush (Some a) w = Ok (if fDel L =? NULL then 0 else size L) w' ∧
        list_ok w' a (set_size 0 L) ∧ elements (set_size 0 L) = [] ∧
        (∀ i it, i ∈ iNext L → iters w !! i = Some it →
                 iters w' !! i = Some (reset_iterator it)) ∧
        (∀ j, j ∉ iNext L → iters w' !! j = iters w !! j) ∧
        fDel_log w' =
          fDel_log w ++ (if fDel L =? NULL then []
                         else (λ v, (fDel L, v)) <$> elements L).
Proof.
  intros Hok Hu. pose proof Hok as [Hl Hm Hs Hsz Hc Hch].
  eexists. split; [by apply list_flush_run|].
  split; [|split; [done|split; [|split; [|done]]]].
  - split.
    + cbn. apply lookup_insert_eq.
    + done.
    + done.
    + cbn. lia.
    + done.
    + by eapply (chain_ok_walk reset_iterator (iNext L) _ w).
  - intros i it Hi Hit. cbn.
    rewrite walk_lookup_in by (done || apply reset_iterator_idemp).
    by rewrite Hit.
  - intros j Hj. cbn. by apply walk_lookup_notin.
Qed.

(** X16.  [list_shallow_copy] of a non-empty well-formed list, the
    allocator serving the request, returns a new list at an address that
    was free: it is well-formed, holds the same elements in the same order
    in an array of exactly that many slots, has no destructor and no
    iterator and is unlocked.  The original list, the iterators and the
    destructor log are as they were. *)
Theorem X16_shallow_copy w a L :
  list_ok w a L → mutex L = false → 0 < size L → realloc_succeeds w →
  ∃ m C w',
    list_shallow_copy (Some a) w = Ok (Some m) w' ∧
    m ≠ a ∧ lists w !! m = None ∧
    list_ok w' m C ∧ elements C = elements L ∧ capacity C = size L ∧
    fDel C = NULL ∧ iNext C = [] ∧ mutex C = false ∧
    lists w' !! a = Some L ∧ iters w' = iters w ∧ fDel_log w' = fDel_log w.
Proof.
  intros Hok Hu Hpos Hre. pose proof Hok as [Hl Hm Hs Hsz Hc Hch].
  destruct (fresh_list_addr w a L Hl) as [Hne Hnone].
  destruct (copy_of_ok w a L Hok Hpos) as (He & Hf & Hi & Hok').
  exists (fresh (dom (lists w))), (copy_of L). eexists.
  split; [by apply list_shallow_copy_run|].
  repeat (split; [done|]). split; [|done].
  cbn. by rewrite lookup_insert_ne.
Qed.

(** ** Destruction *)

Lemma freed_lookup_in chain m i : i ∈ chain → freed chain m !! i = None.
Proof.
  revert m. induction chain as [|j rest IH]; intros m Hi.
  - by apply elem_of_nil in Hi.
  - unfold freed. cbn [foldl]. fold (freed rest (delete j m)).
    destruct (decide (i ∈ rest)) as [Hin|Hnin]; [by apply IH|].
    apply elem_of_cons in Hi as [->|Hi]; [|done].
    clear IH. revert m. induction rest as [|k rest IH]; intros m.
    + cbn. apply lookup_delete_eq.
    + unfold freed. cbn [foldl]. fold (freed rest (delete k (delete j m))).
      rewrite delete_delete. apply IH.
      intros H. apply Hnin. by apply list_elem_of_further.
Qed.

Lemma freed_lookup_notin chain m i : i ∉ chain → freed chain m !! i = m !! i.
Proof.
  revert m. induction chain as [|j rest IH]; intros m Hi; [done|].
  unfold freed. cbn [foldl]. fold (freed rest (delete j m)).
  rewrite IH by (intros H; apply Hi; by apply list_elem_of_further).
  apply lookup_delete_ne. intros ->. apply Hi, list_elem_of_here.
Qed.

Lemma free_chain_run :
  ∀ chain w, NoDup chain → chain_ok w chain →
    free_chain chain w = Ok tt (set_iters (freed chain (iters w)) w).
Proof.
  induction chain as [|i rest IH]; intros w Hnd Hc.
  - cbn. by rewrite set_iters_id.
  - destruct (Hc i) as (it & Hit & Hm); [apply list_elem_of_here|].
    apply NoDup_cons in Hnd as [Hi Hnd].
    cbn [free_chain]. msimpl.
    rewrite (assert_itr_magic_run i it) by done.
    rewrite (get_iter_run i it) by done.
    unfold put_iter, list_iterator_free. msimpl.
    rewrite delete_insert_eq. rewrite IH; [done|done|].
    intros j Hj. destruct (Hc j) as (jt & Hjt & Hjm); [by apply list_elem_of_further|].
    exists jt. split; [|done]. cbn. rewrite lookup_delete_ne; [done|].
    intros ->. by apply Hi.
Qed.

Lemma destroy_loop_run a L f :
  ∀ idx w,
    lists w !! a = Some L →
    (∀ k, k ∈ idx → 0 <= k < Z.of_nat (length (slots L))) →
    destroy_loop a f idx w =
      Ok tt (set_log (fDel_log w ++
                      destroy_calls f
                        ((λ k, default NULL (slots L !! Z.to_nat k)) <$> idx)) w).
Proof.
  induction idx as [|k rest IH]; intros w Hl Hidx.
  - cbn. unfold destroy_calls. destruct (f =? NULL); cbn;
      by rewrite app_nil_r, set_log_id.
  - assert (0 <= k < Z.of_nat (length (slots L))) as Hk
      by (apply Hidx, list_elem_of_here).
    destruct (lookup_lt_is_Some_2 (slots L) (Z.to_nat k)) as [v Hv]; [lia|].
    assert (∀ j, j ∈ rest → 0 <= j < Z.of_nat (length (slots L))) as Hrest
      by (intros j Hj; by apply Hidx, list_elem_of_further).
    cbn [destroy_loop fmap list_fmap]. msimpl.
    rewrite (arr_read_run a L (slots L) k v) by (done || lia || by eapply slots_arr).
    rewrite Hv. cbn [default]. unfold id.
    unfold destroy_calls in *. rewrite filter_cons.
    destruct (Z.eqb_spec v NULL) as [->|Hv0]; cbn [negb andb].
    + rewrite IH by done. rewrite decide_False by (intros H; by apply H). done.
    + rewrite decide_True by done.
      destruct (Z.eqb_spec f NULL) as [->|Hf]; cbn [negb].
      * rewrite IH by done. done.
      * unfold call_fDel. rewrite IH by done. cbn.
        by rewrite <- app_assoc.
Qed.

Lemma list_destroy_run w a L :
  list_ok w a L → mutex L = false → NoDup (iNext L) →
  list_destroy (Some a) w =
    Ok tt (set_lists (delete a (lists w))
             (set_iters (freed (iNext L) (iters w))
                (set_log (fDel_log w ++ destroy_calls (fDel L) (elements L)) w))).
Proof.
  intros Hok Hu Hnd. pose proof Hok as [Hl Hm Hs Hsz Hc Hch].
  unfold list_destroy. msimpl. rewrite (enter_run w a L) by done.
  erewrite get_list_run by (cbn; apply lookup_insert_eq). msimpl.
  rewrite free_chain_run by done.
  rewrite (destroy_loop_run a (set_mutex true L));
    [|cbn; apply lookup_insert_eq
     |intros k Hk; apply elem_of_seqZ in Hk; unfold slots in *; cbn; lia].
  change (slots (set_mutex true L)) with (slots L).
  rewrite slots_seqZ by lia. fold (elements L).
  unfold mod_list, slurm_mutex_unlock, mod_list, put_list, list_free. msimpl.
  repeat (erewrite get_list_run by (cbn; apply lookup_insert_eq); msimpl).
  f_equal. apply world_eq; cbn; [|done..].
  by rewrite !insert_insert_eq, delete_insert_eq.
Qed.

(** X17.  [list_destroy] of a well-formed list frees the list record and
    every iterator on its chain and touches no other list or iterator; when
    the list has a destructor it is called on each element that is not
    [NULL], once, in index order, and on nothing else.  The allocator is
    not involved. *)
Theorem X17_destroy w a L :
  list_ok w a L → mutex L = false → NoDup (iNext L) →
  ∃ w', list_destroy (Some a) w = Ok tt w' ∧
        lists w' = delete a (lists w) ∧
        (∀ i, i ∈ iNext L → iters w' !! i = None) ∧
        (∀ j, j ∉ iNext L → iters w' !! j = iters w !! j) ∧
        fDel_log w' =
          fDel_log w ++
          (if fDel L =? NULL then []
           else (λ v, (fDel L, v)) <$> filter (λ v, v ≠ NULL) (elements L)) ∧
        realloc_tape w' = realloc_tape w.
Proof.
  intros Hok Hu Hnd. eexists. split; [by apply list_destroy_run|].
  split; [done|]. split; [|split; [|done]].
  - intros i Hi. cbn. by apply freed_lookup_in.
  - intros j Hj. cbn. by apply freed_lookup_notin.
Qed.

(** ** Looking ahead and searching from an iterator *)

Lemma list_peek_next_run w i it a L :
  list_ok w a L → mutex L = false →
  iters w !! i = Some it → i_magic it = LIST_ITR_MAGIC → i_list it = Some a →
  0 <= pos it →
  list_peek_next (Some i) w =
    Ok (default NULL (elements L !! Z.to_nat (pos it)))
       (with_list a (set_mutex true L) w).
Proof.
  intros [Hl Hm Hs Hsz Hc Hch] Hu Hi Him Hil Hpos.
  unfold list_peek_next. msimpl.
  rewrite (enter_itr_run w i it a L) by done. msimpl.
  rewrite (get_iter_run i it) by done.
  erewrite get_list_run by (cbn; apply lookup_insert_eq). msimpl.
  destruct (Z.ltb_spec (pos it) (size L)) as [Hlt|Hge].
  - destruct (lookup_lt_is_Some_2 (slots L) (Z.to_nat (pos it))) as [v Hv]; [lia|].
    rewrite elements_lookup by lia. rewrite Hv.
    apply (arr_read_run a (set_mutex true L) (slots L)); try done.
    + cbn. apply lookup_insert_eq.
    + cbn. by eapply slots_arr.
  - rewrite (lookup_ge_None_2 (elements L)); [done|].
    unfold elements. rewrite length_take. lia.
Qed.

(** X18.  [list_peek_next] returns the element the iterator would yield
    next, [NULL] past the end, and moves nothing; but it returns with the
    mutex of the list still held, so that the next operation on the list or
    on the iterator never gets the lock. *)
Theorem X18_peek_next_keeps_the_lock w i it a L :
  list_ok w a L → mutex L = false →
  iters w !! i = Some it → i_magic it = LIST_ITR_MAGIC → i_list it = Some a →
  0 <= pos it →
  ∃ w', list_peek_next (Some i) w =
          Ok (default NULL (elements L !! Z.to_nat (pos it))) w' ∧
        iters w' = iters w ∧
        lists w' = <[a := set_mutex true L]> (lists w) ∧
        list_next (Some i) w' = Crash Deadlock ∧
        list_count (Some a) w' = Crash Deadlock.
Proof.
  intros Hok Hu Hi Him Hil Hpos. pose proof Hok as [Hl Hm Hs Hsz Hc Hch].
  eexists. split; [by apply list_peek_next_run|].
  split; [done|]. split; [done|].
  assert (lists (with_list a (set_mutex true L) w) !! a = Some (set_mutex true L))
    as Hl' by (cbn; apply lookup_insert_eq).
  split.
  - unfold list_next, enter_itr. msimpl. rewrite xassert_true.
    rewrite (assert_itr_magic_run i it) by done.
    rewrite (deref_iter_run i it) by done. msimpl. rewrite Hil.
    rewrite (deref_list_run a (set_mutex true L)) by done. msimpl.
    unfold slurm_mutex_lock. msimpl.
    by rewrite (get_list_run a (set_mutex true L)) by done.
  - unfold list_count, slurm_mutex_lock. msimpl.
    by rewrite (get_list_run a (set_mutex true L)) by done.
Qed.

Lemma first_index_cons (P : Node → bool) e rest k :
  first_index P (e :: rest) k →
  (P e = true ∧ k = 0) ∨ (P e = false ∧ 0 < k ∧ first_index P rest (k - 1)).
Proof.
  intros (Hk & (x & Hx & Px) & Hb). destruct (decide (k = 0)) as [->|Hne].
  - left. cbn in Hx. injection Hx as ->. done.
  - right. split; [apply (Hb 0 e); [lia|done]|]. split; [lia|].
    replace (Z.to_nat k) with (S (Z.to_nat (k - 1))) in Hx by lia. cbn in Hx.
    split; [lia|]. split; [by exists x|].
    intros j y Hj Hy. apply (Hb (j + 1) y); [lia|].
    by replace (Z.to_nat (j + 1)) with (S (Z.to_nat j)) by lia.
Qed.

Lemma find_loop_run a L i f key :
  0 <= size L <= Z.of_nat (length (slots L)) → size L < 2 ^ 31 →
  (∀ e, e ∈ elements L → e ≠ NULL) →
  ∀ n fuel w it j,
    lists w !! a = Some L → iters w !! i = Some it → i_list it = Some a →
    stands_at j it → 0 <= j → j + Z.of_nat n = size L → (n < fuel)%nat →
    ∃ it',
      find_loop fuel i f key w =
        Ok (first_match f key (drop (Z.to_nat j) (elements L)))
           (set_iters (<[i := it']> (iters w)) w) ∧
      i_magic it' = i_magic it ∧ i_list it' = i_list it ∧
      (∀ k, first_index (λ e, negb (f e key =? 0))
                        (drop (Z.to_nat j) (elements L)) k →
            stands_at (j + k + 1) it' ∧ prev it' = j + k) ∧
      ((∀ e, e ∈ drop (Z.to_nat j) (elements L) → f e key = 0) →
       pos it' = size L).
Proof.
  intros Hsz Hb Hnn.
  assert (Z.of_nat (length (elements L)) = size L) as Hlen
    by by apply length_elements.
  induction n as [|n IH]; intros fuel w it j Hl Hi Hil Hst Hj Hn Hfuel;
    (destruct fuel as [|fuel]; [lia|]); pose proof Hst as [Hp Hq];
    destruct (next_state_fields L it) as [Hmag' Hlist'];
    cbn [find_loop]; msimpl;
    rewrite (_list_next_locked_run w i it a L) by (done || lia);
    unfold next_value; rewrite Hp.
  - destruct (Z.ltb_spec j (size L)); [lia|].
    change (NULL =? NULL) with true. cbn [negb andb].
    rewrite drop_ge by lia. cbn [first_match].
    exists (next_state L it). split; [done|]. split; [done|]. split; [done|].
    split.
    + intros k (_ & (e & He & _) & _). by rewrite lookup_nil in He.
    + intros _. unfold next_state. rewrite Hp.
      destruct (Z.ltb_spec j (size L)); [lia|]. rewrite pos_next_prev. lia.
  - destruct (Z.ltb_spec j (size L)); [|lia].
    destruct (lookup_lt_is_Some_2 (elements L) (Z.to_nat j)) as [e He]; [lia|].
    rewrite <- elements_lookup by lia. rewrite He. cbn [default]. unfold id.
    rewrite (drop_S (elements L) e (Z.to_nat j) He).
    assert (e ≠ NULL) as Hne by (apply Hnn; by eapply list_elem_of_lookup_2).
    rewrite (not_NULL e Hne). cbn [andb first_match].
    assert (stands_at (j + 1) (next_state L it)) as Hst'
      by (apply next_state_stands_at; [done|lia|lia]).
    assert (prev (next_state L it) = j) as Hprev.
    { unfold next_state, next_prev. rewrite Hp.
      destruct (Z.ltb_spec j (size L)); [|lia].
      destruct (Z.eqb_spec (prev it) j); msimpl; [done|].
      rewrite u32_small by lia. lia. }
    destruct (Z.eqb_spec (f e key) 0) as [E|N]; cbn [negb].
    + destruct (IH fuel (set_iters (<[i := next_state L it]> (iters w)) w)
                  (next_state L it) (j + 1))
        as (it' & Hrun & Hm2 & Hl2 & Hfound & Hnone);
        [done|cbn; apply lookup_insert_eq|congruence|done|lia|lia|lia|].
      replace (Z.to_nat (j + 1)) with (S (Z.to_nat j)) in * by lia.
      exists it'. rewrite Hrun. cbn [iters set_iters]. rewrite insert_insert_eq.
      split; [done|]. split; [congruence|]. split; [congruence|]. split.
      * intros k Hk. apply first_index_cons in Hk as [[Hk _]|(_ & Hk0 & Hk)].
        { rewrite E in Hk. done. }
        destruct (Hfound _ Hk) as [H1 H2].
        replace (j + 1 + (k - 1) + 1) with (j + k + 1) in H1 by lia.
        split; [done|lia].
      * intros Hall. apply Hnone. intros x Hx.
        by apply Hall, list_elem_of_further.
    + exists (next_state L it). split; [done|]. split; [done|]. split; [done|].
      split.
      * intros k Hk. apply first_index_cons in Hk as [[_ ->]|(Hk & _)].
        { rewrite Z.add_0_r. done. }
        destruct (Z.eqb_spec (f e key) 0); done.
      * intros Hall. specialize (Hall e (list_elem_of_here _ _)). done.
Qed.

(** X19.  [list_find], on an iterator that stands at index [j] of a list
    whose elements are not [NULL], returns the first element at or after
    [j] that the predicate accepts for the key and leaves the iterator just
    behind it, that element being the last yielded one; when the predicate
    accepts none it returns [NULL] and the iterator is at the end.  Only
    this iterator is changed. *)
Theorem X19_find_from_iterator w a L i it j f key :
  list_ok w a L → mutex L = false →
  iters w !! i = Some it → i_magic it = LIST_ITR_MAGIC → i_list it = Some a →
  stands_at j it → 0 <= j <= size L → key ≠ NULL →
  (∀ e, e ∈ elements L → e ≠ NULL) →
  ∃ v it',
    list_find (Some i) f key w = Ok v (set_iters (<[i := it']> (iters w)) w) ∧
    (∀ k, first_index (λ e, negb (f e key =? 0))
                      (drop (Z.to_nat j) (elements L)) k →
          elements L !! Z.to_nat (j + k) = Some v ∧
          stands_at (j + k + 1) it' ∧ prev it' = j + k) ∧
    ((∀ e, e ∈ drop (Z.to_nat j) (elements L) → f e key = 0) →
     v = NULL ∧ pos it' = size L).
Proof.
  intros Hok Hu Hi Him Hil Hst Hj Hkey Hnn.
  pose proof Hok as [Hl Hm Hs Hsz Hc Hch]. pose proof Hst as [Hp _].
  destruct (find_loop_run a (set_mutex true L) i f key)
    with (n := Z.to_nat (size L - j)) (fuel := S (Z.to_nat (size L - j)))
         (w := with_list a (set_mutex true L) w) (it := it) (j := j)
    as (it' & Hrun & _ & _ & Hfound & Hnone);
    [unfold slots in *; cbn; lia|cbn; lia|done
    |cbn; apply lookup_insert_eq|done|done|done|lia|cbn; lia|lia|].
  change (elements (set_mutex true L)) with (elements L) in *.
  change (size (set_mutex true L)) with (size L) in *.
  exists (first_match f key (drop (Z.to_nat j) (elements L))), it'.
  split; [|split].
  - unfold list_find. msimpl. rewrite xassert_true, xassert_run by by apply not_NULL.
    rewrite (enter_itr_run w i it a L) by done. msimpl.
    rewrite (get_iter_run i it) by done.
    erewrite get_list_run by (cbn; apply lookup_insert_eq). msimpl.
    rewrite Hp, Hrun.
    erewrite slurm_mutex_unlock_run by (cbn; apply lookup_insert_eq).
    cbn [iters with_list set_lists]. by rewrite unlock_restores.
  - intros k Hk. split; [|by apply Hfound].
    pose proof Hk as (Hk0 & _).
    apply first_match_first_index in Hk. rewrite lookup_drop in Hk.
    by replace (Z.to_nat (j + k)) with (Z.to_nat j + Z.to_nat k)%nat by lia.
  - intros Hall. split; [by apply first_match_none|by apply Hnone].
Qed.

(** ** Moving the elements of one list to another *)

Lemma list_ok_other_insertion w a La b Lb p x :
  a ≠ b → list_ok w b Lb → list_ok (after_insertion a La p x w) b Lb.
Proof.
  intros Hne [Hl Hm Hs Hsz Hc Hch]. split; try done.
  - cbn. by rewrite lookup_insert_ne.
  - by eapply (chain_ok_walk (create_repair p) (iNext La) _ w);
      [apply create_repair_magic|done|].
Qed.

Lemma list_ok_other_removal w a La b Lb p :
  a ≠ b → list_ok w b Lb → list_ok (after_removal a La p w) b Lb.
Proof.
  intros Hne [Hl Hm Hs Hsz Hc Hch]. split; try done.
  - cbn. by rewrite lookup_insert_ne.
  - by eapply (chain_ok_walk (destroy_repair p) (iNext La) _ w);
      [apply destroy_repair_magic|done|].
Qed.

Lemma transfer_loop_run a b max :
  a ≠ b →
  ∀ n fuel w La Lb cnt m,
    list_ok w a La → list_ok w b Lb → mutex La = false → mutex Lb = false →
    realloc_tape w = [] → Z.of_nat n = size Lb → (n < fuel)%nat →
    0 <= cnt → cnt + Z.of_nat n < 2 ^ 31 → size La + size Lb < 2 ^ 30 →
    (∀ e, e ∈ elements Lb → e ≠ NULL) →
    m = (if max =? 0 then Z.of_nat n
         else Z.max 0 (Z.min (max + 1 - cnt) (Z.of_nat n))) →
    ∃ w' La' Lb',
      transfer_loop fuel (Some a) (Some b) max cnt w = Ok (cnt + m) w' ∧
      list_ok w' a La' ∧ list_ok w' b Lb' ∧
      mutex La' = false ∧ mutex Lb' = false ∧
      elements La' = elements La ++ take (Z.to_nat m) (elements Lb) ∧
      elements Lb' = drop (Z.to_nat m) (elements Lb) ∧
      fDel La' = fDel La ∧ fDel Lb' = fDel Lb ∧
      fDel_log w' = fDel_log w.
Proof.
  intros Hab. induction n as [|n IH];
    intros fuel w La Lb cnt m Hoka Hokb Hua Hub Htape Hn Hfuel Hcnt Hbound Htot Hnn Hm;
    (destruct fuel as [|fuel]; [lia|]);
    pose proof Hokb as [_ _ Hsb Hszb _ _]; pose proof Hoka as [_ _ Hsa Hsza _ _];
    cbn [transfer_loop];
    (destruct (negb ((max =? 0) || (cnt <=? max))) eqn:Egate;
     [assert (m = 0) as ->
        by (destruct (Z.eqb_spec max 0); destruct (Z.leb_spec cnt max);
            cbn in Egate; (done || lia));
      exists w, La, Lb; rewrite Z.add_0_r; change (Z.to_nat 0) with 0%nat;
      by rewrite take_0, drop_0, app_nil_r|]);
    msimpl.
  - rewrite (list_pop_empty w b Lb) by (done || lia).
    change (NULL =? NULL) with true. cbn match.
    assert (m = 0) as -> by (destruct (max =? 0); lia).
    exists w, La, Lb. rewrite Z.add_0_r. change (Z.to_nat 0) with 0%nat.
    by rewrite take_0, drop_0, app_nil_r.
  - destruct (list_pop_run w b Lb) as (v & Hv & Hpop); [done|done|lia|].
    rewrite Hpop.
    assert (elements Lb = v :: elements (destroyed 0 Lb)) as Hels.
    { rewrite (elements_destroyed w b) by (done || lia).
      rewrite <- elements_lookup in Hv by lia.
      change (Z.to_nat 0) with 0%nat. destruct (elements Lb); [done|].
      cbn in Hv. by injection Hv as ->. }
    assert (v ≠ NULL) as Hv0 by (apply Hnn; rewrite Hels; apply list_elem_of_here).
    destruct (Z.eqb_spec v NULL) as [|_]; [done|].
    set (w1 := after_removal b Lb 0 w).
    assert (list_ok w1 a La) as Hoka1 by by apply list_ok_other_removal.
    assert (list_ok w1 b (destroyed 0 Lb)) as Hokb1
      by (apply list_ok_after_removal; [done|lia]).
    assert (can_grow w1 La) as Hg.
    { destruct (Z.eq_dec (size La) (capacity La)) as [E|N]; [right|left; lia].
      split; [|lia]. unfold realloc_succeeds. cbn. by rewrite Htape. }
    rewrite (list_append_run w1 a La v) by done.
    set (w2 := after_insertion a La (size La) v w1).
    destruct (created_fields (size La) v La) as (Cm & Cs & Cf & _).
    assert (to_int (cnt + 1) = cnt + 1) as Hcnt1 by (rewrite to_int_small; lia).
    assert (0 < m ∧
            m - 1 = (if max =? 0 then Z.of_nat n
                     else Z.max 0 (Z.min (max + 1 - (cnt + 1)) (Z.of_nat n))))
      as [Hm0 Hm1]
      by (destruct (Z.eqb_spec max 0); destruct (Z.leb_spec cnt max);
          cbn in Egate; (done || lia)).
    destruct (IH fuel w2 (created (size La) v La) (destroyed 0 Lb)
                 (to_int (cnt + 1)) (m - 1))
      as (w' & La' & Lb' & Hrun & Ha' & Hb' & Hma & Hmb & Hea & Heb & Hfa & Hfb & Hlog).
    + apply list_ok_after_insertion; (done || lia).
    + by apply list_ok_other_insertion.
    + congruence.
    + done.
    + cbn. unfold grown_tape. cbn. rewrite Htape.
      by destruct (size La =? capacity La).
    + cbn. lia.
    + lia.
    + lia.
    + lia.
    + rewrite Cs. cbn. lia.
    + intros e He. apply Hnn. rewrite Hels. by apply list_elem_of_further.
    + by rewrite Hcnt1.
    + exists w', La', Lb'. rewrite Hrun.
      split; [f_equal; lia|].
      split; [done|]. split; [done|]. split; [done|]. split; [done|].
      replace (Z.to_nat m) with (S (Z.to_nat (m - 1))) by lia.
      split.
      { rewrite Hea, (elements_created w1 a) by (done || lia).
        rewrite take_ge, drop_ge
          by (unfold elements; rewrite length_take; unfold slots in *; lia).
        rewrite Hels. cbn [take]. by rewrite <- app_assoc. }
      split; [by rewrite Heb, Hels|].
      split; [congruence|]. split; [by rewrite Hfb|by rewrite Hlog].
Qed.

Lemma list_transfer_max_run w a b La Lb fuel max m :
  a ≠ b → list_ok w a La → list_ok w b Lb →
  mutex La = false → mutex Lb = false → fDel La = fDel Lb →
  realloc_tape w = [] → size La + size Lb < 2 ^ 30 →
  (∀ e, e ∈ elements Lb → e ≠ NULL) →
  (Z.to_nat (size Lb) < fuel)%nat →
  m = (if max =? 0 then size Lb else Z.max 0 (Z.min (max + 1) (size Lb))) →
  ∃ w' La' Lb',
    list_transfer_max fuel (Some a) (Some b) max w = Ok m w' ∧
    list_ok w' a La' ∧ list_ok w' b Lb' ∧
    elements La' = elements La ++ take (Z.to_nat m) (elements Lb) ∧
    elements Lb' = drop (Z.to_nat m) (elements Lb) ∧
    mutex La' = false ∧ mutex Lb' = false ∧
    fDel_log w' = fDel_log w.
Proof.
  intros Hab Hoka Hokb Hua Hub Hf Htape Htot Hnn Hfuel Hm.
  pose proof Hoka as [Hla Hma _ Hsza _ _]. pose proof Hokb as [Hlb Hmb _ Hszb _ _].
  destruct (transfer_loop_run a b max Hab (Z.to_nat (size Lb)) fuel w La Lb 0 m)
    as (w' & La' & Lb' & Hrun & Ha' & Hb' & Hma' & Hmb' & Hea & Heb & _ & _ & Hlog);
    [done|done|done|done|done|lia|done|lia|lia|done|done| |].
  { rewrite Hm, Z2Nat.id, Z.sub_0_r by lia. done. }
  exists w', La', Lb'.
  split; [|done].
  unfold list_transfer_max. msimpl.
  rewrite !xassert_true.
  rewrite (assert_list_magic_run a La), (assert_list_magic_run b Lb) by done.
  unfold xassert_in. destruct NDEBUG; msimpl.
  - by rewrite Hrun.
  - rewrite (deref_list_run a La) by done. msimpl.
    rewrite (deref_list_run b Lb) by done. msimpl.
    by rewrite Hf, Z.eqb_refl, Hrun.
Qed.

(** X20.  [list_transfer] between two distinct well-formed lists with the
    same destructor, the source holding no [NULL] and the allocator always
    serving, moves every element of the source behind those of the
    destination, in order, and returns their number; the source is left
    empty, both lists stay well formed, and no destructor is called. *)
Theorem X20_transfer_moves_everything w a b La Lb fuel :
  a ≠ b → list_ok w a La → list_ok w b Lb →
  mutex La = false → mutex Lb = false → fDel La = fDel Lb →
  realloc_tape w = [] → size La + size Lb < 2 ^ 30 →
  (∀ e, e ∈ elements Lb → e ≠ NULL) →
  (Z.to_nat (size Lb) < fuel)%nat →
  ∃ w' La' Lb',
    list_transfer fuel (Some a) (Some b) w = Ok (size Lb) w' ∧
    list_ok w' a La' ∧ list_ok w' b Lb' ∧
    elements La' = elements La ++ elements Lb ∧ elements Lb' = [] ∧
    mutex La' = false ∧ mutex Lb' = false ∧
    fDel_log w' = fDel_log w.
Proof.
  intros Hab Hoka Hokb Hua Hub Hf Htape Htot Hnn Hfuel.
  pose proof Hokb as [_ _ Hsb Hszb _ _].
  assert (length (elements Lb) = Z.to_nat (size Lb)) as Hlen
    by (unfold elements; rewrite length_take; unfold slots in *; lia).
  destruct (list_transfer_max_run w a b La Lb fuel 0 (size Lb))
    as (w' & La' & Lb' & Hrun & Ha' & Hb' & Hea & Heb & Hrest); try done.
  exists w', La', Lb'. split; [done|]. split; [done|]. split; [done|].
  rewrite take_ge in Hea by lia. rewrite drop_ge in Heb by lia. done.
Qed.

(** X21.  [list_transfer_max] with a positive [max] moves the first
    [max + 1] elements of the source, or all of them when it holds no more
    than that, behind the elements of the destination and returns how many
    it moved; with [max = 0] it moves them all and with a negative [max]
    none.  What it does not move stays in the source, in order. *)
Theorem X21_transfer_max w a b La Lb fuel max :
  a ≠ b → list_ok w a La → list_ok w b Lb →
  mutex La = false → mutex Lb = false → fDel La = fDel Lb →
  realloc_tape w = [] → size La + size Lb < 2 ^ 30 →
  (∀ e, e ∈ elements Lb → e ≠ NULL) →
  (Z.to_nat (size Lb) < fuel)%nat →
  let m := if max =? 0 then size Lb else Z.max 0 (Z.min (max + 1) (size Lb)) in
  ∃ w' La' Lb',
    list_transfer_max fuel (Some a) (Some b) max w = Ok m w' ∧
    list_ok w' a La' ∧ list_ok w' b Lb' ∧
    elements La' = elements La ++ take (Z.to_nat m) (elements Lb) ∧
    elements Lb' = drop (Z.to_nat m) (elements Lb) ∧
    mutex La' = false ∧ mutex Lb' = false ∧
    fDel_log w' = fDel_log w.
Proof. intros. by apply list_transfer_max_run. Qed.

(** ** list_append_list *)

Lemma fresh_not_chained w chain : chain_ok w chain → fresh (dom (iters w)) ∉ chain.
Proof.
  intros Hc Hi. destruct (Hc _ Hi) as (it & Hit & _).
  apply (is_fresh (dom (iters w))). apply elem_of_dom. by eexists.
Qed.

Lemma append_list_loop_run a b i :
  a ≠ b →
  ∀ n fuel w La Lb it j cnt,
    list_ok w a La → list_ok w b Lb → mutex La = false → mutex Lb = false →
    realloc_tape w = [] →
    iters w !! i = Some it → i_magic it = LIST_ITR_MAGIC → i_list it = Some b →
    i ∉ iNext La →
    stands_at j it → 0 <= j → j + Z.of_nat n = size Lb → (n < fuel)%nat →
    0 <= cnt → cnt + Z.of_nat n < 2 ^ 31 → size La + Z.of_nat n < 2 ^ 30 →
    (∀ e, e ∈ elements Lb → e ≠ NULL) →
    ∃ w' La' it',
      append_list_loop fuel (Some a) (Some i) cnt w = Ok (cnt + Z.of_nat n) w' ∧
      list_ok w' a La' ∧ list_ok w' b Lb ∧
      mutex La' = false ∧ iNext La' = iNext La ∧
      elements La' = elements La ++ drop (Z.to_nat j) (elements Lb) ∧
      iters w' !! i = Some it' ∧ i_magic it' = LIST_ITR_MAGIC ∧ i_list it' = Some b ∧
      fDel_log w' = fDel_log w.
Proof.
  intros Hab. induction n as [|n IH];
    intros fuel w La Lb it j cnt Hoka Hokb Hua Hub Htape Hi Him Hil Hni Hst Hj Hn Hfuel
           Hcnt Hbound Htot Hnn;
    (destruct fuel as [|fuel]; [lia|]);
    pose proof Hokb as [_ _ Hsb Hszb Hcb _]; pose proof Hoka as [_ _ Hsa Hsza _ _];
    pose proof Hst as [Hp _];
    destruct (next_state_fields Lb it) as [Hmag' Hlist'];
    assert (Z.of_nat (length (elements Lb)) = size Lb) as Hlen
      by (apply length_elements; unfold slots in *; lia);
    cbn [append_list_loop]; msimpl;
    rewrite (list_next_run w i it b Lb) by (done || lia);
    rewrite next_value_elements by (unfold slots in *; lia); rewrite Hp;
    set (w1 := set_iters (<[i := next_state Lb it]> (iters w)) w);
    assert (list_ok w1 a La) as Hoka1 by (by eapply list_ok_put_iter);
    assert (list_ok w1 b Lb) as Hokb1 by (by eapply list_ok_put_iter).
  - rewrite (lookup_ge_None_2 (elements Lb)) by lia. cbn [default].
    change (NULL =? NULL) with true. cbn match.
    exists w1, La, (next_state Lb it). rewrite Z.add_0_r.
    split; [done|]. split; [done|]. split; [done|]. split; [done|]. split; [done|].
    split; [by rewrite drop_ge, app_nil_r by lia|].
    split; [cbn; apply lookup_insert_eq|]. split; [congruence|].
    split; [congruence|done].
  - destruct (lookup_lt_is_Some_2 (elements Lb) (Z.to_nat j)) as [v Hv]; [lia|].
    rewrite Hv. cbn [default]. unfold id.
    assert (v ≠ NULL) as Hv0 by (apply Hnn; by eapply list_elem_of_lookup_2).
    destruct (Z.eqb_spec v NULL) as [|_]; [done|].
    assert (can_grow w1 La) as Hg.
    { destruct (Z.eq_dec (size La) (capacity La)) as [E|N]; [right|left; lia].
      split; [|lia]. unfold realloc_succeeds. cbn. by rewrite Htape. }
    rewrite (list_append_run w1 a La v) by done.
    rewrite (not_NULL v Hv0).
    set (w2 := after_insertion a La (size La) v w1).
    destruct (created_fields (size La) v La) as (Cm & Cs & Cf & Ci & _).
    destruct (IH fuel w2 (created (size La) v La) Lb (next_state Lb it) (j + 1)
                 (to_int (cnt + 1)))
      as (w' & La' & it' & Hrun & Ha' & Hb' & Hma & Hia & Hea & Hi' & Him' & Hil' & Hlog).
    + apply list_ok_after_insertion; (done || lia).
    + by apply list_ok_other_insertion.
    + congruence.
    + done.
    + cbn. unfold grown_tape. cbn. rewrite Htape.
      by destruct (size La =? capacity La).
    + cbn. rewrite walk_lookup_notin by done. apply lookup_insert_eq.
    + congruence.
    + congruence.
    + by rewrite Ci.
    + apply next_state_stands_at; [done|lia|lia].
    + lia.
    + lia.
    + lia.
    + rewrite to_int_small; lia.
    + rewrite to_int_small; lia.
    + rewrite Cs. lia.
    + done.
    + exists w', La', it'. rewrite Hrun.
      split; [f_equal; rewrite to_int_small; lia|].
      split; [done|]. split; [done|]. split; [done|]. split; [congruence|].
      split.
      { rewrite Hea, (elements_created w1 a) by (done || lia).
        rewrite take_ge, drop_ge
          by (unfold elements; rewrite length_take; unfold slots in *; lia).
        rewrite (drop_S (elements Lb) v (Z.to_nat j) Hv).
        replace (Z.to_nat (j + 1)) with (S (Z.to_nat j)) by lia.
        by rewrite <- app_assoc. }
      split; [done|]. split; [done|]. split; [done|]. by rewrite Hlog.
Qed.

(** X22.  [list_append_list] of a source onto a distinct destination that
    has no destructor, the source holding no [NULL] and the allocator always
    serving, puts the elements of the source, in order, behind those of the
    destination and returns their number.  The source is exactly as it was:
    the iterator the function walks it with is unlinked and freed again. *)
Theorem X22_append_list w a b La Lb fuel :
  a ≠ b → list_ok w a La → list_ok w b Lb →
  mutex La = false → mutex Lb = false → fDel La = NULL →
  realloc_tape w = [] → size La + size Lb < 2 ^ 30 →
  (∀ e, e ∈ elements Lb → e ≠ NULL) →
  (Z.to_nat (size Lb) < fuel)%nat →
  ∃ w' La',
    list_append_list fuel (Some a) (Some b) w = Ok (size Lb) w' ∧
    list_ok w' a La' ∧ elements La' = elements La ++ elements Lb ∧
    mutex La' = false ∧
    list_ok w' b Lb ∧
    iters w' !! fresh (dom (iters w)) = None ∧
    fDel_log w' = fDel_log w.
Proof.
  intros Hab Hoka Hokb Hua Hub Hf Htape Htot Hnn Hfuel.
  pose proof Hoka as [Hla Hma Hsa Hsza Hca Hcha].
  pose proof Hokb as [Hlb Hmb Hsb Hszb Hcb Hchb].
  set (i := fresh (dom (iters w))).
  set (Lb0 := set_iNext (i :: iNext Lb) Lb).
  set (w0 := set_iters (<[i := mk_listIterator LIST_ITR_MAGIC (Some b) 0 0]> (iters w))
               (with_list b Lb0 w)).
  assert (i ∉ iNext La) as Hnia by by apply fresh_not_chained.
  assert (i ∉ iNext Lb) as Hnib by by apply fresh_not_chained.
  assert (list_ok w0 b Lb0) as Hokb0 by by apply list_ok_iterator_created.
  assert (list_ok w0 a La) as Hoka0.
  { split; try done.
    - cbn. by rewrite lookup_insert_ne.
    - intros j Hj. destruct (Hcha j Hj) as (jt & Hjt & Hjm). exists jt.
      split; [|done]. cbn. rewrite lookup_insert_ne; [done|]. by intros <-. }
  destruct (append_list_loop_run a b i Hab (Z.to_nat (size Lb)) fuel w0 La Lb0
              (mk_listIterator LIST_ITR_MAGIC (Some b) 0 0) 0 0)
    as (w' & La' & it' & Hrun & Ha' & Hb' & Hma' & Hia' & Hea & Hi' & Him' & Hil' & Hlog);
    [done|done|done|done|done|cbn; apply lookup_insert_eq|done|done|done
    |split; [done|by left]|lia|cbn; lia|done|lia|lia|lia|done|].
  change (elements Lb0) with (elements Lb) in Hea.
  change (Z.to_nat 0) with 0%nat in Hea. rewrite drop_0 in Hea.
  pose proof Ha' as [Hla' Hmag' Hsa' Hsza' Hca' Hcha'].
  pose proof Hb' as [Hlb' _ _ _ _ Hchb'].
  assert ((itr ← list_iterator_create (Some b);
           n ← append_list_loop fuel (Some a) itr 0;
           list_iterator_destroy itr ;; ret n) w
          = Ok (size Lb)
               (set_iters (delete i (iters w'))
                  (with_list b (set_iNext (unlinked i (iNext Lb0)) Lb0) w')))
    as Hrest.
  { msimpl. rewrite (list_iterator_create_run w b Lb) by done. fold i Lb0 w0.
    rewrite Hrun.
    rewrite (list_iterator_destroy_run w' i it' b Lb0) by done.
    f_equal. lia. }
  eexists. exists La'. split.
  - unfold list_append_list, xassert, xassert_in.
    destruct NDEBUG; msimpl; [exact Hrest|].
    rewrite (deref_list_run a La) by done. msimpl.
    rewrite Hf. change (NULL =? NULL) with true. cbn match. exact Hrest.
  - assert (set_iNext (unlinked i (iNext Lb0)) Lb0 = Lb) as ->.
    { cbn. rewrite decide_True by done. by destruct Lb. }
    split.
    { split; try done.
      - cbn. by rewrite lookup_insert_ne.
      - intros j Hj. destruct (Hcha' j Hj) as (jt & Hjt & Hjm). exists jt.
        split; [|done]. cbn. rewrite lookup_delete_ne; [done|].
        intros <-. apply Hnia. by rewrite <- Hia'. }
    split; [done|]. split; [done|].
    split.
    { split; try done.
      - cbn. apply lookup_insert_eq.
      - intros j Hj. destruct (Hchb' j) as (jt & Hjt & Hjm);
          [by apply list_elem_of_further|].
        exists jt. split; [|done]. cbn. rewrite lookup_delete_ne; [done|].
        by intros <-. }
    split; [cbn; apply lookup_delete_eq|]. cbn. by rewrite Hlog.
Qed.

(** ** The removals that search, seen from the elements *)

Lemma remove_first_loop_none w a L f key :
  list_ok w a L → (∀ e, e ∈ elements L → f e key = 0) →
  ∀ fuel i, 0 <= i <= size L → (Z.to_nat (size L - i) <= fuel)%nat →
            remove_first_loop fuel a f key i w = Ok NULL w.
Proof.
  intros [Hl _ Hs Hsz Hc _] Hnone.
  induction fuel as [|fuel IH]; intros i Hi Hfuel;
    cbn [remove_first_loop]; msimpl;
    rewrite (get_list_run a L) by done; rewrite u32_small by lia;
    (destruct (Z.ltb_spec i (size L)); [|done]); [lia|]. msimpl.
  destruct (lookup_lt_is_Some_2 (slots L) (Z.to_nat i)) as [e He]; [lia|].
  rewrite (arr_read_run a L (slots L) i e) by (done || lia || by eapply slots_arr).
  rewrite (Hnone e).
  - cbn. rewrite to_int_small by lia. apply IH; lia.
  - rewrite <- elements_lookup in He by lia. by eapply list_elem_of_lookup_2.
Qed.

Lemma delete_ptr_loop_none w a L key :
  list_ok w a L → (∀ e, e ∈ elements L → e ≠ key) →
  ∀ fuel i, 0 <= i <= size L → (Z.to_nat (size L - i) <= fuel)%nat →
            delete_ptr_loop fuel a key i w = Ok 0 w.
Proof.
  intros [Hl _ Hs Hsz Hc _] Hnone.
  induction fuel as [|fuel IH]; intros i Hi Hfuel;
    cbn [delete_ptr_loop]; msimpl;
    rewrite (get_list_run a L) by done; rewrite u32_small by lia;
    (destruct (Z.ltb_spec i (size L)); [|done]); [lia|]. msimpl.
  destruct (lookup_lt_is_Some_2 (slots L) (Z.to_nat i)) as [e He]; [lia|].
  rewrite (arr_read_run a L (slots L) i e) by (done || lia || by eapply slots_arr).
  destruct (Z.eqb_spec e key) as [E|N].
  - exfalso. apply (Hnone e); [|done].
    rewrite <- elements_lookup in He by lia. by eapply list_elem_of_lookup_2.
  - rewrite to_int_small by lia. apply IH; lia.
Qed.

(** X23.  [list_remove_first] takes out the first element the predicate
    accepts and returns it, calling no destructor; [list_delete_ptr] takes
    out the first element equal to the key, hands it to the destructor when
    the list has one, and returns 1.  In both cases the other elements stay,
    in order, and the list stays well formed.  When nothing matches they
    return [NULL] and 0 and change nothing. *)
Theorem X23_remove_first_delete_ptr w a L f key :
  list_ok w a L → mutex L = false → key ≠ NULL →
  (∀ k, first_index (λ e, negb (f e key =? 0)) (elements L) k →
     ∃ v w' L',
       list_remove_first (Some a) f key w = Ok v w' ∧
       elements L !! Z.to_nat k = Some v ∧
       list_ok w' a L' ∧ elements L' = delete (Z.to_nat k) (elements L) ∧
       fDel_log w' = fDel_log w) ∧
  ((∀ e, e ∈ elements L → f e key = 0) →
     list_remove_first (Some a) f key w = Ok NULL w) ∧
  (∀ k, first_index (λ e, e =? key) (elements L) k →
     ∃ w' L',
       list_delete_ptr (Some a) key w = Ok 1 w' ∧
       list_ok w' a L' ∧ elements L' = delete (Z.to_nat k) (elements L) ∧
       fDel_log w' =
         fDel_log w ++ (if fDel L =? NULL then [] else [(fDel L, key)])) ∧
  ((∀ e, e ∈ elements L → e ≠ key) →
     list_delete_ptr (Some a) key w = Ok 0 w).
Proof.
  intros Hok Hu Hkey. pose proof Hok as [Hl Hm Hs Hsz Hc Hch].
  split; [|split; [|split]].
  - intros k Hk. pose proof (first_index_bound _ _ _ _ _ Hok Hk) as Hkb.
    destruct (list_remove_first_run w a L f key k) as (v & Hv & Hrun); [done..|].
    exists v, (after_removal a L k w), (destroyed k L).
    split; [done|]. split; [done|].
    split; [by apply list_ok_after_removal|].
    split; [by apply (elements_destroyed w a)|done].
  - intros Hnone. unfold list_remove_first. msimpl.
    rewrite xassert_true, xassert_run by by apply not_NULL.
    rewrite (deref_list_run a L) by done. msimpl.
    rewrite (slurm_mutex_lock_run w a L) by done.
    rewrite (assert_list_magic_run a (set_mutex true L))
      by (done || cbn; apply lookup_insert_eq).
    erewrite get_list_run by (cbn; apply lookup_insert_eq).
    rewrite (remove_first_loop_none _ a (set_mutex true L));
      [|by apply list_ok_lock|done|cbn; lia|cbn; lia].
    by rewrite unlock_same.
  - intros k Hk. pose proof (first_index_bound _ _ _ _ _ Hok Hk) as Hkb.
    exists (destructor_called L key (after_removal a L k w)), (destroyed k L).
    split; [by apply list_delete_ptr_run|].
    split; [by apply list_ok_destructor_called, list_ok_after_removal|].
    split; [by apply (elements_destroyed w a)|].
    unfold destructor_called. destruct (fDel L =? NULL); cbn; [|done].
    by rewrite app_nil_r.
  - intros Hnone. unfold list_delete_ptr. msimpl.
    rewrite xassert_true, xassert_run by by apply not_NULL.
    rewrite (deref_list_run a L) by done. msimpl.
    rewrite (slurm_mutex_lock_run w a L) by done.
    rewrite (assert_list_magic_run a (set_mutex true L))
      by (done || cbn; apply lookup_insert_eq).
    erewrite get_list_run by (cbn; apply lookup_insert_eq).
    rewrite (delete_ptr_loop_none _ a (set_mutex true L));
      [|by apply list_ok_lock|done|cbn; lia|cbn; lia].
    by rewrite unlock_same.
Qed.

Lemma delete_all_loop_elements a f key :
  ∀ fuel w L i n,
    list_ok w a L → mutex L = true → 0 <= i <= size L →
    (Z.to_nat (size L - i) <= fuel)%nat →
    0 <= n → n + (size L - i) < 2 ^ 31 →
    (∀ e, e ∈ elements L → e ≠ NULL) →
    ∃ w' L',
      delete_all_loop fuel a f key i n w =
        Ok (n + Z.of_nat (length (filter (λ e, f e key ≠ 0)
                                         (drop (Z.to_nat i) (elements L))))) w' ∧
      list_ok w' a L' ∧ mutex L' = true ∧ fDel L' = fDel L ∧
      elements L' =
        take (Z.to_nat i) (elements L) ++
        filter (λ e, f e key = 0) (drop (Z.to_nat i) (elements L)) ∧
      fDel_log w' =
        fDel_log w ++
        (if fDel L =? NULL then []
         else (λ v, (fDel L, v)) <$>
              filter (λ e, f e key ≠ 0) (drop (Z.to_nat i) (elements L))).
Proof.
  induction fuel as [|fuel IH]; intros w L i n Hok Hlock Hi Hfuel Hn Hb Hnn;
    pose proof Hok as [Hl _ Hs Hsz Hc _];
    assert (Z.of_nat (length (elements L)) = size L) as Hlen
      by (apply length_elements; lia);
    cbn [delete_all_loop]; msimpl;
    rewrite (get_list_run a L) by done; rewrite u32_small by lia;
    (destruct (Z.ltb_spec i (size L)) as [Hlt|Hge]; msimpl;
     [|exists w, L; rewrite drop_ge, take_ge by lia; cbn;
       rewrite Z.add_0_r, !app_nil_r;
       destruct (fDel L =? NULL); by rewrite app_nil_r]);
    [lia|].
  destruct (lookup_lt_is_Some_2 (slots L) (Z.to_nat i)) as [e He]; [lia|].
  rewrite (arr_read_run a L (slots L) i e) by (done || lia || by eapply slots_arr).
  rewrite <- elements_lookup in He by lia.
  rewrite (drop_S (elements L) e (Z.to_nat i) He). rewrite !filter_cons.
  destruct (Z.eqb_spec (f e key) 0) as [E|N]; msimpl.
  - rewrite decide_False by (intros H; by apply H). rewrite decide_True by done.
    destruct (IH w L (to_int (i + 1)) n) as (w' & L' & Hrun & Hok' & Hl' & Hf' & He' & Hg');
      [done|done|rewrite to_int_small; lia|rewrite to_int_small; lia|done
      |rewrite to_int_small; lia|done|].
    rewrite to_int_small in * by lia.
    replace (Z.to_nat (i + 1)) with (S (Z.to_nat i)) in * by lia.
    exists w', L'. split; [done|]. split; [done|]. split; [done|]. split; [done|].
    split; [|done]. rewrite He'. rewrite (take_S_r _ _ e He).
    by rewrite <- app_assoc.
  - rewrite decide_True by done. rewrite decide_False by done.
    destruct (_list_node_destroy_run w a L i Hok Hlock) as (v & Hv & Hrun); [lia|].
    rewrite Hrun. rewrite <- elements_lookup in Hv by lia.
    assert (v = e) as -> by congruence.
    assert (e ≠ NULL) as He0 by (apply Hnn; by eapply list_elem_of_lookup_2).
    rewrite (not_NULL e He0).
    pose proof (list_ok_after_removal w a L i Hok ltac:(lia)) as Hok1.
    pose proof (elements_destroyed w a L i Hok ltac:(lia)) as Hel1.
    assert (∀ x, x ∈ elements (destroyed i L) → x ≠ NULL) as Hnn1.
    { intros x Hx. apply Hnn. rewrite Hel1 in Hx.
      by eapply list_elem_of_delete_inv. }
    assert (drop (Z.to_nat i) (elements (destroyed i L)) =
            drop (S (Z.to_nat i)) (elements L)) as Hdrop.
    { rewrite Hel1. rewrite delete_take_drop, drop_app_length'; [done|].
      rewrite length_take. lia. }
    assert (take (Z.to_nat i) (elements (destroyed i L)) =
            take (Z.to_nat i) (elements L)) as Htake.
    { rewrite Hel1. rewrite delete_take_drop, take_app_length'; [done|].
      rewrite length_take. lia. }
    assert (to_int (n + 1) = n + 1) as Hn1 by (rewrite to_int_small; lia).
    destruct (IH (destructor_called L e (after_removal a L i w))
                 (destroyed i L) i (to_int (n + 1)))
      as (w' & L' & Hrun' & Hok' & Hl' & Hf' & He' & Hg');
      [by apply list_ok_destructor_called|done|cbn; lia|cbn; lia|lia|cbn; lia|done|].
    rewrite Hdrop, Htake in *. rewrite Hn1 in Hrun'.
    exists w', L'.
    split.
    { unfold destructor_called in Hrun'. cbn [length].
      replace (n + Z.of_nat (S (length (filter (λ e0, f e0 key ≠ 0)
                                         (drop (S (Z.to_nat i)) (elements L))))))
        with (n + 1 + Z.of_nat (length (filter (λ e0, f e0 key ≠ 0)
                                         (drop (S (Z.to_nat i)) (elements L)))))
        by lia.
      destruct (negb (fDel L =? NULL)); msimpl; unfold call_fDel; rewrite Hn1;
        exact Hrun'. }
    split; [done|]. split; [done|]. split; [done|]. split; [done|].
    rewrite Hg'. unfold destructor_called. cbn [fDel destroyed set_size set_arr].
    destruct (fDel L =? NULL); cbn; [done|]. by rewrite <- app_assoc.
Qed.

(** X24.  [list_delete_all], on a list that holds no [NULL], takes out
    every element the predicate accepts and returns their number; the
    elements it does not accept stay, in order; and the destructor, when the
    list has one, is called on each element taken out, in index order. *)
Theorem X24_delete_all w a L f key :
  list_ok w a L → mutex L = false →
  (∀ e, e ∈ elements L → e ≠ NULL) →
  ∃ w' L',
    list_delete_all (Some a) f key w =
      Ok (Z.of_nat (length (filter (λ e, f e key ≠ 0) (elements L)))) w' ∧
    list_ok w' a L' ∧ mutex L' = false ∧
    elements L' = filter (λ e, f e key = 0) (elements L) ∧
    fDel_log w' =
      fDel_log w ++
      (if fDel L =? NULL then []
       else (λ v, (fDel L, v)) <$> filter (λ e, f e key ≠ 0) (elements L)).
Proof.
  intros Hok Hu Hnn. pose proof Hok as [Hl Hm Hs Hsz Hc Hch].
  destruct (delete_all_loop_elements a f key (Z.to_nat (size L))
              (with_list a (set_mutex true L) w) (set_mutex true L) 0 0)
    as (w' & L' & Hrun & Hok' & Hl' & Hf' & He' & Hg');
    [by apply list_ok_lock|done|cbn; lia|cbn; lia|lia|cbn; lia|done|].
  change (elements (set_mutex true L)) with (elements L) in *.
  change (Z.to_nat 0) with 0%nat in *. rewrite drop_0, take_0 in *.
  pose proof Hok' as [Hl2 Hm2 Hs2 Hsz2 Hc2 Hch2].
  exists (with_list a (set_mutex false L') w'), (set_mutex false L').
  split; [|split; [|split; [done|split; [done|done]]]].
  - unfold list_delete_all. msimpl. rewrite (enter_run w a L) by done.
    erewrite get_list_run by (cbn; apply lookup_insert_eq).
    cbn [size set_mutex]. rewrite Hrun.
    by rewrite (slurm_mutex_unlock_run w' a L') by done.
  - split; try done. cbn. apply lookup_insert_eq.
Qed.

(** ** Reversing and sorting, seen from the elements *)

Lemma flip_loop_buf a L sz :
  0 <= sz < 2 ^ 32 →
  ∀ idx, (∀ k, k ∈ idx → 0 <= k < sz) →
  ∀ w buf,
    lists w !! a = Some (set_arr (Some buf) L) →
    sz <= Z.of_nat (length buf) →
    flip_loop a sz idx w =
      Ok tt (with_list a (set_arr (Some (flip_buf sz idx buf)) L) w).
Proof.
  intros Hsz. induction idx as [|k rest IH]; intros Hidx w buf Hl Hlen.
  - cbn. by rewrite with_list_id.
  - assert (0 <= k < sz) as Hk by (apply Hidx, list_elem_of_here).
    assert (u32 (sz - 1 - k) = sz - 1 - k) as Hj by (apply u32_small; lia).
    destruct (lookup_lt_is_Some_2 buf (Z.to_nat k)) as [vk Hvk]; [lia|].
    destruct (lookup_lt_is_Some_2 buf (Z.to_nat (sz - 1 - k))) as [vj Hvj]; [lia|].
    cbn [flip_loop flip_buf]. msimpl. rewrite Hj.
    rewrite (arr_read_run a _ buf k vk) by (done || lia).
    rewrite (arr_read_run a _ buf (sz - 1 - k) vj) by (done || lia).
    erewrite arr_write_run; [|exact Hl|done|lia].
    erewrite arr_write_run;
      [|cbn; apply lookup_insert_eq|done|rewrite length_insert; lia].
    cbn [set_arr magic arr iNext fDel size capacity mutex].
    rewrite IH with (buf := <[Z.to_nat (sz - 1 - k) := vk]> (<[Z.to_nat k := vj]> buf)).
    + rewrite Hvk, Hvj. cbn [default]. unfold id, with_list. cbn.
      by rewrite !insert_insert_eq.
    + intros j Hj'. by apply Hidx, list_elem_of_further.
    + cbn. apply lookup_insert_eq.
    + rewrite !length_insert. lia.
Qed.

Lemma flip_buf_length sz idx : ∀ buf, length (flip_buf sz idx buf) = length buf.
Proof.
  induction idx as [|k rest IH]; intros buf; [done|].
  cbn [flip_buf]. by rewrite IH, !length_insert.
Qed.

(** After the swaps at [k0 .. k0 + m - 1] the slots at these indices and
    at their mirror images hold what their mirror image held. *)
Lemma flip_buf_lookup sz :
  ∀ m k0 buf j,
    0 <= k0 → 2 * (k0 + Z.of_nat m) <= sz → sz <= Z.of_nat (length buf) →
    flip_buf sz (seqZ k0 (Z.of_nat m)) buf !! j =
      if decide ((Z.to_nat k0 <= j < Z.to_nat k0 + m)%nat ∨
                 (Z.to_nat sz - Z.to_nat k0 - m <= j < Z.to_nat sz - Z.to_nat k0)%nat)
      then buf !! (Z.to_nat sz - 1 - j)%nat
      else buf !! j.
Proof.
  induction m as [|m IH]; intros k0 buf j Hk0 Hm Hlen.
  - cbn. rewrite decide_False by lia. done.
  - rewrite Nat2Z.inj_succ, seqZ_cons by lia. cbn [flip_buf].
    replace (Z.pred (Z.succ (Z.of_nat m))) with (Z.of_nat m) by lia.
    rewrite IH by (rewrite ?length_insert; lia).
    destruct (lookup_lt_is_Some_2 buf (Z.to_nat k0)) as [vk Hvk]; [lia|].
    destruct (lookup_lt_is_Some_2 buf (Z.to_nat (sz - 1 - k0))) as [vj Hvj]; [lia|].
    rewrite Hvk, Hvj. cbn [default]. unfold id.
    replace (Z.to_nat (sz - 1 - k0)) with (Z.to_nat sz - 1 - Z.to_nat k0)%nat in * by lia.
    replace (Z.to_nat (Z.succ k0)) with (S (Z.to_nat k0)) by lia.
    set (a0 := Z.to_nat k0) in *. set (n := Z.to_nat sz) in *.
    assert (2 * (a0 + S m) <= n)%nat as Hnat by lia.
    assert (n <= length buf)%nat as Hlen' by lia.
    clearbody a0 n. clear IH Hk0 Hm Hlen.
    assert (∀ x, <[(n - 1 - a0)%nat := vk]> (<[a0 := vj]> buf) !! x =
                 if decide (x = a0) then Some vj
                 else if decide (x = (n - 1 - a0)%nat) then Some vk
                      else buf !! x) as Hswap.
    { intros x. destruct (decide (x = a0)) as [->|Ha].
      - rewrite list_lookup_insert_ne by lia.
        apply list_lookup_insert_eq. lia.
      - destruct (decide (x = (n - 1 - a0)%nat)) as [->|Hb].
        + apply list_lookup_insert_eq. rewrite length_insert. lia.
        + by rewrite !list_lookup_insert_ne by done. }
    rewrite !Hswap.
    repeat case_decide; try (exfalso; lia); try done;
      first [ replace (n - 1 - j)%nat with (n - 1 - a0)%nat by lia; done
            | replace (n - 1 - j)%nat with a0 by lia; done ].
Qed.

Lemma flip_buf_reverse sz buf :
  0 <= sz <= Z.of_nat (length buf) →
  take (Z.to_nat sz) (flip_buf sz (seqZ 0 (sz / 2)) buf) =
    reverse (take (Z.to_nat sz) buf).
Proof.
  intros Hsz. pose proof (Z.mul_div_le sz 2 ltac:(lia)) as Hdiv.
  assert (sz < 2 * (sz / 2) + 2) as Hdiv'.
  { pose proof (Z.mod_pos_bound sz 2 ltac:(lia)).
    pose proof (Z.div_mod sz 2 ltac:(lia)). lia. }
  apply list_eq. intros j.
  destruct (decide (j < Z.to_nat sz)%nat) as [Hj|Hj].
  - rewrite lookup_take_lt by done.
    rewrite reverse_lookup by (rewrite length_take; lia).
    rewrite length_take, Nat.min_l by lia.
    rewrite lookup_take_lt by lia.
    replace (sz / 2) with (Z.of_nat (Z.to_nat (sz / 2))) at 1 by lia.
    rewrite flip_buf_lookup by lia.
    change (Z.to_nat 0) with 0%nat.
    replace (Z.to_nat sz - S j)%nat with (Z.to_nat sz - 1 - j)%nat by lia.
    case_decide as Hd; [done|].
    assert (j = Z.to_nat sz - 1 - j)%nat as <- by lia. done.
  - rewrite lookup_take_ge by lia. symmetry. apply lookup_ge_None_2.
    rewrite length_reverse, length_take. lia.
Qed.

(** X25.  [list_flip] leaves the elements in reverse order, in the same
    array capacity, and the list well formed; flipping twice gives the
    elements back in their original order. *)
Theorem X25_flip_reverses w a L :
  list_ok w a L → mutex L = false →
  ∃ w1 L1 w2 L2,
    list_flip (Some a) w = Ok tt w1 ∧
    list_ok w1 a L1 ∧ mutex L1 = false ∧ capacity L1 = capacity L ∧
    elements L1 = reverse (elements L) ∧
    list_flip (Some a) w1 = Ok tt w2 ∧
    lists w2 !! a = Some L2 ∧ elements L2 = elements L.
Proof.
  assert (∀ w a L, list_ok w a L → mutex L = false →
            ∃ w1 L1, list_flip (Some a) w = Ok tt w1 ∧
                     list_ok w1 a L1 ∧ mutex L1 = false ∧
                     capacity L1 = capacity L ∧
                     elements L1 = reverse (elements L)) as Hflip.
  { clear. intros w a L Hok Hu. pose proof Hok as [Hl Hm Hs Hsz Hc Hch].
    unfold list_flip. msimpl.
    rewrite xassert_true, (assert_list_magic_run a L), (deref_list_run a L) by done.
    msimpl. rewrite (slurm_mutex_lock_run w a L) by done.
    erewrite get_list_run by (cbn; apply lookup_insert_eq). msimpl.
    destruct (Z.leb_spec (size L) 1) as [Hle|Hgt].
    - exists w, L. rewrite unlock_same by done.
      split; [done|]. split; [done|]. split; [done|]. split; [done|].
      assert (length (elements L) <= 1)%nat as Hlen
        by (unfold elements; rewrite length_take; lia).
      destruct (elements L) as [|x [|y r]]; [done|done|cbn in Hlen; lia].
    - destruct (lookup_lt_is_Some_2 (slots L) 0%nat) as [v0 Hv0]; [lia|].
      pose proof (slots_arr _ _ _ Hv0) as Harr.
      pose proof (Z.mul_div_le (size L) 2 ltac:(lia)) as Hdiv.
      set (buf' := flip_buf (size L) (seqZ 0 (size L / 2)) (slots L)).
      set (L1 := set_arr (Some buf') L).
      assert (length buf' = length (slots L)) as Hlen' by apply flip_buf_length.
      rewrite (flip_loop_buf a (set_mutex true L) (size L)) with (buf := slots L);
        [|lia|intros k Hk; apply elem_of_seqZ in Hk; lia
         |cbn; rewrite lookup_insert_eq; f_equal; destruct L; cbn in *;
          by rewrite Harr
         |lia].
      fold buf'.
      rewrite for_each_iterator_run;
        [|apply reset_iterator_magic|by eapply chain_ok_iters].
      erewrite slurm_mutex_unlock_run by (cbn; apply lookup_insert_eq).
      eexists. exists L1.
      split; [done|]. split; [|split; [done|split; [done|]]].
      + split.
        * cbn. rewrite !insert_insert_eq, lookup_insert_eq. f_equal.
          unfold L1. destruct L; cbn in *. by subst.
        * done.
        * unfold slots at 1. cbn. lia.
        * done.
        * done.
        * by eapply (chain_ok_walk reset_iterator (iNext L) _ w);
            [apply reset_iterator_magic|done|].
      + unfold elements at 1. unfold slots at 1. cbn [L1 arr set_arr default size].
        apply flip_buf_reverse. lia. }
  intros Hok Hu.
  destruct (Hflip w a L Hok Hu) as (w1 & L1 & Hr1 & Hok1 & Hu1 & Hc1 & He1).
  destruct (Hflip w1 a L1 Hok1 Hu1) as (w2 & L2 & Hr2 & Hok2 & Hu2 & Hc2 & He2).
  exists w1, L1, w2, L2. split; [done|]. split; [done|]. split; [done|].
  split; [done|]. split; [done|]. split; [done|].
  split; [by destruct Hok2|]. by rewrite He2, He1, reverse_involutive.
Qed.

(** X26.  [list_sort] returns at once on a list of at most one element.
    On a longer list it hands [qsort] the resident elements and nothing
    else: provided [qsort] gives back as many elements as it got, the list
    then holds what [qsort] made of them, in the same array capacity, and is
    still well formed. *)
Theorem X26_sort_sorts_the_residents w a L f :
  list_ok w a L → mutex L = false →
  length (qsort f (elements L)) = length (elements L) →
  ∃ w' L',
    list_sort (Some a) f w = Ok tt w' ∧
    list_ok w' a L' ∧ mutex L' = false ∧ capacity L' = capacity L ∧
    elements L' = (if size L <=? 1 then elements L else qsort f (elements L)).
Proof.
  intros Hok Hu Hq. pose proof Hok as [Hl Hm Hs Hsz Hc Hch].
  unfold list_sort. msimpl.
  rewrite xassert_true, (assert_list_magic_run a L), (deref_list_run a L) by done.
  msimpl. rewrite (slurm_mutex_lock_run w a L) by done.
  erewrite get_list_run by (cbn; apply lookup_insert_eq). msimpl.
  destruct (Z.leb_spec (size L) 1) as [Hle|Hgt].
  - exists w, L. by rewrite unlock_same.
  - destruct (lookup_lt_is_Some_2 (slots L) 0%nat) as [v0 Hv0]; [lia|].
    rewrite (slots_arr _ _ _ Hv0).
    destruct (Z.leb_spec (size L) (Z.of_nat (length (slots L)))); [|lia].
    unfold put_list. msimpl.
    rewrite for_each_iterator_run;
      [|apply reset_iterator_magic|by eapply chain_ok_iters].
    erewrite slurm_mutex_unlock_run by (cbn; apply lookup_insert_eq).
    fold (elements L).
    assert (length (elements L) = Z.to_nat (size L)) as Hlen
      by (unfold elements; rewrite length_take; lia).
    eexists.
    exists (set_arr (Some (qsort f (elements L) ++ drop (Z.to_nat (size L)) (slots L))) L).
    split; [done|]. split; [|split; [done|split; [done|]]].
    + split.
      * cbn. rewrite !insert_insert_eq, lookup_insert_eq. f_equal.
        destruct L; cbn in *. by subst.
      * done.
      * unfold slots at 1. cbn. rewrite length_app, Hq, Hlen, length_drop. lia.
      * done.
      * done.
      * by eapply (chain_ok_walk reset_iterator (iNext L) _ w);
          [apply reset_iterator_magic|done|].
    + unfold elements at 1.
      change (slots (set_arr (Some ?b) L)) with b. cbn [size set_arr].
      rewrite take_app_length'; [done|]. by rewrite Hq.
Qed.

(** ** Creation, and the iterator indices *)

(** X27.  [list_create] returns a list at an address that was free: it is
    well formed, empty, without array or iterators, unlocked, and has the
    destructor it was given.  Every list that was well formed before still
    is, and neither the iterators nor the allocator are touched. *)
Theorem X27_create_establishes_the_invariant w f :
  ∃ a w',
    list_create f w = Ok (Some a) w' ∧ lists w !! a = None ∧
    list_ok w' a (mk_xlist LIST_MAGIC None [] f 0 0 false) ∧
    elements (mk_xlist LIST_MAGIC None [] f 0 0 false) = [] ∧
    list_count (Some a) w' = Ok 0 w' ∧
    (∀ b Lb, list_ok w b Lb → list_ok w' b Lb) ∧
    iters w' = iters w ∧ realloc_tape w' = realloc_tape w.
Proof.
  set (a := fresh (dom (lists w))).
  set (L0 := mk_xlist LIST_MAGIC None [] f 0 0 false).
  assert (lists w !! a = None) as Hnone by apply not_elem_of_dom, is_fresh.
  exists a, (with_list a L0 w).
  assert (list_ok (with_list a L0 w) a L0) as Hok0.
  { split; try done.
    - cbn. apply lookup_insert_eq.
    - intros i Hi. by apply elem_of_nil in Hi. }
  split.
  { unfold list_create, list_alloc, put_list. msimpl. fold a. f_equal.
    apply world_eq; cbn; try done. by rewrite insert_insert_eq. }
  split; [done|]. split; [done|]. split; [done|].
  split.
  { unfold list_count. msimpl.
    rewrite (slurm_mutex_lock_run _ a L0) by (done || by destruct Hok0).
    rewrite (assert_list_magic_run a (set_mutex true L0))
      by (done || cbn; apply lookup_insert_eq).
    erewrite get_list_run by (cbn; apply lookup_insert_eq). msimpl.
    by rewrite unlock_same by (done || by destruct Hok0). }
  split; [|done].
  intros b Lb [Hl Hm Hs Hsz Hc Hch]. split; try done.
  cbn. rewrite lookup_insert_ne; [done|]. intros <-. congruence.
Qed.

Lemma next_state_indices_ok L it :
  size L < 2 ^ 31 → indices_ok (size L) it → indices_ok (size L) (next_state L it).
Proof.
  intros Hs (H0 & H1 & H2). unfold indices_ok, next_state, next_prev.
  destruct (Z.ltb_spec (pos it) (size L)); destruct (Z.eqb_spec (prev it) (pos it));
    msimpl; rewrite ?u32_small by lia; lia.
Qed.

(** X28.  The traversal and the insertions keep the indices of an iterator
    on the chain in order and in range: after [list_next] or
    [list_iterator_reset] they satisfy [0 <= prev <= pos <= size], and after
    a successful [list_append], [list_prepend] or [list_insert] they satisfy
    it for the size the list then has. *)
Theorem X28_indices_stay_in_range w a L i it :
  list_ok w a L → mutex L = false →
  i ∈ iNext L → iters w !! i = Some it → i_list it = Some a →
  indices_ok (size L) it →
  (∃ v w' it', list_next (Some i) w = Ok v w' ∧
               iters w' !! i = Some it' ∧ indices_ok (size L) it') ∧
  (∃ w' it', list_iterator_reset (Some i) w = Ok tt w' ∧
             iters w' !! i = Some it' ∧ indices_ok (size L) it') ∧
  (∀ x, can_grow w L → x ≠ NULL →
     ∃ wa ita wp itp wi iti,
       list_append (Some a) x w = Ok x wa ∧
       iters wa !! i = Some ita ∧ indices_ok (size L + 1) ita ∧
       list_prepend (Some a) x w = Ok x wp ∧
       iters wp !! i = Some itp ∧ indices_ok (size L + 1) itp ∧
       list_insert (Some i) x w = Ok x wi ∧
       iters wi !! i = Some iti ∧ indices_ok (size L + 1) iti).
Proof.
  intros Hok Hu Hi Hit Hil Hind. pose proof Hok as [Hl Hm Hs Hsz Hc Hch].
  pose proof (chain_magic w a L i it Hok Hi Hit) as Him.
  pose proof Hind as (H0 & H1 & H2).
  split; [|split].
  - exists (next_value L it). eexists. exists (next_state L it).
    split; [apply (list_next_run w i it a L); (done || lia)|].
    split; [cbn; apply lookup_insert_eq|].
    apply next_state_indices_ok; [lia|done].
  - eexists. exists (reset_iterator it).
    split; [by apply (list_iterator_reset_run w i it a L)|].
    split; [cbn; apply lookup_insert_eq|].
    apply reset_iterator_indices_ok. lia.
  - intros x Hg Hx.
    exists (after_insertion a L (size L) x w), (create_repair (size L) it),
           (after_insertion a L 0 x w), (create_repair 0 it),
           (after_insertion a L (prev it) x w), (create_repair (prev it) it).
    split; [by apply list_append_run|].
    split; [by apply after_insertion_lookup|].
    split; [apply create_repair_indices_ok; (done || lia)|].
    split; [by apply list_prepend_run|].
    split; [by apply after_insertion_lookup|].
    split; [apply create_repair_indices_ok; (done || lia)|].
    split; [apply (list_insert_run w i it a L); (done || lia)|].
    split; [by apply after_insertion_lookup|].
    apply create_repair_indices_ok; (done || lia).
Qed.

End ListC.

(** * Concrete runs *)

Lemma w_one_ok locked p q : list_ok (w_one locked p q) 1%positive (L_one locked).
Proof.
  split; try done.
  intros i Hi. apply list_elem_of_singleton in Hi as ->. by eexists.
Qed.

Lemma w_three_ok p q : list_ok (w_three p q) 1%positive L_three.
Proof.
  split; try done.
  intros i Hi. apply list_elem_of_singleton in Hi as ->. by eexists.
Qed.

(** [w_three 3 2] is what a program reaches by appending 5, 6 and 5 to a
    new list and advancing a new iterator three times. *)
Lemma w_three_reached NDEBUG :
  (l ← list_create NULL; list_append NDEBUG l 5 ;; list_append NDEBUG l 6 ;;
   list_append NDEBUG l 5 ;;
   i ← list_iterator_create NDEBUG l; list_next NDEBUG i ;; list_next NDEBUG i ;;
   list_next NDEBUG i) empty_world
  = Ok 5 (w_three 3 2).
Proof. destruct NDEBUG; vm_compute; reflexivity. Qed.

Lemma w_two_ok p q : list_ok (w_two p q) 1%positive L_two.
Proof.
  split; try done.
  intros i Hi. apply list_elem_of_singleton in Hi as ->. by eexists.
Qed.

(** [w_one false 1 0] is what a program reaches by appending 10 to a new
    list and advancing a new iterator once. *)
Lemma w_one_reached NDEBUG :
  (l ← list_create NULL; list_append NDEBUG l 10 ;;
   i ← list_iterator_create NDEBUG l; list_next NDEBUG i) empty_world
  = Ok 10 (w_one false 1 0).
Proof. destruct NDEBUG; vm_compute; reflexivity. Qed.

(** ** C1, C9, C10 at concrete inputs *)

Lemma C1_removal_repairs_iterators_witness :
  (∃ v w', list_pop false (Some 1%positive) (w_one false 1 0) = Ok v w' ∧
           slots (L_one false) !! 0%nat = Some v ∧
           repairs_at (L_one false) 0 (w_one false 1 0) w') ∧
  (∃ v w', list_remove false (Some 1%positive) (w_one false 1 0) = Ok v w' ∧
           slots (L_one false) !! Z.to_nat 0 = Some v ∧
           repairs_at (L_one false) 0 (w_one false 1 0) w') ∧
  (∃ v w', list_remove_first false (Some 1%positive) find_equal 10 (w_one false 1 0)
           = Ok v w' ∧
           elements (L_one false) !! Z.to_nat 0 = Some v ∧
           repairs_at (L_one false) 0 (w_one false 1 0) w') ∧
  (∃ w', list_delete_ptr false (Some 1%positive) 10 (w_one false 1 0) = Ok 1 w' ∧
         repairs_at (L_one false) 0 (w_one false 1 0) w') ∧
  (∃ n w' L', list_delete_all false (Some 1%positive) find_equal 5 (w_three 3 2)
              = Ok n w' ∧ lists w' !! 1%positive = Some L' ∧
              removals (λ e, negb (find_equal e 5 =? 0)) (iNext L_three)
                       (elements L_three) (iters (w_three 3 2))
                       (elements L') (iters w') ∧
              iters w' !! 1%positive
              = Some (mk_listIterator LIST_ITR_MAGIC (Some 1%positive) 3 1)) ∧
  (∃ v w', _list_node_destroy false 1%positive 0 (w_one true 1 0) = Ok v w' ∧
           slots (L_one true) !! Z.to_nat 0 = Some v ∧
           repairs_at (L_one true) 0 (w_one true 1 0) w').
Proof.
  destruct (C1_removal_repairs_iterators false (w_one false 1 0) 1%positive
              (L_one false) (w_one_ok false 1 0))
    as (_ & _ & Hpop & Hrem & Hfirst & Hptr & _).
  destruct (C1_removal_repairs_iterators false (w_three 3 2) 1%positive
              L_three (w_three_ok 3 2)) as (_ & _ & _ & _ & _ & _ & Hall).
  destruct (C1_removal_repairs_iterators false (w_one true 1 0) 1%positive
              (L_one true) (w_one_ok true 1 0)) as (Hprim & _).
  assert (∀ P : Node → bool, P 10 = true → first_index P (elements (L_one false)) 0)
    as Hfi.
  { intros P HP. split; [lia|]. split; [by exists 10|]. intros j e Hj. lia. }
  repeat apply conj.
  - apply Hpop; [reflexivity|cbn; lia].
  - apply (Hrem 1%positive (mk_listIterator LIST_ITR_MAGIC (Some 1%positive) 1 0));
      try reflexivity; cbn; lia.
  - apply Hfirst; [reflexivity|by vm_compute|by apply Hfi].
  - apply Hptr; [reflexivity|by vm_compute|by apply Hfi].
  - destruct (Hall find_equal 5 eq_refl) as (n & w' & L' & Hrun & Hl & Hseq & Hit).
    exists n, w', L'. split; [exact Hrun|]. split; [exact Hl|].
    split; [exact Hseq|].
    exact (Hit 1%positive _ (list_elem_of_here _ _) eq_refl).
  - apply Hprim; [reflexivity|cbn; lia].
Defined.

(** [w_one false 0 0] is what a program reaches by appending 10 to a new
    list and creating an iterator, which has not moved. *)
Lemma w_one_fresh_reached NDEBUG :
  (l ← list_create NULL; list_append NDEBUG l 10 ;;
   list_iterator_create NDEBUG l) empty_world
  = Ok (Some 1%positive) (w_one false 0 0).
Proof. destruct NDEBUG; vm_compute; reflexivity. Qed.

(** The iterator of [w_one false 0 0] has not moved, 5 and then 6 are
    prepended after its creation, and its next advance yields 5. *)
Lemma C9_counterexample :
  pos (mk_listIterator LIST_ITR_MAGIC (Some 1%positive) 0 0) = 0 ∧
  prev (mk_listIterator LIST_ITR_MAGIC (Some 1%positive) 0 0) = 0 ∧
  ¬ never_yields_prepended false (w_one false 0 0) (Some 1%positive)
      (Some 1%positive) [5; 6].
Proof.
  split; [reflexivity|]. split; [reflexivity|].
  intros H.
  assert (∃ w1, prepend_all false (Some 1%positive) [5; 6] (w_one false 0 0)
                = Ok tt w1 ∧
                ∃ w2, list_next false (Some 1%positive) w1 = Ok 5 w2)
    as (w1 & E1 & w2 & E2).
  { eexists. split; [vm_compute; reflexivity|]. eexists. vm_compute. reflexivity. }
  apply (H w1 5 w2 E1 E2). apply list_elem_of_here.
Qed.

Lemma C9_fresh_iterator_skips_prepended_witness :
  ∃ w1 L1 it1,
    list_prepend false (Some 1%positive) 5 (w_one false 0 0) = Ok 5 w1 ∧
    list_push false (Some 1%positive) 5 (w_one false 0 0) = Ok 5 w1 ∧
    lists w1 !! 1%positive = Some L1 ∧ elements L1 = 5 :: elements (L_one false) ∧
    iters w1 !! 1%positive = Some it1 ∧ pos it1 = 1 ∧ prev it1 = 1 ∧
    (∃ w2, list_next false (Some 1%positive) w1
           = Ok (default NULL (head (elements (L_one false)))) w2) ∧
    (∃ w2 L2 w3,
       list_prepend false (Some 1%positive) 6 w1 = Ok 6 w2 ∧
       list_push false (Some 1%positive) 6 w1 = Ok 6 w2 ∧
       lists w2 !! 1%positive = Some L2 ∧
       elements L2 = 6 :: 5 :: elements (L_one false) ∧
       iters w2 !! 1%positive = Some it1 ∧
       list_next false (Some 1%positive) w2 = Ok 5 w3).
Proof.
  destruct (C9_fresh_iterator_skips_prepended false (w_one false 0 0) 1%positive
              (L_one false) 1%positive
              (mk_listIterator LIST_ITR_MAGIC (Some 1%positive) 0 0) 5)
    as (w1 & L1 & it1 & H1 & H2 & H3 & H4 & H5 & H6 & H7 & H8 & H9).
  - apply w_one_ok.
  - reflexivity.
  - right. split; [by vm_compute|by vm_compute].
  - by vm_compute.
  - apply list_elem_of_here.
  - reflexivity.
  - reflexivity.
  - reflexivity.
  - reflexivity.
  - exists w1, L1, it1.
    split; [exact H1|]. split; [exact H2|]. split; [exact H3|].
    split; [exact H4|]. split; [exact H5|]. split; [exact H6|].
    split; [exact H7|]. split; [exact H8|].
    apply H9; [by vm_compute|].
    assert (capacity L1 < 2 ^ 30 ∧ realloc_tape w1 = []) as [Hc Ht].
    { pose proof H1 as E1. vm_compute in E1. injection E1 as <-.
      pose proof H3 as E3. vm_compute in E3. injection E3 as <-.
      split; [by vm_compute|reflexivity]. }
    right. split; [|exact Hc]. unfold realloc_succeeds. by rewrite Ht.
Defined.

Lemma C10_list_count_witness :
  list_count false None empty_world = Ok 0 empty_world ∧
  list_count false (Some 1%positive) (w_two 0 0)
  = Ok (Z.of_nat (length (elements L_two))) (w_two 0 0) ∧
  Z.of_nat (length (elements L_two)) = size L_two.
Proof.
  split.
  - apply (C10_list_count false).
  - apply (C10_list_count false); [apply w_two_ok|reflexivity].
Defined.

(** ** C3 at concrete inputs *)

(** The iterator of [w_one false 1 0] is exhausted (its next index is the
    size of the list), and yet it does not yield an appended 20. *)
Lemma C3_counterexample :
  pos (mk_listIterator LIST_ITR_MAGIC (Some 1%positive) 1 0) = size (L_one false) ∧
  ¬ un_exhausts false (w_one false 1 0) (Some 1%positive) (Some 1%positive) 20.
Proof.
  split; [reflexivity|].
  intros H. destruct (H _ eq_refl) as [w2 Hw2]. vm_compute in Hw2. discriminate.
Qed.

Lemma C3_exhausted_iterator_stays_exhausted_witness :
  ∃ w1 L1 w2 it2,
    list_append false (Some 1%positive) 20 (w_one false 1 0) = Ok 20 w1 ∧
    lists w1 !! 1%positive = Some L1 ∧ elements L1 = elements (L_one false) ++ [20] ∧
    list_next false (Some 1%positive) w1 = Ok NULL w2 ∧
    iters w2 !! 1%positive = Some it2 ∧ pos it2 = size L1.
Proof.
  apply (C3_exhausted_iterator_stays_exhausted false (w_one false 1 0) 1%positive
           (L_one false) 1%positive
           (mk_listIterator LIST_ITR_MAGIC (Some 1%positive) 1 0) 20).
  - apply w_one_ok.
  - reflexivity.
  - right. split; [by vm_compute|by vm_compute].
  - by vm_compute.
  - apply list_elem_of_here.
  - reflexivity.
  - reflexivity.
  - reflexivity.
Defined.

(** ** C7 at concrete inputs *)

(** On the one-element list the iterator that has yielded keeps its
    indices (1 and 0) across [list_flip] and across [list_sort]. *)
Lemma C7_counterexample :
  ¬ resets_iterator (list_flip false (Some 1%positive)) (w_one false 1 0) 1%positive ∧
  ¬ resets_iterator
      (list_sort false insertion_sort (Some 1%positive) (fun x y => x - y))
      (w_one false 1 0) 1%positive.
Proof.
  split; intros H; destruct (H _ eq_refl) as (it & Hit & Hpos & _);
    vm_compute in Hit; injection Hit as <-; discriminate.
Qed.

Lemma C7_sort_flip_reset_iterators_witness :
  ∃ ws wf,
    list_sort false insertion_sort (Some 1%positive) (fun x y => x - y) (w_two 2 1)
    = Ok tt ws ∧
    list_flip false (Some 1%positive) (w_two 2 1) = Ok tt wf ∧
    (1 < size L_two →
     ∀ i it, i ∈ iNext L_two → iters (w_two 2 1) !! i = Some it →
       iters ws !! i = Some (reset_iterator it) ∧
       iters wf !! i = Some (reset_iterator it) ∧
       pos (reset_iterator it) = 0 ∧ prev (reset_iterator it) = 0) ∧
    (size L_two <= 1 → ws = w_two 2 1 ∧ wf = w_two 2 1).
Proof.
  apply (C7_sort_flip_reset_iterators false insertion_sort (w_two 2 1) 1%positive
           L_two (fun x y => x - y)).
  - apply w_two_ok.
  - reflexivity.
Defined.

(** ** Runs on which the code departs from the specification *)

(** C2.  With [max = 2] the loop of [list_transfer_max] runs while
    [n <= max], so it moves three elements: it returns 3, [dest] holds
    10, 20, 30 and [src] is left empty, where the specification has 2
    returned and 30 left in [src].  The loop is left at its fourth test,
    whatever fuel is added. *)
Theorem C2_transfer_max_moves_one_too_many (NDEBUG : bool) (extra : nat) :
  returned (transfer_scenario NDEBUG (4 + extra) empty_world)
  = Some (3, [10; 20; 30], 3, 0).
Proof. destruct NDEBUG; vm_compute; reflexivity. Qed.

(** C4.  [_list_node_destroy] moves only the iterators that stand right
    behind the removed slot.  An iterator that has run to the end of
    10, 20, 30 keeps its next index 3 when the head is popped, though the
    size is now 2: the index lies outside [0, size].  Two pops later the
    same iterator hands [list_insert] the index 3 for a list of size 1,
    which [_list_node_create] asserts cannot happen
    ([xassert(p >= 0 && p <= l->size)]); without assertions the insertion is
    refused. *)
Theorem C4_removal_leaves_iterator_past_end (NDEBUG : bool) :
  returned (pop_behind_iterator NDEBUG empty_world) = Some (3, 2, 2) ∧
  insert_past_end false empty_world = Crash AssertFailed ∧
  returned (insert_past_end true empty_world) = Some NULL.
Proof. destruct NDEBUG; vm_compute; repeat split; reflexivity. Qed.

(** C5.  The list holds 10 in an array of one slot (size 1, capacity 1).
    When the allocator refuses to grow the array for a second element,
    [list_append] returns [NULL] and the size stays 1, but [_list_grow] has
    already doubled the capacity (1 to 2) and overwritten [l->arr] with the
    [NULL] it got: the element 10 is lost, and reading the head faults. *)
Theorem C5_failed_growth_clobbers_list (NDEBUG : bool) :
  returned (append_first NDEBUG second_realloc_fails) = Some (10, 1, 1, Some [10]) ∧
  returned (append_to_full NDEBUG second_realloc_fails) = Some (NULL, 1, 2, None) ∧
  peek_after_appends NDEBUG second_realloc_fails = Crash MemFault.
Proof. destruct NDEBUG; vm_compute; repeat split; reflexivity. Qed.

(** C6.  On a list without destructor [list_flush] removes the three
    elements and returns 0, not 3: the count is kept inside the branch that
    calls the destructor.  With a destructor it returns 3 and calls it on
    10, 20, 30 once each; and [list_delete_all] counts what it removes with
    or without one. *)
Theorem C6_flush_without_destructor_returns_zero (NDEBUG : bool) :
  returned (flush_scenario NDEBUG NULL empty_world) = Some (3, 0, 0, []) ∧
  returned (flush_scenario NDEBUG 77 empty_world)
  = Some (3, 3, 0, [(77, 10); (77, 20); (77, 30)]) ∧
  returned (delete_all_scenario NDEBUG NULL empty_world) = Some 3.
Proof. destruct NDEBUG; vm_compute; repeat split; reflexivity. Qed.

(** C8.  [list_shallow_copy] of an empty list asks [_list_reserve] for
    0 slots.  With assertions this trips [xassert(n != 0)]; without them
    [_list_reserve] answers -1, [list_shallow_copy] returns [NULL] with
    both mutexes still held, and the next operation on the original never
    gets the lock.  No copy is produced. *)
Theorem C8_shallow_copy_of_empty_list_fails :
  (l ← list_create NULL; list_shallow_copy false l) empty_world = Crash AssertFailed ∧
  returned ((l ← list_create NULL; list_shallow_copy true l) empty_world) = Some None ∧
  copy_empty true empty_world = Crash Deadlock.
Proof. vm_compute. repeat split; reflexivity. Qed.

(** * The further properties at concrete inputs *)

Lemma w_del_ok : list_ok w_del 1%positive L_del.
Proof.
  split; try done.
  intros i Hi. apply list_elem_of_singleton in Hi as ->. by eexists.
Qed.

Lemma w_pair_ok_dst : list_ok w_pair 1%positive L_two.
Proof.
  split; try done.
  intros i Hi. apply list_elem_of_singleton in Hi as ->. by eexists.
Qed.

Lemma w_pair_ok_src : list_ok w_pair 2%positive L_src.
Proof. split; try done. intros i Hi. by apply elem_of_nil in Hi. Qed.

Lemma w_two_can_grow p q : can_grow (w_two p q) L_two.
Proof. right. split; [by vm_compute|by vm_compute]. Qed.

Lemma w_one_can_grow p q : can_grow (w_one false p q) (L_one false).
Proof. right. split; [by vm_compute|by vm_compute]. Qed.

(** 20 is the first element of [[10; 20]] that [P] accepts. *)
Lemma first_index_second (P : Node → bool) :
  P 10 = false → P 20 = true → first_index P [10; 20] 1.
Proof.
  intros H10 H20. split; [lia|]. split; [by exists 20|].
  intros j e Hj He. assert (j = 0) as -> by lia. cbn in He. by injection He as <-.
Qed.

Lemma no_NULL_in (l : list Node) : forallb (λ e, negb (e =? NULL)) l = true →
  ∀ e, e ∈ l → e ≠ NULL.
Proof.
  intros H e He. rewrite forallb_forall in H.
  apply list_elem_of_In in He. specialize (H e He).
  by destruct (Z.eqb_spec e NULL).
Qed.

Lemma all_nonneg_in (l : list Node) : forallb (λ e, 0 <=? e) l = true →
  ∀ e, e ∈ l → 0 <= e.
Proof.
  intros H e He. rewrite forallb_forall in H.
  apply list_elem_of_In in He. specialize (H e He). lia.
Qed.

Lemma X1_queries_read_only_witness :
  list_peek false (Some 1%positive) (w_two 0 0) = Ok 10 (w_two 0 0) ∧
  list_peek_last false (Some 1%positive) (w_two 0 0) = Ok 20 (w_two 0 0) ∧
  ∃ b, list_is_empty false (Some 1%positive) (w_two 0 0) = Ok b (w_two 0 0) ∧
       (b = true ↔ elements L_two = []).
Proof.
  exact (X1_queries_read_only false (w_two 0 0) 1%positive L_two
           (w_two_ok 0 0) eq_refl).
Defined.

Lemma X2_pop_takes_the_head_witness :
  ∃ v w' L',
    list_pop false (Some 1%positive) (w_two 0 0) = Ok v w' ∧
    list_dequeue false (Some 1%positive) (w_two 0 0) = Ok v w' ∧
    head (elements L_two) = Some v ∧
    lists w' !! 1%positive = Some L' ∧ elements L' = [20] ∧
    capacity L' = 2 ∧ list_ok w' 1%positive L' ∧ mutex L' = false.
Proof.
  destruct (X2_pop_takes_the_head false (w_two 0 0) 1%positive L_two
              (w_two_ok 0 0) eq_refl) as [_ H].
  exact (H eq_refl).
Defined.

Lemma X3_insertion_at_the_ends_witness :
  ∃ wa La wp Lp,
    list_append false (Some 1%positive) 5 (w_two 0 0) = Ok 5 wa ∧
    list_enqueue false (Some 1%positive) 5 (w_two 0 0) = Ok 5 wa ∧
    lists wa !! 1%positive = Some La ∧ elements La = [10; 20; 5] ∧
    list_ok wa 1%positive La ∧ mutex La = false ∧
    list_prepend false (Some 1%positive) 5 (w_two 0 0) = Ok 5 wp ∧
    list_push false (Some 1%positive) 5 (w_two 0 0) = Ok 5 wp ∧
    lists wp !! 1%positive = Some Lp ∧ elements Lp = [5; 10; 20] ∧
    list_ok wp 1%positive Lp ∧ mutex Lp = false.
Proof.
  apply (X3_insertion_at_the_ends false (w_two 0 0) 1%positive L_two 5).
  - apply w_two_ok.
  - reflexivity.
  - apply w_two_can_grow.
  - by vm_compute.
Defined.

Lemma X4_insert_before_last_yielded_witness :
  ∃ w' L',
    list_insert false (Some 1%positive) 5 (w_one false 1 0) = Ok 5 w' ∧
    lists w' !! 1%positive = Some L' ∧ elements L' = [5; 10] ∧
    list_ok w' 1%positive L'.
Proof.
  apply (X4_insert_before_last_yielded false (w_one false 1 0) 1%positive
           (L_one false) 1%positive
           (mk_listIterator LIST_ITR_MAGIC (Some 1%positive) 1 0) 5).
  - apply w_one_ok.
  - reflexivity.
  - apply w_one_can_grow.
  - by vm_compute.
  - apply list_elem_of_here.
  - reflexivity.
  - reflexivity.
  - cbn. lia.
Defined.

Lemma X5_growth_doubles_when_full_witness :
  ∃ w' L',
    list_append false (Some 1%positive) 5 (w_two 0 0) = Ok 5 w' ∧
    lists w' !! 1%positive = Some L' ∧ size L' = 3 ∧ capacity L' = 4.
Proof.
  destruct (X5_growth_doubles_when_full false (w_two 0 0) 1%positive L_two 5
              (w_two_ok 0 0) eq_refl (w_two_can_grow 0 0) ltac:(by vm_compute))
    as (w' & L' & Hrun & Hl & Hs & _ & Hfull).
  destruct (Hfull eq_refl) as [Hc _].
  exists w', L'. split; [exact Hrun|]. split; [exact Hl|].
  split; [exact Hs|exact Hc].
Defined.

Lemma X6_push_then_pop_witness :
  ∃ w1 w2 L2,
    list_push false (Some 1%positive) 5 (w_two 0 0) = Ok 5 w1 ∧
    list_pop false (Some 1%positive) w1 = Ok 5 w2 ∧
    lists w2 !! 1%positive = Some L2 ∧ elements L2 = [10; 20].
Proof.
  apply (X6_push_then_pop false (w_two 0 0) 1%positive L_two 5).
  - apply w_two_ok.
  - reflexivity.
  - apply w_two_can_grow.
  - by vm_compute.
Defined.

Lemma X7_new_iterator_yields_all_witness :
  ∃ i w1 w2 w3,
    list_iterator_create false (Some 1%positive) (w_two 0 0) = Ok (Some i) w1 ∧
    iters (w_two 0 0) !! i = None ∧
    next_n false 2 (Some i) w1 = Ok [10; 20] w2 ∧
    list_next false (Some i) w2 = Ok NULL w3.
Proof.
  exact (X7_new_iterator_yields_all false (w_two 0 0) 1%positive L_two
           (w_two_ok 0 0) eq_refl).
Defined.

Lemma X8_reset_restarts_the_traversal_witness :
  ∃ w1 w2 w3,
    list_iterator_reset false (Some 1%positive) (w_one false 1 0) = Ok tt w1 ∧
    next_n false 1 (Some 1%positive) w1 = Ok [10] w2 ∧
    list_next false (Some 1%positive) w2 = Ok NULL w3.
Proof.
  exact (X8_reset_restarts_the_traversal false (w_one false 1 0) 1%positive
           (L_one false) 1%positive
           (mk_listIterator LIST_ITR_MAGIC (Some 1%positive) 1 0)
           (w_one_ok false 1 0) eq_refl eq_refl eq_refl eq_refl).
Defined.

Lemma X9_iterator_create_destroy_witness :
  (∃ w', list_iterator_destroy false (Some 1%positive) (w_two 0 0) = Ok tt w' ∧
         iters w' = delete 1%positive (iters (w_two 0 0)) ∧
         lists w' !! 1%positive = Some (set_iNext [] L_two)) ∧
  (i ← list_iterator_create false (Some 1%positive);
   list_iterator_destroy false i) (w_two 0 0) = Ok tt (w_two 0 0).
Proof.
  destruct (X9_iterator_create_destroy false (w_two 0 0) 1%positive L_two
              (w_two_ok 0 0) eq_refl) as [Hd Hcd].
  split; [|exact Hcd].
  exact (Hd 1%positive (mk_listIterator LIST_ITR_MAGIC (Some 1%positive) 0 0)
            eq_refl eq_refl eq_refl).
Defined.

Lemma X10_remove_while_iterating_witness :
  ∃ v w1 L1 w2,
    list_remove false (Some 1%positive) (w_one false 1 0) = Ok v w1 ∧
    elements (L_one false) !! 0%nat = Some v ∧
    lists w1 !! 1%positive = Some L1 ∧ elements L1 = [] ∧
    list_remove false (Some 1%positive) w1 = Ok NULL w1 ∧
    list_next false (Some 1%positive) w1 = Ok NULL w2.
Proof.
  destruct (X10_remove_while_iterating false (w_one false 1 0) 1%positive
              (L_one false) 1%positive
              (mk_listIterator LIST_ITR_MAGIC (Some 1%positive) 1 0)
              (w_one_ok false 1 0) eq_refl (list_elem_of_here _ _) eq_refl eq_refl)
    as [_ H].
  apply H; [reflexivity|cbn; lia].
Defined.

Lemma X11_delete_item_witness :
  ∃ w' L',
    list_delete_item false (Some 1%positive) w_del = Ok 1 w' ∧
    lists w' !! 1%positive = Some L' ∧ elements L' = [20] ∧
    fDel_log w' = [(77, 10)].
Proof.
  destruct (X11_delete_item false w_del 1%positive L_del 1%positive
              (mk_listIterator LIST_ITR_MAGIC (Some 1%positive) 1 0)
              w_del_ok eq_refl (list_elem_of_here _ _) eq_refl eq_refl)
    as [_ H].
  apply (H 10); [by vm_compute|cbn; lia|reflexivity|by vm_compute].
Defined.

Lemma X12_find_first_witness :
  list_find_first false (Some 1%positive) find_equal 20 (w_two 0 0)
  = Ok 20 (w_two 0 0).
Proof.
  destruct (X12_find_first false (w_two 0 0) 1%positive L_two find_equal 20
              (w_two_ok 0 0) eq_refl ltac:(by vm_compute))
    as (v & Hrun & Hfound & _).
  specialize (Hfound 1 (first_index_second _ eq_refl eq_refl)).
  cbn in Hfound. injection Hfound as <-. exact Hrun.
Defined.

Lemma X13_for_each_witness :
  list_for_each false (Some 1%positive) (λ e _, e - 15) 0 (w_two 0 0)
  = Ok (-1) (w_two 0 0) ∧
  list_for_each_nobreak false (Some 1%positive) (λ e _, e - 15) 0 (w_two 0 0)
  = Ok (-2) (w_two 0 0) ∧
  list_for_each false (Some 1%positive) (λ e _, e) 0 (w_two 0 0)
  = Ok 2 (w_two 0 0).
Proof.
  destruct (X13_for_each false (w_two 0 0) 1%positive L_two (λ e _, e - 15) 0
              (w_two_ok 0 0) eq_refl)
    as [(n & Hrun & _ & Hbreak) (n' & Hrun' & _ & Hfail)].
  destruct (X13_for_each false (w_two 0 0) 1%positive L_two (λ e _, e) 0
              (w_two_ok 0 0) eq_refl)
    as [(m & Hrunm & Hall & _) _].
  assert (n = -1) as ->.
  { apply (Hbreak 0). split; [lia|]. split; [by exists 10|]. intros j e Hj. lia. }
  assert (n' = -2) as ->.
  { apply Hfail. exists 10. split; [apply list_elem_of_here|reflexivity]. }
  assert (m = 2) as ->.
  { apply Hall. apply (all_nonneg_in [10; 20]). reflexivity. }
  split; [exact Hrun|]. split; [exact Hrun'|exact Hrunm].
Defined.

Lemma X14_for_each_max_witness :
  list_for_each_max false (Some 1%positive) 1 (λ e _, e) 0 true (w_two 0 0)
  = Ok (1, 1) (w_two 0 0).
Proof.
  apply (X14_for_each_max false (w_two 0 0) 1%positive L_two 1 (λ e _, e) 0 true).
  - apply w_two_ok.
  - reflexivity.
  - apply (all_nonneg_in [10; 20]). reflexivity.
Defined.

Lemma X15_flush_empties_and_resets_witness :
  ∃ w', list_flush false (Some 1%positive) w_del = Ok 2 w' ∧
        list_ok w' 1%positive (set_size 0 L_del) ∧
        iters w' !! 1%positive
        = Some (mk_listIterator LIST_ITR_MAGIC (Some 1%positive) 0 0) ∧
        fDel_log w' = [(77, 10); (77, 20)].
Proof.
  destruct (X15_flush_empties_and_resets false w_del 1%positive L_del
              w_del_ok eq_refl) as (w' & Hrun & Hok & _ & Hit & _ & Hlog).
  exists w'. split; [exact Hrun|]. split; [exact Hok|]. split; [|exact Hlog].
  exact (Hit 1%positive _ (list_elem_of_here _ _) eq_refl).
Defined.

Lemma X16_shallow_copy_witness :
  ∃ m C w',
    list_shallow_copy false (Some 1%positive) (w_two 0 0) = Ok (Some m) w' ∧
    m ≠ 1%positive ∧ lists (w_two 0 0) !! m = None ∧
    list_ok w' m C ∧ elements C = [10; 20] ∧ capacity C = 2 ∧
    fDel C = NULL ∧ iNext C = [] ∧ mutex C = false ∧
    lists w' !! 1%positive = Some L_two ∧
    iters w' = iters (w_two 0 0) ∧ fDel_log w' = fDel_log (w_two 0 0).
Proof.
  apply (X16_shallow_copy false (w_two 0 0) 1%positive L_two).
  - apply w_two_ok.
  - reflexivity.
  - reflexivity.
  - by vm_compute.
Defined.

Lemma X17_destroy_witness :
  ∃ w', list_destroy false (Some 1%positive) w_del = Ok tt w' ∧
        lists w' = delete 1%positive (lists w_del) ∧
        iters w' !! 1%positive = None ∧
        fDel_log w' = [(77, 10); (77, 20)].
Proof.
  destruct (X17_destroy false w_del 1%positive L_del w_del_ok eq_refl
              (NoDup_singleton _))
    as (w' & Hrun & Hl & Hfreed & _ & Hlog & _).
  exists w'. split; [exact Hrun|]. split; [exact Hl|].
  split; [exact (Hfreed 1%positive (list_elem_of_here _ _))|exact Hlog].
Defined.

Lemma X18_peek_next_keeps_the_lock_witness :
  ∃ w', list_peek_next false (Some 1%positive) (w_two 0 0) = Ok 10 w' ∧
        iters w' = iters (w_two 0 0) ∧
        lists w' = <[1%positive := set_mutex true L_two]> (lists (w_two 0 0)) ∧
        list_next false (Some 1%positive) w' = Crash Deadlock ∧
        list_count false (Some 1%positive) w' = Crash Deadlock.
Proof.
  apply (X18_peek_next_keeps_the_lock false (w_two 0 0) 1%positive
           (mk_listIterator LIST_ITR_MAGIC (Some 1%positive) 0 0) 1%positive L_two).
  - apply w_two_ok.
  - reflexivity.
  - reflexivity.
  - reflexivity.
  - reflexivity.
  - cbn. lia.
Defined.

Lemma X19_find_from_iterator_witness :
  ∃ it',
    list_find false (Some 1%positive) find_equal 20 (w_two 0 0)
    = Ok 20 (set_iters (<[1%positive := it']> (iters (w_two 0 0))) (w_two 0 0)) ∧
    pos it' = 2 ∧ prev it' = 1.
Proof.
  destruct (X19_find_from_iterator false (w_two 0 0) 1%positive L_two 1%positive
              (mk_listIterator LIST_ITR_MAGIC (Some 1%positive) 0 0) 0
              find_equal 20 (w_two_ok 0 0) eq_refl eq_refl eq_refl eq_refl)
    as (v & it' & Hrun & Hfound & _).
  - split; [reflexivity|by left].
  - cbn. lia.
  - by vm_compute.
  - apply (no_NULL_in [10; 20]). reflexivity.
  - destruct (Hfound 1 (first_index_second _ eq_refl eq_refl)) as (Hv & [Hp _] & Hq).
    cbn in Hv. injection Hv as <-.
    exists it'. split; [exact Hrun|]. split; [exact Hp|exact Hq].
Defined.

Lemma X20_transfer_moves_everything_witness :
  ∃ w' La' Lb',
    list_transfer false 4 (Some 1%positive) (Some 2%positive) w_pair = Ok 3 w' ∧
    list_ok w' 1%positive La' ∧ list_ok w' 2%positive Lb' ∧
    elements La' = [10; 20; 30; 40; 50] ∧ elements Lb' = [] ∧
    mutex La' = false ∧ mutex Lb' = false ∧
    fDel_log w' = fDel_log w_pair.
Proof.
  apply (X20_transfer_moves_everything false w_pair 1%positive 2%positive
           L_two L_src 4).
  - done.
  - apply w_pair_ok_dst.
  - apply w_pair_ok_src.
  - reflexivity.
  - reflexivity.
  - reflexivity.
  - reflexivity.
  - by vm_compute.
  - apply (no_NULL_in [30; 40; 50]). reflexivity.
  - cbn. lia.
Defined.

Lemma X21_transfer_max_witness :
  ∃ w' La' Lb',
    list_transfer_max false 4 (Some 1%positive) (Some 2%positive) 1 w_pair
    = Ok 2 w' ∧
    list_ok w' 1%positive La' ∧ list_ok w' 2%positive Lb' ∧
    elements La' = [10; 20; 30; 40] ∧ elements Lb' = [50] ∧
    mutex La' = false ∧ mutex Lb' = false ∧
    fDel_log w' = fDel_log w_pair.
Proof.
  apply (X21_transfer_max false w_pair 1%positive 2%positive L_two L_src 4 1).
  - done.
  - apply w_pair_ok_dst.
  - apply w_pair_ok_src.
  - reflexivity.
  - reflexivity.
  - reflexivity.
  - reflexivity.
  - by vm_compute.
  - apply (no_NULL_in [30; 40; 50]). reflexivity.
  - cbn. lia.
Defined.

Lemma X22_append_list_witness :
  ∃ w' La',
    list_append_list false 4 (Some 1%positive) (Some 2%positive) w_pair = Ok 3 w' ∧
    list_ok w' 1%positive La' ∧ elements La' = [10; 20; 30; 40; 50] ∧
    mutex La' = false ∧
    list_ok w' 2%positive L_src ∧
    iters w' !! fresh (dom (iters w_pair)) = None ∧
    fDel_log w' = fDel_log w_pair.
Proof.
  apply (X22_append_list false w_pair 1%positive 2%positive L_two L_src 4).
  - done.
  - apply w_pair_ok_dst.
  - apply w_pair_ok_src.
  - reflexivity.
  - reflexivity.
  - reflexivity.
  - reflexivity.
  - by vm_compute.
  - apply (no_NULL_in [30; 40; 50]). reflexivity.
  - cbn. lia.
Defined.

Lemma X23_remove_first_delete_ptr_witness :
  (∃ v w' L',
     list_remove_first false (Some 1%positive) find_equal 20 w_del = Ok v w' ∧
     elements L_del !! 1%nat = Some v ∧
     list_ok w' 1%positive L' ∧ elements L' = [10] ∧
     fDel_log w' = fDel_log w_del) ∧
  list_remove_first false (Some 1%positive) find_equal 30 w_del = Ok NULL w_del ∧
  (∃ w' L',
     list_delete_ptr false (Some 1%positive) 20 w_del = Ok 1 w' ∧
     list_ok w' 1%positive L' ∧ elements L' = [10] ∧
     fDel_log w' = [(77, 20)]) ∧
  list_delete_ptr false (Some 1%positive) 30 w_del = Ok 0 w_del.
Proof.
  destruct (X23_remove_first_delete_ptr false w_del 1%positive L_del find_equal 20
              w_del_ok eq_refl ltac:(by vm_compute)) as (Hfirst & _ & Hptr & _).
  destruct (X23_remove_first_delete_ptr false w_del 1%positive L_del find_equal 30
              w_del_ok eq_refl ltac:(by vm_compute)) as (_ & Hnone & _ & Hnoptr).
  split; [exact (Hfirst 1 (first_index_second _ eq_refl eq_refl))|].
  split.
  { apply Hnone. intros e He. change (e ∈ [10; 20]) in He.
    apply elem_of_cons in He as [->|He]; [reflexivity|].
    apply list_elem_of_singleton in He as ->. reflexivity. }
  split; [exact (Hptr 1 (first_index_second _ eq_refl eq_refl))|].
  apply Hnoptr. intros e He. change (e ∈ [10; 20]) in He.
  apply elem_of_cons in He as [->|He]; [by vm_compute|].
  apply list_elem_of_singleton in He as ->. by vm_compute.
Defined.

Lemma X24_delete_all_witness :
  ∃ w' L',
    list_delete_all false (Some 1%positive) find_equal 10 w_del = Ok 1 w' ∧
    list_ok w' 1%positive L' ∧ mutex L' = false ∧
    elements L' = [20] ∧ fDel_log w' = [(77, 10)].
Proof.
  apply (X24_delete_all false w_del 1%positive L_del find_equal 10).
  - apply w_del_ok.
  - reflexivity.
  - apply (no_NULL_in [10; 20]). reflexivity.
Defined.

Lemma X25_flip_reverses_witness :
  ∃ w1 L1 w2 L2,
    list_flip false (Some 1%positive) (w_two 0 0) = Ok tt w1 ∧
    list_ok w1 1%positive L1 ∧ mutex L1 = false ∧ capacity L1 = 2 ∧
    elements L1 = [20; 10] ∧
    list_flip false (Some 1%positive) w1 = Ok tt w2 ∧
    lists w2 !! 1%positive = Some L2 ∧ elements L2 = [10; 20].
Proof.
  exact (X25_flip_reverses false (w_two 0 0) 1%positive L_two
           (w_two_ok 0 0) eq_refl).
Defined.

Lemma X26_sort_sorts_the_residents_witness :
  ∃ w' L',
    list_sort false insertion_sort (Some 1%positive) (λ x y, y - x) (w_two 0 0)
    = Ok tt w' ∧
    list_ok w' 1%positive L' ∧ mutex L' = false ∧ capacity L' = 2 ∧
    elements L' = [20; 10].
Proof.
  exact (X26_sort_sorts_the_residents false insertion_sort (w_two 0 0) 1%positive
           L_two (λ x y, y - x) (w_two_ok 0 0) eq_refl eq_refl).
Defined.

Lemma X28_indices_stay_in_range_witness :
  (∃ v w' it', list_next false (Some 1%positive) (w_two 0 0) = Ok v w' ∧
               iters w' !! 1%positive = Some it' ∧ indices_ok 2 it') ∧
  (∃ wa ita wp itp wi iti,
     list_append false (Some 1%positive) 5 (w_two 0 0) = Ok 5 wa ∧
     iters wa !! 1%positive = Some ita ∧ indices_ok 3 ita ∧
     list_prepend false (Some 1%positive) 5 (w_two 0 0) = Ok 5 wp ∧
     iters wp !! 1%positive = Some itp ∧ indices_ok 3 itp ∧
     list_insert false (Some 1%positive) 5 (w_two 0 0) = Ok 5 wi ∧
     iters wi !! 1%positive = Some iti ∧ indices_ok 3 iti).
Proof.
  destruct (X28_indices_stay_in_range false (w_two 0 0) 1%positive L_two 1%positive
              (mk_listIterator LIST_ITR_MAGIC (Some 1%positive) 0 0)
              (w_two_ok 0 0) eq_refl (list_elem_of_here _ _) eq_refl eq_refl)
    as (Hnext & _ & Hins).
  - unfold indices_ok. cbn. lia.
  - split; [exact Hnext|].
    exact (Hins 5 (w_two_can_grow 0 0) ltac:(by vm_compute)).
Defined.
